(** * gostatsd: the metric aggregator (statsd/aggregator.go)

    A shallow embedding of the aggregation engine: the four kind maps,
    the ingest fold [receiveMetric], the flush computation [flush] with its
    timer statistics, and [Reset] with its expiry policy.

    - float64 is Rocq's primitive binary64 ([PrimFloat]); the few library
      functions of Go's [math] package the aggregator calls are written out
      on the decoded value (sign, mantissa, exponent), and what is proved
      of the primitive operations uses their specification on
      [spec_float] ([FloatAxioms]);
    - int and int64 are [Z] with the two's complement wrap-around written
      out ([wrap64]);
    - [map[string]map[string]T] is a [gmap string (gmap string T)];
    - a run-time panic (index out of range, write into a nil map) is a
      value of the [Result] type. *)

From Stdlib Require Import ZArith Floats Uint63 Permutation.
From stdpp Require Import base option list gmap strings pretty.

Local Open Scope Z_scope.

(** ** Machine integers *)

Definition minInt64 : Z := - 2 ^ 63.
Definition maxInt64 : Z := 2 ^ 63 - 1.

(** Two's complement wrap-around of a 64-bit signed integer. *)
Definition wrap64 (z : Z) : Z := (z + 2 ^ 63) mod 2 ^ 64 - 2 ^ 63.

Definition inInt64 (z : Z) : bool := (minInt64 <=? z) && (z <=? maxInt64).

(** ** Run-time panics *)

Inductive RuntimeError : Type :=
  | IndexOutOfRange (index len : Z)
  | NilMapAssignment.

Inductive Result (A : Type) : Type :=
  | Ok (a : A)
  | Panic (e : RuntimeError).
Arguments Ok {A} a.
Arguments Panic {A} e.

#[global] Instance Result_ret : MRet Result := λ A a, Ok a.
#[global] Instance Result_bind : MBind Result := λ A B f r,
  match r with
  | Ok a => f a
  | Panic e => Panic e
  end.

(** A loop whose body may panic: the state is threaded through the
    elements in order and the first panic ends it. *)
Fixpoint foldM {A S : Type} (f : A → S → Result S) (l : list A) (s : S)
  : Result S :=
  match l with
  | [] => Ok s
  | x :: l' => s' ← f x s; foldM f l' s'
  end.

(** ** float64 and the functions of Go's [math] and [sort] used *)

Module float64.

Definition of_spec_mag (s : bool) (m : Z) : float :=
  let f := PrimFloat.of_uint63 (Uint63.of_Z m) in
  if s then PrimFloat.opp f else f.

(** [float64(i)] for an integer [i] of type int or int64: the nearest
    float64, ties to even. *)
Definition of_int (z : Z) : float :=
  if z =? minInt64 then (-0x1p63)%float
  else of_spec_mag (z <? 0) (Z.abs z).

(** A finite float64 decodes to a sign, a mantissa [m] and an exponent [e]:
    its value is [m * 2 ^ e], written with shifts below.

    [int(f)] and [int64(f)]: truncation towards zero.  Go leaves the
    result open when the value does not fit (or is NaN); the value used
    here is the one amd64 produces, the smallest int64. *)
Definition to_int (f : float) : Z :=
  match Prim2SF f with
  | S754_zero _ => 0
  | S754_finite s m e =>
      let mag := if 0 <=? e then Z.shiftl (Z.pos m) e
                 else Z.shiftr (Z.pos m) (- e) in
      let z := if s then - mag else mag in
      if inInt64 z then z else minInt64
  | _ => minInt64
  end.

End float64.

Module math.

Definition Abs (x : float) : float := PrimFloat.abs x.

Definition Sqrt (x : float) : float := PrimFloat.sqrt x.

(** [math.Floor]: the greatest integer value not above [x]; zeros,
    infinities and NaN are returned unchanged. *)
Definition Floor (x : float) : float :=
  match Prim2SF x with
  | S754_finite s m e =>
      if 0 <=? e then x
      else
        let v := if s then Z.neg m else Z.pos m in
        let z := Z.shiftr v (- e) in
        float64.of_spec_mag s (Z.abs z)
  | _ => x
  end.

(** [math.Mod x y]: the remainder of [x / y] with the sign of [x],
    computed exactly. *)
Definition Mod (x y : float) : float :=
  match Prim2SF x, Prim2SF y with
  | S754_nan, _ | _, S754_nan => PrimFloat.nan
  | S754_infinity _, _ => PrimFloat.nan
  | _, S754_zero _ => PrimFloat.nan
  | _, S754_infinity _ => x
  | S754_zero _, _ => x
  | S754_finite sx mx ex, S754_finite _ my ey =>
      let e := Z.min ex ey in
      let r := (Z.shiftl (Z.pos mx) (ex - e))
               mod (Z.shiftl (Z.pos my) (ey - e)) in
      Z.ldexp (float64.of_spec_mag sx r) e
  end.

End math.

Module sort.

(** [Float64Slice.Less]: ascending, NaN before every number. *)
Definition Less (x y : float) : bool :=
  PrimFloat.ltb x y || (PrimFloat.is_nan x && negb (PrimFloat.is_nan y)).

(** [sort.Float64sAreSorted]: no element is [Less] than the one before
    it. *)
Fixpoint Float64sAreSorted (l : list float) : bool :=
  match l with
  | [] => true
  | x :: l' =>
      match l' with
      | [] => true
      | y :: _ => negb (Less y x) && Float64sAreSorted l'
      end
  end.

(** [sort.Float64s] sorts the slice in increasing order, NaN first.  Go
    documents that the sort is not stable, and the algorithm has changed
    between releases: which order it gives to values that compare equal
    (zeros of opposite sign, NaNs) is not fixed.  So the sort is any
    function that meets the documented contract: it permutes the slice and
    leaves it sorted.  Every result below that goes through the sort holds
    for each such function. *)
Class Sorter : Type := {
  Float64s : list float → list float;
  Float64s_permutes : ∀ l, Float64s l ≡ₚ l;
  Float64s_sorts : ∀ l, Float64sAreSorted (Float64s l) = true
}.

(** One sort that meets the contract, the insertion sort; the examples are
    evaluated with it. *)
Fixpoint insert (x : float) (l : list float) : list float :=
  match l with
  | [] => [x]
  | y :: l' => if Less y x then y :: insert x l' else x :: y :: l'
  end.

Definition insertionSort (l : list float) : list float :=
  foldr insert [] l.

End sort.

(** ** Package time *)

Module time.

(** A [Duration] is an int64 count of nanoseconds. *)
Definition Duration : Type := Z.

Definition Nanosecond : Duration := 1.
Definition Second : Duration := 1000000000.

(** [Duration.Seconds]. *)
Definition Seconds (d : Duration) : float :=
  let sec := Z.quot d Second in
  let nsec := Z.rem d Second in
  (float64.of_int sec + float64.of_int nsec / 1e9)%float.

(** An instant, in nanoseconds since the Unix epoch. *)
Definition Time : Type := Z.

(** The zero [Time], January 1 of year 1, 00:00 UTC. *)
Definition zeroTime : Time := - 62135596800 * Second.

(** [t.Sub u]: the duration [t - u], saturated to the int64 range. *)
Definition Sub (t u : Time) : Duration :=
  let d := t - u in
  if d <? minInt64 then minInt64
  else if maxInt64 <? d then maxInt64
  else d.

End time.


(** ** Package types

    Modelled from the spec: the package [types] (the records of the four
    metric kinds, their constructors, the iteration and copy helpers, and
    [Percentiles.Set]) is not among the sources; the records carry the
    fields the spec's data model lists and the aggregator reads and
    writes. *)

Module types.

(** The discriminator of an ingress record; [OTHER] stands for any value
    that is none of the four kinds. *)
Inductive MetricType : Type :=
  | COUNTER
  | TIMER
  | GAUGE
  | SET
  | OTHER (code : Z).

#[global] Instance MetricType_eq_dec : EqDecision MetricType.
Proof. solve_decision. Defined.

Definition Tags : Type := list string.

Fixpoint insertTag (t : string) (l : list string) : list string :=
  match l with
  | [] => [t]
  | u :: l' =>
      match String.compare t u with
      | Lt => t :: l
      | Eq => l
      | Gt => u :: insertTag t l'
      end
  end.

(** Modelled from the spec: [Tags.String] is the canonical tag key, equal
    for tag collections of equal membership: the distinct tags in
    increasing order, joined with commas. *)
Definition Tags_String (tags : Tags) : string :=
  String.concat "," (foldr insertTag [] tags).

(** Modelled from the spec: the ingress record [types.Metric], with the
    fields the spec lists and [receiveMetric] reads. *)
Module Metric.
Record t : Type := mk {
  Name : string;
  Value : float;
  StringValue : string;
  Tags : types.Tags;
  Type_ : MetricType
}.
End Metric.

(** Modelled from the spec: [types.Counter]; the spec's data model gives a
    counter the separate fields value (int64), interval, timestamp and the
    rate computed at flush. *)
Module Counter.
Record t : Type := mk {
  Value : Z;
  PerSecond : float;
  Interval : time.Duration;
  Timestamp : time.Time
}.
(** [types.Counter{Interval: interval}]: every other field is zero. *)
Definition ofInterval (interval : time.Duration) : t :=
  mk 0 0%float interval time.zeroTime.
Definition withValue (c : t) (v : Z) : t :=
  mk v (PerSecond c) (Interval c) (Timestamp c).
Definition withPerSecond (c : t) (p : float) : t :=
  mk (Value c) p (Interval c) (Timestamp c).
End Counter.

(** Modelled from the spec: [types.Gauge]. *)
Module Gauge.
Record t : Type := mk {
  Value : float;
  Interval : time.Duration;
  Timestamp : time.Time
}.
Definition withValue (g : t) (v : float) : t :=
  mk v (Interval g) (Timestamp g).
End Gauge.

(** Modelled from the spec: the percentile fields of a timer, one entry
    per field key, in the order the keys were first set. *)
Definition Percentiles : Type := list (string * float).

Fixpoint Percentiles_Set (p : Percentiles) (key : string) (v : float)
  : Percentiles :=
  match p with
  | [] => [(key, v)]
  | (k, w) :: p' =>
      if String.eqb k key then (k, v) :: p'
      else (k, w) :: Percentiles_Set p' key v
  end.

Fixpoint Percentiles_Get (p : Percentiles) (key : string) : option float :=
  match p with
  | [] => None
  | (k, w) :: p' => if String.eqb k key then Some w else Percentiles_Get p' key
  end.

(** Modelled from the spec: [types.Timer], with the samples kept between
    flushes and the fields computed at flush. *)
Module Timer.
Record t : Type := mk {
  Count : Z;
  PerSecond : float;
  Mean : float;
  Median : float;
  Min : float;
  Max : float;
  StdDev : float;
  Sum : float;
  SumSquares : float;
  Values : list float;
  Percentiles : types.Percentiles;
  Interval : time.Duration;
  Timestamp : time.Time
}.
(** [types.Timer{Interval: interval}]. *)
Definition ofInterval (interval : time.Duration) : t :=
  mk 0 0%float 0%float 0%float 0%float 0%float 0%float 0%float 0%float
     [] [] interval time.zeroTime.
Definition withValues (x : t) (vs : list float) : t :=
  mk (Count x) (PerSecond x) (Mean x) (Median x) (Min x) (Max x)
     (StdDev x) (Sum x) (SumSquares x) vs (Percentiles x)
     (Interval x) (Timestamp x).
End Timer.

(** Modelled from the spec: [types.Set]; [Values] counts the occurrences
    of each string.  Every set the aggregator builds carries a map made
    with [make], never a nil map. *)
Module Set_.
Record t : Type := mk {
  Values : gmap string Z;
  Interval : time.Duration;
  Timestamp : time.Time
}.
(** [types.Set{Interval: interval, Values: make(map[string]int64)}]. *)
Definition ofInterval (interval : time.Duration) : t :=
  mk ∅ interval time.zeroTime.
Definition withValues (s : t) (vs : gmap string Z) : t :=
  mk vs (Interval s) (Timestamp s).
End Set_.

Abbreviation Counters := (gmap string (gmap string Counter.t)).
Abbreviation Timers := (gmap string (gmap string Timer.t)).
Abbreviation Gauges := (gmap string (gmap string Gauge.t)).
Abbreviation Sets := (gmap string (gmap string Set_.t)).

(** Modelled from the spec: the constructors stamp a new record with the
    instant and the flush interval they are given. *)
Definition NewCounter (timestamp : time.Time) (flushInterval : time.Duration)
  (value : Z) : Counter.t :=
  Counter.mk value 0%float flushInterval timestamp.

Definition NewGauge (timestamp : time.Time) (flushInterval : time.Duration)
  (value : float) : Gauge.t :=
  Gauge.mk value flushInterval timestamp.

Definition NewTimer (timestamp : time.Time) (flushInterval : time.Duration)
  (values : list float) : Timer.t :=
  Timer.withValues
    (Timer.mk 0 0%float 0%float 0%float 0%float 0%float 0%float 0%float
       0%float [] [] flushInterval timestamp) values.

Definition NewSet (timestamp : time.Time) (flushInterval : time.Duration)
  (values : gmap string Z) : Set_.t :=
  Set_.mk values flushInterval timestamp.

(** The entries [(key, tagsKey, record)] of a two-level map, name by
    name. *)
Definition entries {V : Type} (m : gmap string (gmap string V))
  : list (string * string * V) :=
  '(key, value) ← map_to_list m;
  '(tagsKey, v) ← map_to_list value;
  [(key, tagsKey, v)].

(** Modelled from the spec: [EachCounter], [EachTimer], [EachGauge] and
    [EachSet] walk every (name, tag key) of a kind map and call [f] on
    it.  The callbacks of the aggregator write the variables they
    capture; here that state [S] is passed through the calls.  Each
    callback touches no entry but the one it is called on, so the
    records handed to it are those present when the walk starts. *)
Definition Each {V S : Type} (m : gmap string (gmap string V))
  (f : string → string → V → S → Result S) (s : S) : Result S :=
  foldM (λ '(key, tagsKey, v), f key tagsKey v) (entries m) s.

Definition EachCounter {S : Type} := @Each Counter.t S.
Definition EachTimer {S : Type} := @Each Timer.t S.
Definition EachGauge {S : Type} := @Each Gauge.t S.
Definition EachSet {S : Type} := @Each Set_.t S.

(** Modelled from the spec: the copy helpers return independent deep
    copies; on immutable values a copy is the value itself. *)
Definition CopyCounters (c : Counters) : Counters := c.
Definition CopyTimers (c : Timers) : Timers := c.
Definition CopyGauges (c : Gauges) : Gauges := c.
Definition CopySets (c : Sets) : Sets := c.

(** Modelled from the spec: [types.MetricMap], the snapshot a flush hands
    out. *)
Module MetricMap.
Record t : Type := mk {
  NumStats : Z;
  ProcessingTime : time.Duration;
  FlushInterval : time.Duration;
  Counters : types.Counters;
  Timers : types.Timers;
  Gauges : types.Gauges;
  Sets : types.Sets
}.
End MetricMap.

End types.

(** ** Package statsd: the aggregator *)

Module statsd.

Import types.

(** Bookkeeping statistics about a [MetricAggregator]. *)
Module metricAggregatorStats.
Record t : Type := mk {
  BadLines : Z;
  LastMessage : time.Time;
  LastFlush : time.Time;
  LastFlushError : time.Time;
  NumStats : Z;
  ProcessingTime : time.Duration
}.
Definition zero : t :=
  mk 0 time.zeroTime time.zeroTime time.zeroTime 0 0.
Definition withLastMessage (s : t) (now : time.Time) : t :=
  mk (BadLines s) now (LastFlush s) (LastFlushError s) (NumStats s)
     (ProcessingTime s).
Definition withFlush (s : t) (badLines numStats : Z)
  (processingTime : time.Duration) : t :=
  mk badLines (LastMessage s) (LastFlush s) (LastFlushError s) numStats
     processingTime.
End metricAggregatorStats.

(** The aggregator.  The mutex, the metric queue and the senders belong to
    the concurrent shell and are left out; every operation below runs with
    the lock held from start to end.  The last seven fields are those of
    the embedded [types.MetricMap]; its [FlushInterval] is hidden by the
    aggregator's own field of that name and is never written. *)
Module MetricAggregator.
Record t : Type := mk {
  ExpiryInterval : time.Duration;
  FlushInterval : time.Duration;
  MaxWorkers : Z;
  PercentThresholds : list float;
  Stats : metricAggregatorStats.t;
  NumStats : Z;
  ProcessingTime : time.Duration;
  MetricMap_FlushInterval : time.Duration;
  Counters : types.Counters;
  Timers : types.Timers;
  Gauges : types.Gauges;
  Sets : types.Sets
}.
Definition withStats (a : t) (s : metricAggregatorStats.t) : t :=
  mk (ExpiryInterval a) (FlushInterval a) (MaxWorkers a)
     (PercentThresholds a) s (NumStats a) (ProcessingTime a)
     (MetricMap_FlushInterval a) (Counters a) (Timers a) (Gauges a) (Sets a).
Definition withNumStats (a : t) (n : Z) : t :=
  mk (ExpiryInterval a) (FlushInterval a) (MaxWorkers a)
     (PercentThresholds a) (Stats a) n (ProcessingTime a)
     (MetricMap_FlushInterval a) (Counters a) (Timers a) (Gauges a) (Sets a).
Definition withCounters (a : t) (c : types.Counters) : t :=
  mk (ExpiryInterval a) (FlushInterval a) (MaxWorkers a)
     (PercentThresholds a) (Stats a) (NumStats a) (ProcessingTime a)
     (MetricMap_FlushInterval a) c (Timers a) (Gauges a) (Sets a).
Definition withTimers (a : t) (c : types.Timers) : t :=
  mk (ExpiryInterval a) (FlushInterval a) (MaxWorkers a)
     (PercentThresholds a) (Stats a) (NumStats a) (ProcessingTime a)
     (MetricMap_FlushInterval a) (Counters a) c (Gauges a) (Sets a).
Definition withGauges (a : t) (c : types.Gauges) : t :=
  mk (ExpiryInterval a) (FlushInterval a) (MaxWorkers a)
     (PercentThresholds a) (Stats a) (NumStats a) (ProcessingTime a)
     (MetricMap_FlushInterval a) (Counters a) (Timers a) c (Sets a).
Definition withSets (a : t) (c : types.Sets) : t :=
  mk (ExpiryInterval a) (FlushInterval a) (MaxWorkers a)
     (PercentThresholds a) (Stats a) (NumStats a) (ProcessingTime a)
     (MetricMap_FlushInterval a) (Counters a) (Timers a) (Gauges a) c.
End MetricAggregator.

Import MetricAggregator.

(** [NewMetricAggregator]. *)
Definition NewMetricAggregator (percentThresholds : list float)
  (flushInterval expiryInterval : time.Duration) (maxWorkers : Z)
  : MetricAggregator.t :=
  MetricAggregator.mk expiryInterval flushInterval maxWorkers
    percentThresholds metricAggregatorStats.zero 0 0 0 ∅ ∅ ∅ ∅.

(** [round]: the nearest integer value, [math.Floor (v + 0.5)]. *)
Definition round (v : float) : float := math.Floor (v + 0.5)%float.

(** [s[i]]: an index outside [0, len s) panics. *)
Definition index (s : list float) (i : Z) : Result float :=
  match (if 0 <=? i then s !! Z.to_nat i else None) with
  | Some x => Ok x
  | None => Panic (IndexOutOfRange i (Z.of_nat (length s)))
  end.

(** [m[key][tagsKey] = v]: the inner map is read from [m]; writing into
    the nil map of an absent key panics. *)
Definition assign {V : Type} (m : gmap string (gmap string V))
  (key tagsKey : string) (v : V) : Result (gmap string (gmap string V)) :=
  match m !! key with
  | Some inner => Ok (<[key := <[tagsKey := v]> inner]> m)
  | None => Panic NilMapAssignment
  end.

(** [delete(m[key], tagsKey); if len(m[key]) == 0 { delete(m, key) }]. *)
Definition remove {V : Type} (m : gmap string (gmap string V))
  (key tagsKey : string) : gmap string (gmap string V) :=
  let m := match m !! key with
           | Some inner => <[key := delete tagsKey inner]> m
           | None => m
           end in
  if decide (size (default ∅ (m !! key)) = 0%nat) then delete key m else m.

(** The running sums built at lines 91-97 of the flush: the element for
    index [i] is [f values[i] + previous]. *)
Fixpoint cumulate (f : float → float) (prev : float) (values : list float)
  : list float :=
  match values with
  | [] => []
  | v :: values' =>
      let c := (f v + prev)%float in
      c :: cumulate f c values'
  end.

(** The variables the percentile loop carries from one threshold to the
    next. *)
Record thresholdVars : Type := mkThresholdVars {
  sumSquares : float;
  mean : float;
  sum : float;
  thresholdBoundary : float;
  percentiles : Percentiles
}.

Definition numInThresholdOf (pct count : float) : Z :=
  float64.to_int (round (math.Abs pct / 100 * count)%float).

(** The body of [for _, pct := range a.PercentThresholds]. *)
Definition thresholdBody (values cumulativeValues cumulSumSquaresValues
  : list float) (Count : Z) (count : float) (pct : float)
  (st : thresholdVars) : Result thresholdVars :=
  let emit (numInThreshold : Z) (st : thresholdVars) : thresholdVars :=
    let sPct := pretty (float64.to_int pct) in
    let p := percentiles st in
    let p := Percentiles_Set p ("count_" +:+ sPct)
               (float64.of_int numInThreshold) in
    let p := Percentiles_Set p ("mean_" +:+ sPct) (mean st) in
    let p := Percentiles_Set p ("sum_" +:+ sPct) (sum st) in
    let p := Percentiles_Set p ("sum_squares_" +:+ sPct) (sumSquares st) in
    let p := if (0 <? pct)%float
             then Percentiles_Set p ("upper_" +:+ sPct) (thresholdBoundary st)
             else Percentiles_Set p ("lower_" +:+ sPct) (thresholdBoundary st)
    in
    mkThresholdVars (sumSquares st) (mean st) (sum st) (thresholdBoundary st) p
  in
  if 1 <? Count then
    let numInThreshold := numInThresholdOf pct count in
    if numInThreshold =? 0 then Ok st
    else
      '(boundary, sum, sumSquares) ←
        (if (0 <? pct)%float then
           b ← index values (wrap64 (numInThreshold - 1));
           s ← index cumulativeValues (wrap64 (numInThreshold - 1));
           q ← index cumulSumSquaresValues (wrap64 (numInThreshold - 1));
           Ok (b, s, q)
         else
           b ← index values (wrap64 (Count - numInThreshold));
           s1 ← index cumulativeValues (wrap64 (Count - 1));
           s0 ← index cumulativeValues
                  (wrap64 (wrap64 (Count - numInThreshold) - 1));
           q1 ← index cumulSumSquaresValues (wrap64 (Count - 1));
           q0 ← index cumulSumSquaresValues
                  (wrap64 (wrap64 (Count - numInThreshold) - 1));
           Ok (b, (s1 - s0)%float, (q1 - q0)%float));
      let mean := (sum / float64.of_int numInThreshold)%float in
      Ok (emit numInThreshold
            (mkThresholdVars sumSquares mean sum boundary (percentiles st)))
  else Ok (emit Count st).

(** The finalization of one timer with at least one sample (lines 85-155):
    the timer as it is stored back. *)
Definition finalizeTimer {sorter : sort.Sorter}
  (a : MetricAggregator.t) (timer : Timer.t)
  : Result Timer.t :=
  let values := sort.Float64s (Timer.Values timer) in
  let Count := Z.of_nat (length values) in
  tMin ← index values 0;
  tMax ← index values (Count - 1);
  let count := float64.of_int Count in
  let cumulativeValues := tMin :: cumulate id tMin (tail values) in
  let cumulSumSquaresValues :=
    (tMin * tMin)%float
      :: cumulate (λ v, (v * v)%float) (tMin * tMin)%float (tail values) in
  st ← foldM (thresholdBody values cumulativeValues cumulSumSquaresValues
                Count count)
        (PercentThresholds a)
        (mkThresholdVars (tMin * tMin)%float tMin tMin tMax
           (Timer.Percentiles timer));
  sum ← index cumulativeValues (Count - 1);
  sumSquares ← index cumulSumSquaresValues (Count - 1);
  let mean := (sum / count)%float in
  let sumOfDiffs :=
    foldl (λ acc v, (acc + (v - mean) * (v - mean))%float) 0%float values in
  let mid := float64.to_int (math.Floor (count / 2)%float) in
  median ←
    (if (math.Mod count 2 =? 0)%float then
       lo ← index values (wrap64 (mid - 1));
       hi ← index values mid;
       Ok ((lo + hi) / 2)%float
     else index values mid);
  Ok (Timer.mk Count
        (count / time.Seconds (FlushInterval a))%float
        mean median tMin tMax
        (math.Sqrt (sumOfDiffs / count)%float)
        sum sumSquares values (percentiles st)
        (Timer.Interval timer) (Timer.Timestamp timer)).

(** [numStats += len(m)] over the names of a kind map. *)
Definition addLens {V : Type} (m : gmap string (gmap string V)) (numStats : Z)
  : Z :=
  foldl (λ n '(_, inner), wrap64 (n + Z.of_nat (size inner))) numStats
    (map_to_list m).

(** The closure [flush] passes to [EachCounter] (lines 72-77); the state
    it writes is the counter map and [numStats]. *)
Definition flushCounterEntry (a : MetricAggregator.t)
  (key tagsKey : string) (counter : Counter.t)
  (st : types.Counters * Z) : Result (types.Counters * Z) :=
  let '(counters, numStats) := st in
  let perSecond :=
    (float64.of_int (Counter.Value counter)
       / time.Seconds (FlushInterval a))%float in
  let counter := Counter.withPerSecond counter perSecond in
  counters ← assign counters key tagsKey counter;
  Ok (counters, wrap64 (numStats + 2)).

(** The closure [flush] passes to [EachTimer] (lines 83-163).  On a timer
    without samples it writes its own copy of the record only. *)
Definition flushTimerEntry {sorter : sort.Sorter} (a : MetricAggregator.t)
  (key tagsKey : string) (timer : Timer.t)
  (st : types.Timers * Z) : Result (types.Timers * Z) :=
  let '(timers, numStats) := st in
  if 0 <? Z.of_nat (length (Timer.Values timer)) then
    timer ← finalizeTimer a timer;
    timers ← assign timers key tagsKey timer;
    Ok (timers,
        wrap64 (numStats
                + wrap64 (9 + Z.of_nat (length (Timer.Percentiles timer)))))
  else Ok (timers, numStats).

(** [flush] prepares the contents of the aggregator for the senders: it
    returns the aggregator as the flush leaves it and the snapshot handed
    out.  [startTime] and [endTime] are the two readings of the wall
    clock. *)
Definition flush {sorter : sort.Sorter}
  (a : MetricAggregator.t) (startTime endTime : time.Time)
  : Result (MetricAggregator.t * MetricMap.t) :=
  let numStats := 0 in
  '(counters, numStats) ←
    EachCounter (Counters a) (flushCounterEntry a) (Counters a, numStats);
  let numStats := addLens (Gauges a) numStats in
  '(timers, numStats) ←
    EachTimer (Timers a) (flushTimerEntry a) (Timers a, numStats);
  let numStats := addLens (Sets a) numStats in
  let processingTime := time.Sub endTime startTime in
  let badLines :=
    match counters !! "statsd.bad_lines_seen" ≫= (.!! "") with
    | Some badLines =>
        wrap64 (metricAggregatorStats.BadLines (Stats a)
                + Counter.Value badLines)
    | None => metricAggregatorStats.BadLines (Stats a)
    end in
  let stats :=
    metricAggregatorStats.withFlush (Stats a) badLines numStats
      processingTime in
  let a := withTimers (withCounters (withStats a stats) counters) timers in
  Ok (a,
      MetricMap.mk numStats processingTime (FlushInterval a)
        (CopyCounters (Counters a)) (CopyTimers (Timers a))
        (CopyGauges (Gauges a)) (CopySets (Sets a))).

Definition isExpired (a : MetricAggregator.t) (now ts : time.Time) : bool :=
  negb (ExpiryInterval a =? 0) && (ExpiryInterval a <? time.Sub now ts).

(** The callback [Reset] runs on every entry of a kind map: an expired
    series is removed, any other is replaced by [fresh] of its record
    ([None]: left as it is). *)
Definition resetEntry {V : Type} (a : MetricAggregator.t) (now : time.Time)
  (timestamp : V → time.Time) (fresh : V → option V)
  (key tagsKey : string) (v : V) (m : gmap string (gmap string V))
  : Result (gmap string (gmap string V)) :=
  if isExpired a now (timestamp v) then Ok (remove m key tagsKey)
  else
    match fresh v with
    | Some v' => assign m key tagsKey v'
    | None => Ok m
    end.

(** [Reset] clears the contents of the aggregator. *)
Definition Reset (a : MetricAggregator.t) (now : time.Time)
  : Result MetricAggregator.t :=
  let a := withNumStats a 0 in
  counters ←
    EachCounter (Counters a)
      (resetEntry a now Counter.Timestamp
         (λ counter,
            let interval := Counter.Interval counter in
            Some (Counter.ofInterval interval)))
      (Counters a);
  let a := withCounters a counters in
  timers ←
    EachTimer (Timers a)
      (resetEntry a now Timer.Timestamp
         (λ timer,
            let interval := Timer.Interval timer in
            Some (Timer.ofInterval interval)))
      (Timers a);
  let a := withTimers a timers in
  sets ←
    EachSet (Sets a)
      (resetEntry a now Set_.Timestamp
         (λ set,
            let interval := Set_.Interval set in
            Some (Set_.ofInterval interval)))
      (Sets a);
  let a := withSets a sets in
  gauges ←
    EachGauge (Gauges a)
      (resetEntry a now Gauge.Timestamp (λ _, None))
      (Gauges a);
  Ok (withGauges a gauges).

(** [receiveMetric] is called for each incoming metric; [now] is the
    instant the caller passes and [wallClock] the reading of [time.Now()]
    at the end of the call. *)
Definition receiveMetric (a : MetricAggregator.t) (m : Metric.t)
  (now wallClock : time.Time) : MetricAggregator.t :=
  let tagsKey := Tags_String (Metric.Tags m) in
  let name := Metric.Name m in
  let a :=
    match Metric.Type_ m with
    | COUNTER =>
        match Counters a !! name with
        | Some v =>
            match v !! tagsKey with
            | Some c =>
                let c :=
                  Counter.withValue c
                    (wrap64 (Counter.Value c
                             + float64.to_int (Metric.Value m))) in
                withCounters a (<[name := <[tagsKey := c]> v]> (Counters a))
            | None =>
                withCounters a
                  (<[name :=
                       <[tagsKey :=
                           NewCounter now (FlushInterval a)
                             (float64.to_int (Metric.Value m))]> v]>
                     (Counters a))
            end
        | None =>
            withCounters a
              (<[name :=
                   <[tagsKey :=
                       NewCounter now (FlushInterval a)
                         (float64.to_int (Metric.Value m))]> ∅]>
                 (Counters a))
        end
    | GAUGE =>
        match Gauges a !! name with
        | Some v =>
            match v !! tagsKey with
            | Some g =>
                let g := Gauge.withValue g (Metric.Value m) in
                withGauges a (<[name := <[tagsKey := g]> v]> (Gauges a))
            | None =>
                withGauges a
                  (<[name :=
                       <[tagsKey :=
                           NewGauge now (FlushInterval a) (Metric.Value m)]>
                         v]> (Gauges a))
            end
        | None =>
            withGauges a
              (<[name :=
                   <[tagsKey :=
                       NewGauge now (FlushInterval a) (Metric.Value m)]> ∅]>
                 (Gauges a))
        end
    | TIMER =>
        match Timers a !! name with
        | Some v =>
            match v !! tagsKey with
            | Some t =>
                let t :=
                  Timer.withValues t (Timer.Values t ++ [Metric.Value m]) in
                withTimers a (<[name := <[tagsKey := t]> v]> (Timers a))
            | None =>
                withTimers a
                  (<[name :=
                       <[tagsKey :=
                           NewTimer now (FlushInterval a) [Metric.Value m]]>
                         v]> (Timers a))
            end
        | None =>
            withTimers a
              (<[name :=
                   <[tagsKey :=
                       NewTimer now (FlushInterval a) [Metric.Value m]]> ∅]>
                 (Timers a))
        end
    | SET =>
        match Sets a !! name with
        | Some v =>
            match v !! tagsKey with
            | Some s =>
                let values :=
                  match Set_.Values s !! Metric.StringValue m with
                  | Some n =>
                      <[Metric.StringValue m := wrap64 (n + 1)]>
                        (Set_.Values s)
                  | None => <[Metric.StringValue m := 1]> (Set_.Values s)
                  end in
                let s := Set_.withValues s values in
                withSets a (<[name := <[tagsKey := s]> v]> (Sets a))
            | None =>
                let unique : gmap string Z :=
                  <[Metric.StringValue m := 1]> ∅ in
                withSets a
                  (<[name :=
                       <[tagsKey := NewSet now (FlushInterval a) unique]>
                         v]> (Sets a))
            end
        | None =>
            let unique : gmap string Z := <[Metric.StringValue m := 1]> ∅ in
            withSets a
              (<[name :=
                   <[tagsKey := NewSet now (FlushInterval a) unique]> ∅]>
                 (Sets a))
        end
    | OTHER _ => a
    end in
  withStats a
    (metricAggregatorStats.withLastMessage (Stats a) wallClock).

End statsd.


Import types statsd MetricAggregator.

(** ** Notions the statements use *)

(** The record of the series [(key, tagsKey)] in a kind map. *)
Definition series {V : Type} (m : gmap string (gmap string V))
  (key tagsKey : string) : option V :=
  m !! key ≫= (.!! tagsKey).

Definition square (v : float) : float := (v * v)%float.

(** A callback of a walk changes no series but its own, which it maps by
    [upd] ([None]: the series is removed). *)
Definition pointwise {V S : Type} (proj : S → gmap string (gmap string V))
  (upd : string → string → V → option V)
  (f : string → string → V → S → Result S) : Prop :=
  ∀ key tags v s s',
    series (proj s) key tags = Some v →
    f key tags v s = Ok s' →
    ∀ k t, series (proj s') k t
           = if decide (k = key ∧ t = tags) then upd key tags v
             else series (proj s) k t.

(** A callback of a walk does not panic on a series that is present and
    satisfies [P]. *)
Definition panicFree {V S : Type} (proj : S → gmap string (gmap string V))
  (f : string → string → V → S → Result S)
  (P : string → string → V → Prop) : Prop :=
  ∀ key tags v s,
    P key tags v →
    series (proj s) key tags = Some v → ∃ s', f key tags v s = Ok s'.

(** What [Reset] does to one record: [None] when the series is evicted. *)
Definition resetOf {V : Type} (a : MetricAggregator.t) (now : time.Time)
  (timestamp : V → time.Time) (fresh : V → option V) (v : V) : option V :=
  if isExpired a now (timestamp v) then None else Some (default v (fresh v)).

(** What [flush] does to one counter and to one timer. *)
Definition flushCounter (a : MetricAggregator.t) (c : Counter.t) : Counter.t :=
  Counter.withPerSecond c
    (float64.of_int (Counter.Value c) / time.Seconds (FlushInterval a))%float.

Definition flushTimer {sorter : sort.Sorter}
  (a : MetricAggregator.t) (x : Timer.t) : Timer.t :=
  if 0 <? Z.of_nat (length (Timer.Values x)) then
    match finalizeTimer a x with
    | Ok x' => x'
    | Panic _ => x
    end
  else x.

(** Every timer of the aggregator that has samples is finalized without
    panic. *)
Definition timersFinalize {sorter : sort.Sorter}
  (a : MetricAggregator.t) : Prop :=
  ∀ k t x, series (Timers a) k t = Some x →
    Timer.Values x ≠ [] → ∃ x', finalizeTimer a x = Ok x'.

(** Whether a fold of [m] goes to the series [(k, t)] of kind [kind]. *)
Definition foldsInto (m : Metric.t) (kind : MetricType) (k t : string) : Prop :=
  Metric.Type_ m = kind ∧ k = Metric.Name m ∧ t = Tags_String (Metric.Tags m).

#[global] Instance foldsInto_dec m kind k t : Decision (foldsInto m kind k t).
Proof. unfold foldsInto. apply _. Defined.

(** What a fold of [m] at [now] makes of the record of each kind
    ([None]: the series is created). *)
Definition foldCounter (a : MetricAggregator.t) (m : Metric.t)
  (now : time.Time) (o : option Counter.t) : Counter.t :=
  match o with
  | Some c =>
      Counter.withValue c
        (wrap64 (Counter.Value c + float64.to_int (Metric.Value m)))
  | None => NewCounter now (FlushInterval a) (float64.to_int (Metric.Value m))
  end.

Definition foldGauge (a : MetricAggregator.t) (m : Metric.t)
  (now : time.Time) (o : option Gauge.t) : Gauge.t :=
  match o with
  | Some g => Gauge.withValue g (Metric.Value m)
  | None => NewGauge now (FlushInterval a) (Metric.Value m)
  end.

Definition foldTimer (a : MetricAggregator.t) (m : Metric.t)
  (now : time.Time) (o : option Timer.t) : Timer.t :=
  match o with
  | Some x => Timer.withValues x (Timer.Values x ++ [Metric.Value m])
  | None => NewTimer now (FlushInterval a) [Metric.Value m]
  end.

Definition foldSet (a : MetricAggregator.t) (m : Metric.t)
  (now : time.Time) (o : option Set_.t) : Set_.t :=
  match o with
  | Some s =>
      Set_.withValues s
        (match Set_.Values s !! Metric.StringValue m with
         | Some n => <[Metric.StringValue m := wrap64 (n + 1)]> (Set_.Values s)
         | None => <[Metric.StringValue m := 1]> (Set_.Values s)
         end)
  | None => NewSet now (FlushInterval a) (<[Metric.StringValue m := 1]> ∅)
  end.

(** The timestamp of the series [(k, t)] of kind [kind]. *)
Definition timestampOf (a : MetricAggregator.t) (kind : MetricType)
  (k t : string) : option time.Time :=
  match kind with
  | COUNTER => Counter.Timestamp <$> series (Counters a) k t
  | TIMER => Timer.Timestamp <$> series (Timers a) k t
  | GAUGE => Gauge.Timestamp <$> series (Gauges a) k t
  | SET => Set_.Timestamp <$> series (Sets a) k t
  | OTHER _ => None
  end.

Definition isKind (kind : MetricType) : bool :=
  match kind with
  | OTHER _ => false
  | _ => true
  end.

(** A fold as the ingest workers perform it: the metric, the instant
    passed as [now] and the wall clock at the end of the call. *)
Definition Fold : Type := Metric.t * time.Time * time.Time.

(** The aggregator after a sequence of folds. *)
Definition receiveAll (a : MetricAggregator.t) (folds : list Fold)
  : MetricAggregator.t :=
  foldl (λ a '(m, now, wallClock), receiveMetric a m now wallClock) a folds.

(** The instant [now] of the first fold into the series [(k, t)] of kind
    [kind]. *)
Fixpoint firstFold (kind : MetricType) (k t : string) (folds : list Fold)
  : option time.Time :=
  match folds with
  | [] => None
  | (m, now, _) :: folds' =>
      if decide (foldsInto m kind k t) then Some now
      else firstFold kind k t folds'
  end.

(** The int64 increments the folds bring to the counter [(k, t)]. *)
Fixpoint increments (k t : string) (folds : list Fold) : list Z :=
  match folds with
  | [] => []
  | (m, _, _) :: folds' =>
      if decide (foldsInto m COUNTER k t)
      then float64.to_int (Metric.Value m) :: increments k t folds'
      else increments k t folds'
  end.

Definition sumZ (l : list Z) : Z := foldr Z.add 0 l.

(** Two kind maps hold the same series: the same (name, tag key) pairs. *)
Definition sameSeries {V : Type} (m m' : gmap string (gmap string V)) : Prop :=
  ∀ k t, is_Some (series m' k t) ↔ is_Some (series m k t).

(** The aggregator of the expiry scenario: two counters created at instant
    [t0], the first one folded again a second later. *)
Definition expiryScenario (percentThresholds : list float)
  (flushInterval expiryInterval : time.Duration) (maxWorkers : Z)
  (m1 m2 m1' : Metric.t) (t0 w1 w2 w3 : time.Time) : MetricAggregator.t :=
  receiveMetric
    (receiveMetric
       (receiveMetric
          (NewMetricAggregator percentThresholds flushInterval expiryInterval
             maxWorkers) m1 t0 w1)
       m2 t0 w2)
    m1' (t0 + time.Second) w3.

(** The samples of the timer scenario of the spec. *)
Definition fiveSamples : list float := [1; 2; 3; 4; 5]%float.

(** The float64 sum of a list, added up in the order of the list from its
    first element, as the running sums of the flush build it. *)
Definition floatSum (vs : list float) : float :=
  match vs with
  | [] => 0%float
  | v :: rest => foldl (λ acc w, (w + acc)%float) v rest
  end.

(** The float64 sum of the squared distances to [mean]. *)
Definition sumOfSquaredDiffs (mean : float) (vs : list float) : float :=
  foldl (λ acc v, (acc + (v - mean) * (v - mean))%float) 0%float vs.

(** A threshold whose index arithmetic stays inside a timer of [Count]
    samples: it is skipped ([n] is 0), or it is an upper threshold with
    [1 ≤ n ≤ Count], or a lower threshold with [1 ≤ n < Count]. *)
Definition thresholdInRange (Count : Z) (pct : float) : bool :=
  if 1 <? Count then
    let n := numInThresholdOf pct (float64.of_int Count) in
    (n =? 0)
    || (if (0 <? pct)%float then (1 <=? n) && (n <=? Count)
        else (1 <=? n) && (n <? Count))
  else true.

(** Halving the sample count in float64 is exact: the index [mid] and the
    parity test of the median are those of the integer count. *)
Definition halvingExact (n : Z) : bool :=
  let count := float64.of_int n in
  (float64.to_int (math.Floor (count / 2)%float) =? n / 2)
  && Bool.eqb (math.Mod count 2 =? 0)%float (Z.even n).

(** The mantissa of the float64 nearest to the integer [p] below 2 ^ 53:
    [p] shifted left until it has 53 binary digits. *)
Definition normalized (p : positive) : positive :=
  match (53 - Z.pos (digits2_pos p))%Z with
  | Z.pos k => Pos.iter xO p k
  | _ => p
  end.

(** ** The operations as the lock orders them

    [receiveMetric], [flush], [Reset] and the handling of a sender's result
    hold the lock of the aggregator from start to end, so whatever the
    workers and the flush timer do, the aggregator goes through a sequence
    of these operations. *)

(** One tick of [Aggregate] (lines 345-346): the flush, then the reset at
    the wall clock [now]; the snapshot goes to the senders.  Each of the two
    calls takes the lock for itself, so between them the workers may fold:
    [gap] is the folds they get in there, in the order the lock serves
    them. *)
Definition tick {sorter : sort.Sorter} (a : MetricAggregator.t)
  (startTime endTime : time.Time) (gap : list Fold) (now : time.Time)
  : Result (MetricAggregator.t * MetricMap.t) :=
  '(a, flushed) ← flush a startTime endTime;
  let a := receiveAll a gap in
  a ← Reset a now;
  Ok (a, flushed).

(** Two aggregators agree on what a reset reads: the expiry and flush
    intervals, the interval and the timestamp of every counter and timer,
    and every gauge and set. *)
Definition agreeForReset (a b : MetricAggregator.t) : Prop :=
  ExpiryInterval b = ExpiryInterval a
  ∧ FlushInterval b = FlushInterval a
  ∧ ∀ k t,
      (λ c, (Counter.Interval c, Counter.Timestamp c))
        <$> series (Counters b) k t
      = (λ c, (Counter.Interval c, Counter.Timestamp c))
          <$> series (Counters a) k t
      ∧ (λ x, (Timer.Interval x, Timer.Timestamp x))
          <$> series (Timers b) k t
        = (λ x, (Timer.Interval x, Timer.Timestamp x))
            <$> series (Timers a) k t
      ∧ series (Gauges b) k t = series (Gauges a) k t
      ∧ series (Sets b) k t = series (Sets a) k t.

(** The handling of the result of a sender in [Aggregate] (lines 355-363):
    under the lock, the instant [now] of the wall clock is stored as the
    last flush error when the sender [failed], as the last flush
    otherwise. *)
Definition recordFlushResult (a : MetricAggregator.t) (failed : bool)
  (now : time.Time) : MetricAggregator.t :=
  let s := Stats a in
  withStats a
    (if failed then
       metricAggregatorStats.mk
         (metricAggregatorStats.BadLines s)
         (metricAggregatorStats.LastMessage s)
         (metricAggregatorStats.LastFlush s) now
         (metricAggregatorStats.NumStats s)
         (metricAggregatorStats.ProcessingTime s)
     else
       metricAggregatorStats.mk
         (metricAggregatorStats.BadLines s)
         (metricAggregatorStats.LastMessage s) now
         (metricAggregatorStats.LastFlushError s)
         (metricAggregatorStats.NumStats s)
         (metricAggregatorStats.ProcessingTime s)).

Inductive Operation : Type :=
  | OpReceive (m : Metric.t) (now wallClock : time.Time)
  | OpFlush (startTime endTime : time.Time)
  | OpReset (now : time.Time)
  | OpFlushResult (failed : bool) (now : time.Time).

Definition perform {sorter : sort.Sorter}
  (op : Operation) (a : MetricAggregator.t)
  : Result MetricAggregator.t :=
  match op with
  | OpReceive m now wallClock => Ok (receiveMetric a m now wallClock)
  | OpFlush startTime endTime =>
      '(a, _) ← flush a startTime endTime; Ok a
  | OpReset now => Reset a now
  | OpFlushResult failed now => Ok (recordFlushResult a failed now)
  end.

(** The aggregator after a sequence of operations; a panic of a flush ends
    the run. *)
Definition performAll {sorter : sort.Sorter}
  (ops : list Operation) (a : MetricAggregator.t)
  : Result MetricAggregator.t :=
  foldM perform ops a.

(** What one operation makes of the timestamp of the series [(k, t)] of
    kind [kind] ([None]: there is no such series), in an aggregator with
    the expiry interval of [a0].  A fold creates the series with its [now]
    and leaves the timestamp of a series that exists.  A reset removes a
    series that is expired; in a counter, timer or set that survives it
    puts a fresh record, whose timestamp is the zero instant, and it leaves
    a gauge as it is.  A flush and the result of a sender leave the
    timestamp. *)
Definition stampAfter (a0 : MetricAggregator.t) (kind : MetricType)
  (k t : string) (o : option time.Time) (op : Operation) : option time.Time :=
  match op with
  | OpReceive m now _ =>
      match o with
      | Some ts => Some ts
      | None => if decide (foldsInto m kind k t) then Some now else None
      end
  | OpReset now =>
      ts ← o;
      if isExpired a0 now ts then None
      else Some (match kind with
                 | GAUGE => ts
                 | _ => time.zeroTime
                 end)
  | OpFlush _ _ => o
  | OpFlushResult _ _ => o
  end.

(** No name of a kind map is bound to an empty inner map. *)
Definition noEmptyName {V : Type} (m : gmap string (gmap string V)) : Prop :=
  ∀ key inner, m !! key = Some inner → inner ≠ ∅.

(** Every record of the aggregator carries the flush interval of the
    aggregator. *)
Definition intervalsAreFlushInterval (a : MetricAggregator.t) : Prop :=
  (∀ k t c, series (Counters a) k t = Some c →
     Counter.Interval c = FlushInterval a)
  ∧ (∀ k t x, series (Timers a) k t = Some x →
       Timer.Interval x = FlushInterval a)
  ∧ (∀ k t g, series (Gauges a) k t = Some g →
       Gauge.Interval g = FlushInterval a)
  ∧ (∀ k t s, series (Sets a) k t = Some s →
       Set_.Interval s = FlushInterval a).

(** The value of the last gauge fold into the series [(k, t)]. *)
Fixpoint lastGauge (k t : string) (folds : list Fold) : option float :=
  match folds with
  | [] => None
  | (m, _, _) :: folds' =>
      match lastGauge k t folds' with
      | Some v => Some v
      | None =>
          if decide (foldsInto m GAUGE k t) then Some (Metric.Value m)
          else None
      end
  end.

(** The samples the folds bring to the timer [(k, t)], in the order of the
    folds. *)
Fixpoint samples (k t : string) (folds : list Fold) : list float :=
  match folds with
  | [] => []
  | (m, _, _) :: folds' =>
      if decide (foldsInto m TIMER k t)
      then Metric.Value m :: samples k t folds'
      else samples k t folds'
  end.

(** The number of folds of the string [s] into the set [(k, t)]. *)
Fixpoint occurrences (k t s : string) (folds : list Fold) : nat :=
  match folds with
  | [] => O
  | (m, _, _) :: folds' =>
      if decide (foldsInto m SET k t ∧ Metric.StringValue m = s)
      then S (occurrences k t s folds')
      else occurrences k t s folds'
  end.

(** The occurrence counts of the set [(k, t)], empty when the series is
    absent. *)
Definition setValues (a : MetricAggregator.t) (k t : string) : gmap string Z :=
  default ∅ (Set_.Values <$> series (Sets a) k t).

(** The number of series of a kind map. *)
Definition seriesCount {V : Type} (m : gmap string (gmap string V)) : Z :=
  Z.of_nat (length (entries m)).

(** What one timer adds to [numStats] in a flush: nothing without
    samples, else 9 and the number of its percentile fields. *)
Definition timerStats {sorter : sort.Sorter}
  (a : MetricAggregator.t) (x : Timer.t) : Z :=
  if 0 <? Z.of_nat (length (Timer.Values x)) then
    9 + Z.of_nat (length (Timer.Percentiles (flushTimer a x)))
  else 0.

(** Every series of the four kinds present in [a] is present in [a']. *)
Definition seriesKept (a a' : MetricAggregator.t) : Prop :=
  ∀ k t,
    (is_Some (series (Counters a) k t) → is_Some (series (Counters a') k t))
    ∧ (is_Some (series (Timers a) k t) → is_Some (series (Timers a') k t))
    ∧ (is_Some (series (Gauges a) k t) → is_Some (series (Gauges a') k t))
    ∧ (is_Some (series (Sets a) k t) → is_Some (series (Sets a') k t)).

(** Two aggregators hold the same record in every series of the four
    kinds. *)
Definition sameRecords (a a' : MetricAggregator.t) : Prop :=
  ∀ k t,
    series (Counters a') k t = series (Counters a) k t
    ∧ series (Timers a') k t = series (Timers a) k t
    ∧ series (Gauges a') k t = series (Gauges a) k t
    ∧ series (Sets a') k t = series (Sets a) k t.

(** In none of the four kind maps is a name bound to an empty inner map. *)
Definition noNameWithoutSeries (a : MetricAggregator.t) : Prop :=
  noEmptyName (Counters a) ∧ noEmptyName (Timers a)
  ∧ noEmptyName (Gauges a) ∧ noEmptyName (Sets a).

(** The count a set holds for a string after one more fold of it: 1 for
    a string that is new, else the count plus one in int64. *)
Definition countOneMore (o : option Z) : option Z :=
  Some (match o with
        | Some n => wrap64 (n + 1)
        | None => 1
        end).

(** The number of statistics a flush of [a] counts: two for each counter,
    one for each gauge and each set, and [timerStats] for each timer. *)
Definition flushedStats {sorter : sort.Sorter} (a : MetricAggregator.t) : Z :=
  2 * seriesCount (Counters a)
  + seriesCount (Gauges a)
  + sumZ (map (λ e, timerStats a e.2) (entries (Timers a)))
  + seriesCount (Sets a).

(** Two metrics go to the same series: the same kind, name and tag key. *)
Definition sameTarget (m1 m2 : Metric.t) : Prop :=
  Metric.Type_ m1 = Metric.Type_ m2
  ∧ Metric.Name m1 = Metric.Name m2
  ∧ Tags_String (Metric.Tags m1) = Tags_String (Metric.Tags m2).

(** * Results *)

(** ** The [Result] monad and the walk over a kind map *)

Lemma bind_Ok {A B : Type} (r : Result A) (f : A → Result B) (b : B) :
  r ≫= f = Ok b → ∃ a, r = Ok a ∧ f a = Ok b.
Proof. destruct r as [a|e]; simpl; [eauto | discriminate]. Qed.

Lemma Ok_bind {A B : Type} (a : A) (f : A → Result B) : Ok a ≫= f = f a.
Proof. reflexivity. Qed.

Lemma series_entries {V : Type} (m : gmap string (gmap string V)) k t v :
  (k, t, v) ∈ entries m ↔ series m k t = Some v.
Proof.
  unfold entries, series. rewrite list_elem_of_bind. split.
  - intros [[k' inner] [Hin Hm]]. apply elem_of_map_to_list in Hm.
    apply list_elem_of_bind in Hin as [[t' v'] [Hin Hi]].
    apply elem_of_map_to_list in Hi.
    apply list_elem_of_singleton in Hin. simplify_eq. by rewrite Hm.
  - destruct (m !! k) as [inner|] eqn:Hm; simpl; [|done]. intros Hi.
    exists (k, inner). split; [|by apply elem_of_map_to_list].
    apply list_elem_of_bind. exists (t, v).
    split; [apply list_elem_of_singleton; done | by apply elem_of_map_to_list].
Qed.

Lemma NoDup_entries {V : Type} (m : gmap string (gmap string V)) :
  NoDup (entries m).
Proof.
  unfold entries. apply NoDup_bind; [| |apply NoDup_map_to_list].
  - intros [k1 i1] [k2 i2] [[k t] v] H1 H2 Hy1 Hy2.
    apply elem_of_map_to_list in H1, H2.
    apply list_elem_of_bind in Hy1 as [[t1 v1] [Hy1 _]].
    apply list_elem_of_bind in Hy2 as [[t2 v2] [Hy2 _]].
    apply list_elem_of_singleton in Hy1, Hy2. simplify_eq. done.
  - intros [k inner] _. apply NoDup_bind; [| |apply NoDup_map_to_list].
    + intros [t1 v1] [t2 v2] y _ _ Hy1 Hy2.
      apply list_elem_of_singleton in Hy1, Hy2. congruence.
    + intros [t v] _. apply NoDup_singleton.
Qed.

Lemma series_assign {V : Type} (m m' : gmap string (gmap string V))
  key tags v k t :
  assign m key tags v = Ok m' →
  series m' k t = if decide (k = key ∧ t = tags) then Some v else series m k t.
Proof.
  unfold assign, series. destruct (m !! key) as [inner|] eqn:Hm; [|done].
  intros [= <-]. destruct (decide (k = key)) as [->|Hk].
  - rewrite lookup_insert_eq, Hm. simpl.
    destruct (decide (t = tags)) as [->|Ht].
    + rewrite lookup_insert_eq. by rewrite decide_True.
    + rewrite lookup_insert_ne by done. rewrite decide_False; [done|tauto].
  - rewrite lookup_insert_ne by done. rewrite decide_False; [done|tauto].
Qed.

Lemma assign_present {V : Type} (m : gmap string (gmap string V))
  key tags v w :
  series m key tags = Some w → ∃ m', assign m key tags v = Ok m'.
Proof.
  unfold assign, series. destruct (m !! key); [eauto | discriminate].
Qed.

Lemma series_remove {V : Type} (m : gmap string (gmap string V))
  key tags k t :
  series (remove m key tags) k t
  = if decide (k = key ∧ t = tags) then None else series m k t.
Proof.
  unfold remove, series. destruct (m !! key) as [inner|] eqn:Hm.
  - rewrite lookup_insert_eq. simpl. case_decide as Hsz.
    + apply map_size_empty_iff in Hsz.
      destruct (decide (k = key)) as [->|Hk].
      * rewrite lookup_delete_eq. simpl. rewrite Hm. simpl.
        case_decide as Hd; [done|].
        assert (Ht : t ≠ tags) by tauto.
        rewrite <- (lookup_delete_ne inner tags t) by done.
        by rewrite Hsz, lookup_empty.
      * rewrite lookup_delete_ne, lookup_insert_ne by done.
        rewrite decide_False; [done|tauto].
    + destruct (decide (k = key)) as [->|Hk].
      * rewrite lookup_insert_eq, Hm. simpl.
        destruct (decide (t = tags)) as [->|Ht].
        -- rewrite lookup_delete_eq. by rewrite decide_True.
        -- rewrite lookup_delete_ne by done. rewrite decide_False; [done|tauto].
      * rewrite lookup_insert_ne by done. rewrite decide_False; [done|tauto].
  - rewrite Hm. simpl. rewrite decide_True by apply map_size_empty.
    destruct (decide (k = key)) as [->|Hk].
    + rewrite lookup_delete_eq, Hm. simpl. by case_decide.
    + rewrite lookup_delete_ne by done. rewrite decide_False; [done|tauto].
Qed.

Section walk.

Context {V S : Type}.
Context (proj : S → gmap string (gmap string V)).
Context (upd : string → string → V → option V).
Context (f : string → string → V → S → Result S).
Context (P : string → string → V → Prop).

#[local] Abbreviation pointwise := (pointwise proj upd f).
#[local] Abbreviation panicFree := (panicFree proj f P).

Lemma foldM_pointwise (m0 : gmap string (gmap string V)) l :
  pointwise →
  NoDup l →
  (∀ k t v, (k, t, v) ∈ l → series m0 k t = Some v) →
  ∀ s s',
    (∀ k t v, (k, t, v) ∈ l → series (proj s) k t = Some v) →
    foldM (λ '(key, tagsKey, v), f key tagsKey v) l s = Ok s' →
    (∀ k t v, (k, t, v) ∈ l → series (proj s') k t = upd k t v)
    ∧ (∀ k t, (∀ v, (k, t, v) ∉ l) → series (proj s') k t = series (proj s) k t).
Proof.
  intros Hpw. induction l as [|[[k0 t0] v0] l IH]; intros Hnd Hm0 s s' Hs Hf.
  - simpl in Hf. injection Hf as <-. split; [|done].
    intros k t v Hin. by apply elem_of_nil in Hin.
  - simpl in Hf. apply bind_Ok in Hf as (s1 & Hf1 & Hf).
    apply NoDup_cons in Hnd as [Hnotin Hnd].
    assert (Hfresh : ∀ v, (k0, t0, v) ∉ l).
    { intros v Hin. assert (v = v0) as ->; [|done].
      pose proof (Hm0 k0 t0 v (list_elem_of_further _ _ _ Hin)) as H1.
      pose proof (Hm0 k0 t0 v0 (list_elem_of_here _ _)) as H2. congruence. }
    pose proof (Hpw k0 t0 v0 s s1 (Hs _ _ _ (list_elem_of_here _ _)) Hf1) as Hs1.
    destruct (IH Hnd (λ k t v Hin, Hm0 k t v (list_elem_of_further _ _ _ Hin))
                s1 s') as [IH1 IH2]; [|done|].
    { intros k t v Hin. rewrite Hs1. rewrite decide_False.
      - apply Hs. by apply list_elem_of_further.
      - intros [-> ->]. by apply (Hfresh v). }
    split.
    + intros k t v [Heq|Hin]%elem_of_cons.
      * injection Heq as -> -> ->. rewrite IH2 by done. rewrite Hs1.
        by rewrite decide_True.
      * by apply IH1.
    + intros k t Hnot. rewrite IH2.
      * rewrite Hs1. rewrite decide_False; [done|].
        intros [-> ->]. apply (Hnot v0). apply list_elem_of_here.
      * intros v Hin. apply (Hnot v). by apply list_elem_of_further.
Qed.

Lemma foldM_panicFree (m0 : gmap string (gmap string V)) l :
  pointwise → panicFree →
  NoDup l →
  (∀ k t v, (k, t, v) ∈ l → series m0 k t = Some v) →
  (∀ k t v, (k, t, v) ∈ l → P k t v) →
  ∀ s,
    (∀ k t v, (k, t, v) ∈ l → series (proj s) k t = Some v) →
    ∃ s', foldM (λ '(key, tagsKey, v), f key tagsKey v) l s = Ok s'.
Proof.
  intros Hpw Hpf.
  induction l as [|[[k0 t0] v0] l IH]; intros Hnd Hm0 HP s Hs.
  - simpl. eauto.
  - simpl. destruct (Hpf k0 t0 v0 s (HP _ _ _ (list_elem_of_here _ _))
                       (Hs _ _ _ (list_elem_of_here _ _))) as [s1 Hf1].
    rewrite Hf1. simpl.
    apply NoDup_cons in Hnd as [Hnotin Hnd].
    apply IH; [done| | |].
    + intros k t v Hin. apply Hm0. by apply list_elem_of_further.
    + intros k t v Hin. apply HP. by apply list_elem_of_further.
    + intros k t v Hin.
      rewrite (Hpw k0 t0 v0 s s1 (Hs _ _ _ (list_elem_of_here _ _)) Hf1).
      rewrite decide_False; [apply Hs; by apply list_elem_of_further|].
      intros [-> ->]. assert (v = v0) as ->; [|done].
      pose proof (Hm0 k0 t0 v (list_elem_of_further _ _ _ Hin)) as H1.
      pose proof (Hm0 k0 t0 v0 (list_elem_of_here _ _)) as H2. congruence.
Qed.

(** After a walk with a pointwise callback, every series of the map is
    mapped by [upd] and no other series appears. *)
Lemma Each_series (m : gmap string (gmap string V)) s s' :
  pointwise →
  (∀ k t, series (proj s) k t = series m k t) →
  Each m f s = Ok s' →
  ∀ k t, series (proj s') k t = series m k t ≫= upd k t.
Proof.
  intros Hpw Hs Hf k t. unfold Each in Hf.
  destruct (foldM_pointwise m (entries m) Hpw (NoDup_entries m)
              (λ k t v, proj1 (series_entries m k t v)) s s') as [H1 H2];
    [|done|].
  { intros k' t' v' Hin. rewrite Hs. by apply series_entries. }
  destruct (series m k t) as [v|] eqn:Hm; simpl.
  - apply H1. by apply series_entries.
  - rewrite H2; [by rewrite Hs|].
    intros v Hin%series_entries. congruence.
Qed.

Lemma Each_panicFree (m : gmap string (gmap string V)) s :
  pointwise → panicFree →
  (∀ k t v, series m k t = Some v → P k t v) →
  (∀ k t, series (proj s) k t = series m k t) →
  ∃ s', Each m f s = Ok s'.
Proof.
  intros Hpw Hpf HP Hs. unfold Each.
  apply (foldM_panicFree m); [done|done|apply NoDup_entries| | |].
  - intros k t v. apply series_entries.
  - intros k t v Hin. apply HP. by apply series_entries.
  - intros k t v Hin. rewrite Hs. by apply series_entries.
Qed.

(** A walk that returns has run its callback without panic on every
    entry. *)
Lemma foldM_each_Ok l s s' :
  foldM (λ '(key, tagsKey, v), f key tagsKey v) l s = Ok s' →
  ∀ k t v, (k, t, v) ∈ l → ∃ s1 s2, f k t v s1 = Ok s2.
Proof.
  revert s. induction l as [|[[k0 t0] v0] l IH]; intros s Hf k t v Hin.
  - by apply elem_of_nil in Hin.
  - simpl in Hf. apply bind_Ok in Hf as (s1 & Hf1 & Hf).
    apply elem_of_cons in Hin as [Heq|Hin].
    + injection Heq as -> -> ->. eauto.
    + eapply IH; eauto.
Qed.

Lemma Each_each_Ok (m : gmap string (gmap string V)) s s' :
  Each m f s = Ok s' →
  ∀ k t v, series m k t = Some v → ∃ s1 s2, f k t v s1 = Ok s2.
Proof.
  intros Hf k t v Hv. eapply foldM_each_Ok; [exact Hf|].
  by apply series_entries.
Qed.

End walk.

(** ** Reset *)

Lemma resetEntry_pointwise {V : Type} a now (timestamp : V → time.Time) fresh :
  pointwise id (λ _ _, resetOf a now timestamp fresh)
    (resetEntry a now timestamp fresh).
Proof.
  intros key tags v m m' Hv Hf k t. unfold resetEntry, resetOf in *. simpl.
  destruct (isExpired a now (timestamp v)).
  - injection Hf as <-. apply series_remove.
  - destruct (fresh v) as [v'|]; simpl.
    + by apply series_assign.
    + injection Hf as <-. case_decide as Hd; [|done].
      destruct Hd as [-> ->]. done.
Qed.

Lemma resetEntry_panicFree {V : Type} a now (timestamp : V → time.Time) fresh :
  panicFree id (resetEntry a now timestamp fresh) (λ _ _ _, True).
Proof.
  intros key tags v m _ Hv. unfold resetEntry.
  destruct (isExpired a now (timestamp v)); [eauto|].
  destruct (fresh v); [|eauto]. by eapply assign_present.
Qed.

Lemma Each_reset {V : Type} a now (timestamp : V → time.Time) fresh
  (m : gmap string (gmap string V)) :
  ∃ m', Each m (resetEntry a now timestamp fresh) m = Ok m'
        ∧ ∀ k t, series m' k t = series m k t ≫= resetOf a now timestamp fresh.
Proof.
  destruct (Each_panicFree id _ _ _ m m
              (resetEntry_pointwise a now timestamp fresh)
              (resetEntry_panicFree a now timestamp fresh)) as [m' Hm'];
    [done|done|].
  exists m'. split; [done|].
  exact (Each_series id _ _ m m m' (resetEntry_pointwise a now timestamp fresh)
           (λ _ _, eq_refl) Hm').
Qed.

(** [Reset] never panics; it maps every record by the rule of its kind and
    leaves the configuration and the statistics alone. *)
Lemma Reset_spec a now :
  ∃ a', Reset a now = Ok a'
    ∧ (∀ k t, series (Counters a') k t
              = series (Counters a) k t
                ≫= resetOf a now Counter.Timestamp
                     (λ c, Some (Counter.ofInterval (Counter.Interval c))))
    ∧ (∀ k t, series (Timers a') k t
              = series (Timers a) k t
                ≫= resetOf a now Timer.Timestamp
                     (λ x, Some (Timer.ofInterval (Timer.Interval x))))
    ∧ (∀ k t, series (Sets a') k t
              = series (Sets a) k t
                ≫= resetOf a now Set_.Timestamp
                     (λ x, Some (Set_.ofInterval (Set_.Interval x))))
    ∧ (∀ k t, series (Gauges a') k t
              = series (Gauges a) k t
                ≫= resetOf a now Gauge.Timestamp (λ _, None))
    ∧ ExpiryInterval a' = ExpiryInterval a
    ∧ FlushInterval a' = FlushInterval a
    ∧ PercentThresholds a' = PercentThresholds a
    ∧ Stats a' = Stats a
    ∧ NumStats a' = 0.
Proof.
  unfold Reset, EachCounter, EachTimer, EachSet, EachGauge.
  destruct (Each_reset (withNumStats a 0) now Counter.Timestamp
              (λ c, Some (Counter.ofInterval (Counter.Interval c)))
              (Counters (withNumStats a 0))) as (cs & -> & Hcs).
  rewrite Ok_bind.
  destruct (Each_reset (withCounters (withNumStats a 0) cs) now Timer.Timestamp
              (λ x, Some (Timer.ofInterval (Timer.Interval x)))
              (Timers (withCounters (withNumStats a 0) cs)))
    as (ts & -> & Hts).
  rewrite Ok_bind.
  destruct (Each_reset (withTimers (withCounters (withNumStats a 0) cs) ts)
              now Set_.Timestamp
              (λ x, Some (Set_.ofInterval (Set_.Interval x)))
              (Sets (withTimers (withCounters (withNumStats a 0) cs) ts)))
    as (ss & -> & Hss).
  rewrite Ok_bind.
  destruct (Each_reset
              (withSets (withTimers (withCounters (withNumStats a 0) cs) ts) ss)
              now Gauge.Timestamp (λ _, None)
              (Gauges
                 (withSets (withTimers (withCounters (withNumStats a 0) cs) ts)
                    ss)))
    as (gs & -> & Hgs).
  rewrite Ok_bind.
  eexists. split; [reflexivity|].
  repeat split; assumption || reflexivity.
Qed.

(** ** flush *)

Lemma length_pos_nonempty {A : Type} (l : list A) :
  (0 <? Z.of_nat (length l)) = true ↔ l ≠ [].
Proof.
  destruct l; simpl; [split; [discriminate|done]|].
  split; [done|]. intros _. apply Z.ltb_lt. lia.
Qed.

Lemma flushCounterEntry_pointwise a :
  pointwise fst (λ _ _ c, Some (flushCounter a c)) (flushCounterEntry a).
Proof.
  intros key tags c [m n] [m' n'] Hc Hcb k' t'. cbn in *.
  apply bind_Ok in Hcb as (m1 & Hm1 & Hcb). injection Hcb as <- <-.
  by apply series_assign.
Qed.

Lemma flushTimerEntry_pointwise {sorter : sort.Sorter} a :
  pointwise fst (λ _ _ x, Some (flushTimer a x)) (flushTimerEntry a).
Proof.
  intros key tags x [m n] [m' n'] Hx Hcb k' t'. cbn in *.
  unfold flushTimer. destruct (0 <? Z.of_nat (length (Timer.Values x))).
  - apply bind_Ok in Hcb as (x' & Hx' & Hcb).
    apply bind_Ok in Hcb as (m1 & Hm1 & Hcb). injection Hcb as <- <-.
    rewrite Hx'. by apply series_assign.
  - injection Hcb as <- <-. case_decide as Hd; [|done].
    by destruct Hd as [-> ->].
Qed.

Lemma flush_inv {sorter : sort.Sorter} a startTime endTime a' snap :
  flush a startTime endTime = Ok (a', snap) →
  (∀ k t, series (Counters a') k t = flushCounter a <$> series (Counters a) k t)
  ∧ (∀ k t, series (Timers a') k t = flushTimer a <$> series (Timers a) k t)
  ∧ timersFinalize a
  ∧ Gauges a' = Gauges a ∧ Sets a' = Sets a
  ∧ MetricMap.Counters snap = Counters a'
  ∧ MetricMap.Timers snap = Timers a'
  ∧ MetricMap.Gauges snap = Gauges a'
  ∧ MetricMap.Sets snap = Sets a'
  ∧ MetricMap.FlushInterval snap = FlushInterval a
  ∧ FlushInterval a' = FlushInterval a
  ∧ ExpiryInterval a' = ExpiryInterval a
  ∧ PercentThresholds a' = PercentThresholds a.
Proof.
  unfold flush, EachCounter, EachTimer. intros Hf.
  apply bind_Ok in Hf as ([cs n1] & Hcs & Hf).
  apply bind_Ok in Hf as ([ts n2] & Hts & Hf).
  injection Hf as <- <-. cbn.
  split; [|split; [|split]]; [| | |repeat split].
  - intros k t.
    pose proof (Each_series fst _ _ _ _ _ (flushCounterEntry_pointwise a)
                  (λ _ _, eq_refl) Hcs k t) as H.
    cbn in H. rewrite H. by destruct (series _ k t).
  - intros k t.
    pose proof (Each_series fst _ _ _ _ _ (flushTimerEntry_pointwise a)
                  (λ _ _, eq_refl) Hts k t) as H.
    cbn in H. rewrite H. by destruct (series _ k t).
  - intros k t x Hx Hne.
    destruct (Each_each_Ok _ _ _ _ Hts k t x Hx) as ([m n] & s2 & Hcb).
    cbn in Hcb. apply length_pos_nonempty in Hne. rewrite Hne in Hcb.
    apply bind_Ok in Hcb as (x' & Hx' & _). eauto.
Qed.

Lemma flush_total {sorter : sort.Sorter} a startTime endTime :
  timersFinalize a → ∃ a' snap, flush a startTime endTime = Ok (a', snap).
Proof.
  intros Hfin. unfold flush, EachCounter, EachTimer.
  destruct (Each_panicFree fst _ _ (λ _ _ _, True) (Counters a) (Counters a, 0)
              (flushCounterEntry_pointwise a)) as [[cs n1] Hcs];
    [|done|done|].
  { intros key tags c [m n] _ Hc. unfold flushCounterEntry.
    match goal with
    | |- context [assign m key tags ?v] =>
        destruct (assign_present m key tags v c Hc) as [m' ->]
    end.
    rewrite Ok_bind. eauto. }
  rewrite Hcs. rewrite Ok_bind.
  destruct (Each_panicFree fst _ _
              (λ _ _ x, Timer.Values x ≠ [] → ∃ x', finalizeTimer a x = Ok x')
              (Timers a) (Timers a, addLens (Gauges a) n1)
              (flushTimerEntry_pointwise a)) as [[ts n2] Hts];
    [| |done|].
  { intros key tags x [m n] HP Hx. unfold flushTimerEntry.
    destruct (0 <? Z.of_nat (length (Timer.Values x))) eqn:Hlen; [|eauto].
    apply length_pos_nonempty in Hlen. destruct (HP Hlen) as [x' ->].
    rewrite Ok_bind.
    destruct (assign_present m key tags x' x Hx) as [m' ->].
    rewrite Ok_bind. eauto. }
  { intros k t x Hx. exact (Hfin k t x Hx). }
  rewrite Hts. rewrite Ok_bind. eauto.
Qed.

(** ** receiveMetric *)

Lemma series_insert2 {V : Type} (m : gmap string (gmap string V))
  key tags v inner k t :
  series m key = (λ t, inner !! t) →
  series (<[key := <[tags := v]> inner]> m) k t
  = if decide (k = key ∧ t = tags) then Some v else series m k t.
Proof.
  intros Hin. unfold series at 1.
  destruct (decide (k = key)) as [->|Hk].
  - rewrite lookup_insert_eq. simpl. destruct (decide (t = tags)) as [->|Ht].
    + rewrite lookup_insert_eq. by rewrite decide_True.
    + rewrite lookup_insert_ne by done. rewrite decide_False by tauto.
      by rewrite Hin.
  - rewrite lookup_insert_ne by done. rewrite decide_False by tauto. done.
Qed.

Lemma series_inner {V : Type} (m : gmap string (gmap string V)) key inner :
  m !! key = Some inner → series m key = (λ t, inner !! t).
Proof. intros H. unfold series. by rewrite H. Qed.

Lemma series_absent {V : Type} (m : gmap string (gmap string V)) key :
  m !! key = None → series m key = (λ t, (∅ : gmap string V) !! t).
Proof. intros H. unfold series. by rewrite H. Qed.

Ltac receive_frame Hty :=
  repeat match goal with
         | |- context [match ?o with Some _ => _ | None => _ end] =>
             destruct o; cbn
         end;
  (rewrite decide_False; [done|unfold foldsInto; rewrite Hty; by intros [? _]]).

Ltac receive_kind Hm Hv :=
  match goal with
  | |- context [series (<[?key := <[?tags := ?v]> ?inner]> ?m) ?k ?t] =>
      first
        [ rewrite (series_insert2 m key tags v inner k t (series_inner m key inner Hm))
        | rewrite (series_insert2 m key tags v inner k t (series_absent m key Hm)) ]
  end;
  unfold foldsInto; repeat case_decide; try tauto;
  try (destruct_and?; subst; unfold series; rewrite Hm; simpl;
       rewrite ?Hv, ?lookup_empty; done).

Lemma receive_Counters a m now wall k t :
  series (Counters (receiveMetric a m now wall)) k t
  = if decide (foldsInto m COUNTER k t)
    then Some (foldCounter a m now (series (Counters a) k t))
    else series (Counters a) k t.
Proof.
  unfold receiveMetric.
  destruct (Metric.Type_ m) eqn:Hty; cbn; try solve [receive_frame Hty].
  destruct (Counters a !! Metric.Name m) as [inner|] eqn:Hm; cbn;
    [destruct (inner !! Tags_String (Metric.Tags m)) as [c|] eqn:Hv; cbn|];
    receive_kind Hm Hv.
Qed.

Lemma receive_Gauges a m now wall k t :
  series (Gauges (receiveMetric a m now wall)) k t
  = if decide (foldsInto m GAUGE k t)
    then Some (foldGauge a m now (series (Gauges a) k t))
    else series (Gauges a) k t.
Proof.
  unfold receiveMetric.
  destruct (Metric.Type_ m) eqn:Hty; cbn; try solve [receive_frame Hty].
  destruct (Gauges a !! Metric.Name m) as [inner|] eqn:Hm; cbn;
    [destruct (inner !! Tags_String (Metric.Tags m)) as [c|] eqn:Hv; cbn|];
    receive_kind Hm Hv.
Qed.

Lemma receive_Timers a m now wall k t :
  series (Timers (receiveMetric a m now wall)) k t
  = if decide (foldsInto m TIMER k t)
    then Some (foldTimer a m now (series (Timers a) k t))
    else series (Timers a) k t.
Proof.
  unfold receiveMetric.
  destruct (Metric.Type_ m) eqn:Hty; cbn; try solve [receive_frame Hty].
  destruct (Timers a !! Metric.Name m) as [inner|] eqn:Hm; cbn;
    [destruct (inner !! Tags_String (Metric.Tags m)) as [c|] eqn:Hv; cbn|];
    receive_kind Hm Hv.
Qed.

Lemma receive_Sets a m now wall k t :
  series (Sets (receiveMetric a m now wall)) k t
  = if decide (foldsInto m SET k t)
    then Some (foldSet a m now (series (Sets a) k t))
    else series (Sets a) k t.
Proof.
  unfold receiveMetric.
  destruct (Metric.Type_ m) eqn:Hty; cbn; try solve [receive_frame Hty].
  destruct (Sets a !! Metric.Name m) as [inner|] eqn:Hm; cbn;
    [destruct (inner !! Tags_String (Metric.Tags m)) as [c|] eqn:Hv; cbn|];
    receive_kind Hm Hv.
Qed.

Lemma receive_config a m now wall :
  FlushInterval (receiveMetric a m now wall) = FlushInterval a
  ∧ ExpiryInterval (receiveMetric a m now wall) = ExpiryInterval a
  ∧ PercentThresholds (receiveMetric a m now wall) = PercentThresholds a.
Proof.
  unfold receiveMetric.
  destruct (Metric.Type_ m); cbn;
    repeat match goal with
           | |- context [match ?o with Some _ => _ | None => _ end] =>
               destruct o; cbn
           end; done.
Qed.

Lemma receiveAll_cons a m now wall folds :
  receiveAll a ((m, now, wall) :: folds)
  = receiveAll (receiveMetric a m now wall) folds.
Proof. reflexivity. Qed.

Lemma foldCounter_config a b m now o :
  FlushInterval a = FlushInterval b → foldCounter a m now o = foldCounter b m now o.
Proof. intros H. unfold foldCounter. by rewrite H. Qed.

Lemma foldTimer_config a b m now o :
  FlushInterval a = FlushInterval b → foldTimer a m now o = foldTimer b m now o.
Proof. intros H. unfold foldTimer. by rewrite H. Qed.

Lemma foldGauge_config a b m now o :
  FlushInterval a = FlushInterval b → foldGauge a m now o = foldGauge b m now o.
Proof. intros H. unfold foldGauge. by rewrite H. Qed.

Lemma foldSet_config a b m now o :
  FlushInterval a = FlushInterval b → foldSet a m now o = foldSet b m now o.
Proof. intros H. unfold foldSet. by rewrite H. Qed.

Lemma receive_timestamp a m now wall kind k t :
  timestampOf (receiveMetric a m now wall) kind k t
  = match timestampOf a kind k t with
    | Some ts => Some ts
    | None => if decide (foldsInto m kind k t)
              then (if isKind kind then Some now else None)
              else None
    end.
Proof.
  destruct kind; cbn [timestampOf isKind].
  - rewrite receive_Counters. case_decide; by destruct (series _ k t).
  - rewrite receive_Timers. case_decide; by destruct (series _ k t).
  - rewrite receive_Gauges. case_decide; by destruct (series _ k t).
  - rewrite receive_Sets. case_decide; by destruct (series _ k t).
  - by case_decide.
Qed.

Lemma receiveAll_timestamp a folds kind k t :
  isKind kind = true →
  timestampOf (receiveAll a folds) kind k t
  = match timestampOf a kind k t with
    | Some ts => Some ts
    | None => firstFold kind k t folds
    end.
Proof.
  intros Hk. revert a. induction folds as [|[[m now] wall] folds IH]; intros a.
  - simpl. by destruct (timestampOf a kind k t).
  - simpl. unfold receiveAll in IH. rewrite IH. rewrite receive_timestamp.
    rewrite Hk. destruct (timestampOf a kind k t); [done|].
    by case_decide.
Qed.

(** ** The claims *)

(** C5 (amended).  A fold of a record whose kind is none of the four drops
    the record: the four kind maps, the configuration and every statistic
    but [LastMessage] are as before the call, and [LastMessage] is set to
    the wall clock, as after any other fold. *)
Theorem unknown_kind_sets_only_LastMessage
  (a : MetricAggregator.t) (m : Metric.t) (now wallClock : time.Time)
  (code : Z) :
  Metric.Type_ m = OTHER code →
  let a' := receiveMetric a m now wallClock in
  a' = withStats a (metricAggregatorStats.withLastMessage (Stats a) wallClock)
  ∧ Counters a' = Counters a ∧ Timers a' = Timers a
  ∧ Gauges a' = Gauges a ∧ Sets a' = Sets a
  ∧ NumStats a' = NumStats a
  ∧ metricAggregatorStats.LastMessage (Stats a') = wallClock
  ∧ metricAggregatorStats.BadLines (Stats a')
    = metricAggregatorStats.BadLines (Stats a)
  ∧ metricAggregatorStats.LastFlush (Stats a')
    = metricAggregatorStats.LastFlush (Stats a)
  ∧ metricAggregatorStats.LastFlushError (Stats a')
    = metricAggregatorStats.LastFlushError (Stats a)
  ∧ metricAggregatorStats.NumStats (Stats a')
    = metricAggregatorStats.NumStats (Stats a)
  ∧ metricAggregatorStats.ProcessingTime (Stats a')
    = metricAggregatorStats.ProcessingTime (Stats a).
Proof.
  intros Hty a'. unfold a', receiveMetric. rewrite Hty. cbn.
  repeat split.
Qed.

Lemma unknown_kind_sets_only_LastMessage_witness :
  let a := NewMetricAggregator [90%float] time.Second 0 1 in
  let m := Metric.mk "x" 1 "" [] (OTHER 0) in
  Metric.Type_ m = OTHER 0
  ∧ receiveMetric a m 3 7
    = withStats a (metricAggregatorStats.withLastMessage (Stats a) 7).
Proof.
  split; [reflexivity|].
  exact (proj1 (unknown_kind_sets_only_LastMessage
                  (NewMetricAggregator [90%float] time.Second 0 1)
                  (Metric.mk "x" 1 "" [] (OTHER 0)) 3 7 0 eq_refl)).
Defined.

(** C5 (counterexample).  On a new aggregator, a fold of a record of an
    unknown kind at wall clock 7 changes [LastMessage] from the zero time
    to 7: the statistics are not as they were before the call. *)
Lemma unknown_kind_changes_LastMessage :
  let a := NewMetricAggregator [90%float] time.Second 0 1 in
  let m := Metric.mk "x" 1 "" [] (OTHER 0) in
  metricAggregatorStats.LastMessage (Stats a) = time.zeroTime
  ∧ metricAggregatorStats.LastMessage (Stats (receiveMetric a m 3 7)) = 7
  ∧ Stats (receiveMetric a m 3 7) ≠ Stats a.
Proof.
  split; [reflexivity|]. split; [reflexivity|].
  intros H. apply (f_equal metricAggregatorStats.LastMessage) in H.
  vm_compute in H. discriminate.
Qed.

(** C7.  [Reset] returns, and the series present after it are exactly the
    series that were present and not expired.  Each such counter, timer and
    set is the zero record of its kind carrying the old interval (counter
    value 0, timer without values, set with an empty map); each such gauge
    is the record it was. *)
Theorem Reset_survivors (a : MetricAggregator.t) (now : time.Time) :
  ∃ a', Reset a now = Ok a'
    ∧ (∀ k t c', series (Counters a') k t = Some c' ↔
         ∃ c, series (Counters a) k t = Some c
              ∧ isExpired a now (Counter.Timestamp c) = false
              ∧ c' = Counter.mk 0 0%float (Counter.Interval c) time.zeroTime)
    ∧ (∀ k t x', series (Timers a') k t = Some x' ↔
         ∃ x, series (Timers a) k t = Some x
              ∧ isExpired a now (Timer.Timestamp x) = false
              ∧ x' = Timer.mk 0 0%float 0%float 0%float 0%float 0%float
                       0%float 0%float 0%float [] [] (Timer.Interval x)
                       time.zeroTime)
    ∧ (∀ k t s', series (Sets a') k t = Some s' ↔
         ∃ s, series (Sets a) k t = Some s
              ∧ isExpired a now (Set_.Timestamp s) = false
              ∧ s' = Set_.mk ∅ (Set_.Interval s) time.zeroTime)
    ∧ (∀ k t g', series (Gauges a') k t = Some g' ↔
         series (Gauges a) k t = Some g'
         ∧ isExpired a now (Gauge.Timestamp g') = false).
Proof.
  destruct (Reset_spec a now) as (a' & Ha' & Hc & Ht & Hs & Hg & _).
  exists a'. split; [done|].
  split; [|split; [|split]]; intros k t v'.
  - rewrite Hc. unfold resetOf. destruct (series (Counters a) k t) as [c|]; simpl.
    + destruct (isExpired a now (Counter.Timestamp c)) eqn:He; simpl.
      * split; [done|]. intros (c0 & [= <-] & He' & _). congruence.
      * split; [intros [= <-]; eauto|]. by intros (c0 & [= <-] & _ & ->).
    + split; [done|]. by intros (c0 & ? & _).
  - rewrite Ht. unfold resetOf. destruct (series (Timers a) k t) as [c|]; simpl.
    + destruct (isExpired a now (Timer.Timestamp c)) eqn:He; simpl.
      * split; [done|]. intros (c0 & [= <-] & He' & _). congruence.
      * split; [intros [= <-]; eauto|]. by intros (c0 & [= <-] & _ & ->).
    + split; [done|]. by intros (c0 & ? & _).
  - rewrite Hs. unfold resetOf. destruct (series (Sets a) k t) as [c|]; simpl.
    + destruct (isExpired a now (Set_.Timestamp c)) eqn:He; simpl.
      * split; [done|]. intros (c0 & [= <-] & He' & _). congruence.
      * split; [intros [= <-]; eauto|]. by intros (c0 & [= <-] & _ & ->).
    + split; [done|]. by intros (c0 & ? & _).
  - rewrite Hg. unfold resetOf. destruct (series (Gauges a) k t) as [c|]; simpl.
    + destruct (isExpired a now (Gauge.Timestamp c)) eqn:He; simpl.
      * split; [done|]. intros [[= <-] He']. congruence.
      * split; [intros [= <-]; eauto|]. by intros [[= <-] _].
    + split; [done|]. by intros [? _].
Qed.

Lemma isExpired_ExpiryInterval a b now ts :
  ExpiryInterval a = ExpiryInterval b → isExpired a now ts = isExpired b now ts.
Proof. unfold isExpired. by intros ->. Qed.

Lemma series_empty {V : Type} k t :
  series (∅ : gmap string (gmap string V)) k t = None.
Proof. unfold series. by rewrite lookup_empty. Qed.

Lemma expiryScenario_counters pcts fi ei mw m1 m2 m1' t0 w1 w2 w3 k1 t1 k2 t2 :
  foldsInto m1 COUNTER k1 t1 → foldsInto m1' COUNTER k1 t1 →
  foldsInto m2 COUNTER k2 t2 → (k1, t1) ≠ (k2, t2) →
  let a := expiryScenario pcts fi ei mw m1 m2 m1' t0 w1 w2 w3 in
  ExpiryInterval a = ei
  ∧ (∃ c, series (Counters a) k1 t1 = Some c ∧ Counter.Timestamp c = t0)
  ∧ (∃ c, series (Counters a) k2 t2 = Some c ∧ Counter.Timestamp c = t0).
Proof.
  intros H1 H1' H2 Hne a. split; [|split].
  - unfold a, expiryScenario.
    repeat rewrite (proj1 (proj2 (receive_config _ _ _ _))). done.
  - unfold a, expiryScenario. rewrite receive_Counters.
    rewrite decide_True by done. rewrite receive_Counters.
    rewrite decide_False.
    2:{ intros (_ & -> & ->). destruct H2 as (_ & -> & ->). done. }
    rewrite receive_Counters. rewrite decide_True by done.
    cbn. rewrite series_empty. cbn. eauto.
  - unfold a, expiryScenario. rewrite receive_Counters.
    rewrite decide_False.
    2:{ intros (_ & -> & ->). destruct H1' as (_ & -> & ->). done. }
    rewrite receive_Counters. rewrite decide_True by done.
    rewrite receive_Counters. rewrite decide_False.
    2:{ intros (_ & -> & ->). destruct H1 as (_ & -> & ->). done. }
    cbn. rewrite series_empty. cbn. eauto.
Qed.

(** C2 (amended).  Two distinct counter series are created by folds at
    instant [t0] and the first is folded again one second later.  With an
    expiry interval of 2 s, a reset at [t0] + 3 s evicts both series: the
    second fold did not move the timestamp of the first.  With an expiry
    interval of 0, the same reset evicts neither and zeroes both. *)
Theorem expiry_anchors_on_creation
  (percentThresholds : list float) (flushInterval : time.Duration)
  (maxWorkers : Z) (m1 m2 m1' : Metric.t) (t0 w1 w2 w3 : time.Time)
  (k1 t1 k2 t2 : string) :
  foldsInto m1 COUNTER k1 t1 → foldsInto m1' COUNTER k1 t1 →
  foldsInto m2 COUNTER k2 t2 → (k1, t1) ≠ (k2, t2) →
  (∃ a', Reset (expiryScenario percentThresholds flushInterval
                  (2 * time.Second) maxWorkers m1 m2 m1' t0 w1 w2 w3)
           (t0 + 3 * time.Second) = Ok a'
         ∧ series (Counters a') k1 t1 = None
         ∧ series (Counters a') k2 t2 = None)
  ∧ (∃ a', Reset (expiryScenario percentThresholds flushInterval
                    0 maxWorkers m1 m2 m1' t0 w1 w2 w3)
             (t0 + 3 * time.Second) = Ok a'
           ∧ (∃ c, series (Counters a') k1 t1 = Some c ∧ Counter.Value c = 0)
           ∧ (∃ c, series (Counters a') k2 t2 = Some c ∧ Counter.Value c = 0)).
Proof.
  intros H1 H1' H2 Hne.
  assert (Hsub : time.Sub (t0 + 3 * time.Second) t0 = 3 * time.Second).
  { unfold time.Sub. replace (t0 + 3 * time.Second - t0) with (3 * time.Second)
      by lia. reflexivity. }
  split.
  - destruct (expiryScenario_counters percentThresholds flushInterval
                (2 * time.Second) maxWorkers m1 m2 m1' t0 w1 w2 w3
                k1 t1 k2 t2 H1 H1' H2 Hne)
      as (Hei & (c1 & Hc1 & Hts1) & (c2 & Hc2 & Hts2)).
    destruct (Reset_spec (expiryScenario percentThresholds flushInterval
                (2 * time.Second) maxWorkers m1 m2 m1' t0 w1 w2 w3)
                (t0 + 3 * time.Second)) as (a' & Ha' & Hc & _).
    exists a'. split; [done|].
    rewrite !Hc, Hc1, Hc2. cbn [mbind option_bind].
    unfold resetOf, isExpired. rewrite Hei, Hts1, Hts2, Hsub. done.
  - destruct (expiryScenario_counters percentThresholds flushInterval
                0 maxWorkers m1 m2 m1' t0 w1 w2 w3
                k1 t1 k2 t2 H1 H1' H2 Hne)
      as (Hei & (c1 & Hc1 & Hts1) & (c2 & Hc2 & Hts2)).
    destruct (Reset_spec (expiryScenario percentThresholds flushInterval
                0 maxWorkers m1 m2 m1' t0 w1 w2 w3)
                (t0 + 3 * time.Second)) as (a' & Ha' & Hc & _).
    exists a'. split; [done|].
    rewrite !Hc, Hc1, Hc2. cbn [mbind option_bind].
    unfold resetOf, isExpired. rewrite Hei. cbn. split; eauto.
Qed.

Lemma expiry_anchors_on_creation_witness :
  let a := Metric.mk "a" 1 "" [] COUNTER in
  let b := Metric.mk "b" 1 "" [] COUNTER in
  (foldsInto a COUNTER "a" "" ∧ foldsInto b COUNTER "b" ""
   ∧ ("a", "") ≠ ("b", ""))
  ∧ (∃ a', Reset (expiryScenario [90%float] time.Second (2 * time.Second) 1
                    a b a 0 0 0 time.Second)
             (0 + 3 * time.Second) = Ok a'
           ∧ series (Counters a') "a" "" = None
           ∧ series (Counters a') "b" "" = None).
Proof.
  split; [by repeat split|].
  refine (proj1 (expiry_anchors_on_creation [90%float] time.Second 1
                   (Metric.mk "a" 1 "" [] COUNTER)
                   (Metric.mk "b" 1 "" [] COUNTER)
                   (Metric.mk "a" 1 "" [] COUNTER)
                   0 0 0 time.Second "a" "" "b" "" _ _ _ _));
    by repeat split.
Defined.

(** C2 (counterexample).  Counters "a" and "b" are created at instant 0,
    "a" is folded again at 1 s, the expiry interval is 2 s and the reset
    comes at 3 s: no run of [Reset] leaves "b" absent and "a" present with
    value 0, since "a" is evicted too. *)
Lemma refreshed_counter_does_not_survive :
  let a := Metric.mk "a" 1 "" [] COUNTER in
  let b := Metric.mk "b" 1 "" [] COUNTER in
  ¬ ∃ a', Reset (expiryScenario [90%float] time.Second (2 * time.Second) 1
                   a b a 0 0 0 time.Second) (3 * time.Second) = Ok a'
          ∧ series (Counters a') "b" "" = None
          ∧ ∃ c, series (Counters a') "a" "" = Some c ∧ Counter.Value c = 0.
Proof.
  intros a b (a' & Ha' & _ & c & Hc & _).
  vm_compute in Ha'. injection Ha' as <-. vm_compute in Hc. discriminate.
Qed.

Lemma insert_Permutation x l : sort.insert x l ≡ₚ x :: l.
Proof.
  induction l as [|y l IH]; simpl; [done|].
  destruct (sort.Less y x); [|done].
  rewrite IH. apply perm_swap.
Qed.

Lemma insertionSort_Permutation l : sort.insertionSort l ≡ₚ l.
Proof.
  induction l as [|x l IH]; simpl; [done|].
  unfold sort.insertionSort in *. simpl. rewrite insert_Permutation.
  by constructor.
Qed.

Lemma SFcompare_refl s : s ≠ S754_nan → SFcompare s s = Some Eq.
Proof.
  destruct s as [[]|[]| |[] m e]; try done; intros _; cbn;
    rewrite Z.compare_refl, Pos.compare_cont_refl; done.
Qed.

Lemma SFcompare_Lt_swap s1 s2 :
  SFcompare s1 s2 = Some Lt → SFcompare s2 s1 = Some Gt.
Proof.
  destruct s1 as [[]|[]| |[] m1 e1], s2 as [[]|[]| |[] m2 e2];
    cbn [SFcompare]; try done;
    rewrite (Z.compare_antisym e1 e2);
    destruct (e1 ?= e2) eqn:He; cbn [CompOpp]; try done;
    pose proof (Pos.compare_cont_antisym m1 m2 Eq) as Hm;
    cbn [CompOpp] in Hm; rewrite <- Hm;
    destruct (Pos.compare_cont Eq m1 m2); cbn [CompOpp]; done.
Qed.

Lemma is_nan_Prim2SF x : PrimFloat.is_nan x = true ↔ Prim2SF x = S754_nan.
Proof.
  unfold PrimFloat.is_nan. rewrite FloatAxioms.eqb_spec. unfold SFeqb.
  split.
  - intros H. destruct (Prim2SF x) eqn:Hx; try done;
      rewrite SFcompare_refl in H by done; done.
  - intros ->. done.
Qed.

(** [Less] is asymmetric. *)
Lemma Less_asym x y : sort.Less y x = true → sort.Less x y = false.
Proof.
  unfold sort.Less. rewrite !FloatAxioms.ltb_spec. unfold SFltb.
  intros [H|[Hy Hx]%andb_prop]%orb_prop.
  - destruct (SFcompare (Prim2SF y) (Prim2SF x)) as [[]|] eqn:Hc; try done.
    rewrite (SFcompare_Lt_swap _ _ Hc). cbn.
    destruct (PrimFloat.is_nan x) eqn:Hn; [|done].
    apply is_nan_Prim2SF in Hn. rewrite Hn in Hc.
    by destruct (Prim2SF y).
  - apply is_nan_Prim2SF in Hy. rewrite Hy.
    apply negb_true_iff in Hx. rewrite Hx.
    by destruct (Prim2SF x).
Qed.

Lemma Float64sAreSorted_cons x y l :
  sort.Float64sAreSorted (x :: y :: l)
  = negb (sort.Less y x) && sort.Float64sAreSorted (y :: l).
Proof. reflexivity. Qed.

Lemma insert_sorted x l :
  sort.Float64sAreSorted l = true →
  sort.Float64sAreSorted (sort.insert x l) = true.
Proof.
  induction l as [|y l IH]; [done|]. intros Hs. cbn [sort.insert].
  destruct (sort.Less y x) eqn:Hyx.
  - destruct l as [|z l].
    + cbn. by rewrite (Less_asym _ _ Hyx).
    + rewrite Float64sAreSorted_cons in Hs.
      apply andb_prop in Hs as [Hzy Hl]. specialize (IH Hl).
      cbn [sort.insert] in *.
      destruct (sort.Less z x); rewrite Float64sAreSorted_cons.
      * by rewrite Hzy, IH.
      * by rewrite (Less_asym _ _ Hyx), IH.
  - rewrite Float64sAreSorted_cons. by rewrite Hyx, Hs.
Qed.

Lemma insertionSort_sorted l :
  sort.Float64sAreSorted (sort.insertionSort l) = true.
Proof.
  induction l as [|x l IH]; [done|]. cbn. by apply insert_sorted.
Qed.

(** The insertion sort meets the contract of [sort.Float64s].  The
    examples that evaluate a flush on given samples run on it; the theorems
    take the sort as a parameter and hold for every sort. *)
#[global] Instance insertionSorter : sort.Sorter := {|
  sort.Float64s := sort.insertionSort;
  sort.Float64s_permutes := insertionSort_Permutation;
  sort.Float64s_sorts := insertionSort_sorted
|}.

Lemma Float64s_Permutation {sorter : sort.Sorter} l : sort.Float64s l ≡ₚ l.
Proof. apply sort.Float64s_permutes. Qed.

Lemma Float64s_nil {sorter : sort.Sorter} : sort.Float64s [] = [].
Proof. apply Permutation_nil_r. apply Float64s_Permutation. Qed.

Lemma Float64s_singleton {sorter : sort.Sorter} v : sort.Float64s [v] = [v].
Proof. apply Permutation_singleton_r. apply Float64s_Permutation. Qed.

Lemma finalizeTimer_frame {sorter : sort.Sorter} a x x' :
  finalizeTimer a x = Ok x' →
  Timer.Values x' = sort.Float64s (Timer.Values x)
  ∧ Timer.Interval x' = Timer.Interval x
  ∧ Timer.Timestamp x' = Timer.Timestamp x
  ∧ Timer.Count x' = Z.of_nat (length (Timer.Values x')).
Proof.
  unfold finalizeTimer. intros H.
  apply bind_Ok in H as (tMin & _ & H).
  apply bind_Ok in H as (tMax & _ & H).
  apply bind_Ok in H as (st & _ & H).
  apply bind_Ok in H as (sum & _ & H).
  apply bind_Ok in H as (sumSquares & _ & H).
  apply bind_Ok in H as (median & _ & H).
  injection H as <-. cbn. done.
Qed.

Lemma flushTimer_frame {sorter : sort.Sorter} a x :
  timersFinalize a →
  ∀ k t, series (Timers a) k t = Some x →
  Timer.Values (flushTimer a x) = sort.Float64s (Timer.Values x)
  ∧ Timer.Interval (flushTimer a x) = Timer.Interval x
  ∧ Timer.Timestamp (flushTimer a x) = Timer.Timestamp x
  ∧ (Timer.Values x = [] → flushTimer a x = x).
Proof.
  intros Hfin k t Hx. unfold flushTimer.
  destruct (0 <? Z.of_nat (length (Timer.Values x))) eqn:Hlen.
  - apply length_pos_nonempty in Hlen.
    destruct (Hfin k t x Hx Hlen) as [x' Hx']. rewrite Hx'.
    apply finalizeTimer_frame in Hx' as (? & ? & ? & _). done.
  - destruct (Timer.Values x) as [|v vs] eqn:Hv; [by rewrite Float64s_nil|].
    simpl in Hlen. apply Z.ltb_ge in Hlen. lia.
Qed.

(** ** The timestamp of a record *)

Lemma perform_timestamp {sorter : sort.Sorter} op a0 a a' kind k t :
  isKind kind = true →
  ExpiryInterval a = ExpiryInterval a0 →
  perform op a = Ok a' →
  timestampOf a' kind k t = stampAfter a0 kind k t (timestampOf a kind k t) op
  ∧ ExpiryInterval a' = ExpiryInterval a0.
Proof.
  intros Hk He Hop.
  destruct op as [m now wall|startTime endTime|now|failed now]; cbn in Hop.
  - injection Hop as <-. split.
    + rewrite receive_timestamp, Hk. cbn [stampAfter]. done.
    + by rewrite (proj1 (proj2 (receive_config a m now wall))).
  - apply bind_Ok in Hop as ([a1 snap] & Hf & Hop). injection Hop as <-.
    apply flush_inv in Hf
      as (Hc & Ht & Hfin & Hg & Hs & _ & _ & _ & _ & _ & _ & He1 & _).
    split; [|congruence]. cbn [stampAfter].
    destruct kind; cbn [timestampOf]; rewrite ?Hc, ?Ht, ?Hg, ?Hs; try done.
    + by destruct (series (Counters a) k t).
    + destruct (series (Timers a) k t) as [x|] eqn:Hx; [|done]. cbn.
      by destruct (flushTimer_frame a x Hfin k t Hx) as (_ & _ & -> & _).
  - destruct (Reset_spec a now) as (a1 & Hr & Hc & Ht & Hs & Hg & He1 & _).
    rewrite Hop in Hr. injection Hr as <-.
    split; [|congruence]. cbn [stampAfter].
    destruct kind; cbn [timestampOf] in *; try done;
      rewrite ?Hc, ?Ht, ?Hg, ?Hs; unfold resetOf;
      match goal with
      | |- context [series ?m k t] => destruct (series m k t) as [v|]
      end; try done; cbn;
      rewrite (isExpired_ExpiryInterval a a0) by done;
      by case_match.
  - injection Hop as <-. split; [|done]. by destruct kind.
Qed.

Lemma performAll_timestamp {sorter : sort.Sorter} ops a0 a a' kind k t :
  isKind kind = true →
  ExpiryInterval a = ExpiryInterval a0 →
  performAll ops a = Ok a' →
  timestampOf a' kind k t
  = foldl (stampAfter a0 kind k t) (timestampOf a kind k t) ops.
Proof.
  intros Hk. unfold performAll. revert a.
  induction ops as [|op ops IH]; intros a He H; cbn [foldM foldl] in *.
  - by injection H as <-.
  - apply bind_Ok in H as (a1 & H1 & H).
    destruct (perform_timestamp op a0 a a1 kind k t Hk He H1) as [Hts He1].
    rewrite <- Hts. by apply IH.
Qed.

Lemma stampAfter_origin a0 kind k t ops :
  ∀ ts, foldl (stampAfter a0 kind k t) None ops = Some ts →
    ts = time.zeroTime
    ∨ ∃ m now wallClock,
        OpReceive m now wallClock ∈ ops ∧ foldsInto m kind k t ∧ ts = now.
Proof.
  induction ops as [|op ops IH] using rev_ind; intros ts; [done|].
  rewrite foldl_app. cbn [foldl].
  assert (Hin : ∀ ts', foldl (stampAfter a0 kind k t) None ops = Some ts' →
            ts' = time.zeroTime
            ∨ ∃ m now wallClock,
                OpReceive m now wallClock ∈ ops ++ [op]
                ∧ foldsInto m kind k t ∧ ts' = now).
  { intros ts' H. destruct (IH ts' H) as [?|(m & now & w & ? & ? & ?)];
      [by left|]. right. exists m, now, w. set_solver. }
  destruct (foldl (stampAfter a0 kind k t) None ops) as [ts0|];
    destruct op as [m now wall|startTime endTime|now|failed now];
    cbn [stampAfter mbind option_bind].
  - intros [= <-]. by apply Hin.
  - intros [= <-]. by apply Hin.
  - destruct (isExpired a0 now ts0); [done|]. intros [= <-].
    destruct kind; (by left) || by apply Hin.
  - intros [= <-]. by apply Hin.
  - case_decide; [|done]. intros [= <-]. right. exists m, now, wall.
    set_solver.
  - done.
  - done.
  - done.
Qed.

Lemma stampAfter_folds a0 kind k t folds o :
  foldl (stampAfter a0 kind k t) o
    ((λ '(m, now, wallClock), OpReceive m now wallClock) <$> folds)
  = match o with
    | Some ts => Some ts
    | None => firstFold kind k t folds
    end.
Proof.
  revert o. induction folds as [|[[m now] wall] folds IH]; intros o.
  - by destruct o.
  - cbn [fmap list_fmap foldl firstFold]. rewrite IH. cbn [stampAfter].
    destruct o; [done|]. by case_decide.
Qed.

(** C4 (amended).  In every state of the aggregator, reached from any
    state by folds, flushes, resets and sender results, the timestamp of
    every record of the four kinds is what the history of its series
    gives: the instant [now] of the fold that created the record, or the
    zero instant once a reset has replaced the record (a counter, timer or
    set that survives a reset; a gauge keeps its timestamp).  A fold into a
    series that exists never changes the timestamp, a flush neither; a fold
    that creates the series stamps it with its own [now].  So in a state
    reached from an aggregator without the series, the timestamp of a
    record is the zero instant or the [now] of a fold into its series; and
    when the operations are folds only, it is the [now] of the first fold
    into the series. *)
Theorem timestamp_is_creation_instant {sorter : sort.Sorter}
  (a0 a : MetricAggregator.t) (ops : list Operation)
  (kind : MetricType) (k t : string) :
  isKind kind = true →
  performAll ops a0 = Ok a →
  timestampOf a kind k t
  = foldl (stampAfter a0 kind k t) (timestampOf a0 kind k t) ops
  ∧ (∀ m now wallClock,
       foldsInto m kind k t →
       timestampOf (receiveMetric a m now wallClock) kind k t
       = Some (default now (timestampOf a kind k t)))
  ∧ (∀ startTime endTime a' snap,
       flush a startTime endTime = Ok (a', snap) →
       timestampOf a' kind k t = timestampOf a kind k t)
  ∧ (timestampOf a0 kind k t = None →
     ∀ ts, timestampOf a kind k t = Some ts →
       ts = time.zeroTime
       ∨ ∃ m now wallClock,
           OpReceive m now wallClock ∈ ops ∧ foldsInto m kind k t ∧ ts = now)
  ∧ (timestampOf a0 kind k t = None →
     ∀ folds,
       ops = (λ '(m, now, wallClock), OpReceive m now wallClock) <$> folds →
       timestampOf a kind k t = firstFold kind k t folds).
Proof.
  intros Hk Hops.
  pose proof (performAll_timestamp ops a0 a0 a kind k t Hk eq_refl Hops) as H.
  split; [exact H|]. split; [|split; [|split]];
    [| | |intros H0 folds ->; by rewrite H, H0, stampAfter_folds].
  - intros m now wall Hm. rewrite receive_timestamp. rewrite Hk.
    rewrite decide_True by done. by destruct (timestampOf a kind k t).
  - intros startTime endTime a' snap Hf.
    assert (Hp : perform (OpFlush startTime endTime) a = Ok a').
    { cbn. by rewrite Hf. }
    by destruct (perform_timestamp _ a a a' kind k t Hk eq_refl Hp) as [-> _].
  - intros H0 ts. rewrite H, H0. apply stampAfter_origin.
Qed.

Lemma timestamp_is_creation_instant_witness :
  let hits := Metric.mk "hits" 1 "" [] COUNTER in
  let load := Metric.mk "load" 3 "" [] GAUGE in
  let a0 := NewMetricAggregator [90%float] time.Second 0 1 in
  let ops := [OpReceive hits 5 6; OpReceive load 5 6; OpReceive hits 7 8;
              OpFlush 8 9; OpReset 9; OpReceive hits 10 11;
              OpReceive load 10 11] in
  isKind COUNTER = true
  ∧ ∃ a, performAll ops a0 = Ok a
      ∧ timestampOf a COUNTER "hits" "" = Some time.zeroTime
      ∧ timestampOf a GAUGE "load" "" = Some 5.
Proof.
  intros hits load a0 ops. split; [reflexivity|].
  destruct (performAll ops a0) as [a|e] eqn:H;
    [|vm_compute in H; discriminate].
  exists a. split; [reflexivity|]. split.
  - exact (proj1 (timestamp_is_creation_instant a0 a ops COUNTER "hits" ""
                    eq_refl H)).
  - exact (proj1 (timestamp_is_creation_instant a0 a ops GAUGE "load" ""
                    eq_refl H)).
Defined.

(** C4 (counterexample).  A counter folded at instant 0 and again one
    second later still carries timestamp 0, not the instant of its most
    recent fold.  After a reset, which the counter survives, and one more
    fold it carries the zero instant, the instant of no fold. *)
Lemma timestamp_not_most_recent_fold :
  let hits := Metric.mk "hits" 1 "" [] COUNTER in
  let a0 := NewMetricAggregator [90%float] time.Second 0 1 in
  let a := receiveMetric (receiveMetric a0 hits 0 0) hits time.Second
             time.Second in
  timestampOf a COUNTER "hits" "" = Some 0
  ∧ timestampOf a COUNTER "hits" "" ≠ Some time.Second
  ∧ ∃ a1, Reset a (2 * time.Second) = Ok a1
      ∧ timestampOf
          (receiveMetric a1 hits (3 * time.Second) (3 * time.Second))
          COUNTER "hits" ""
        = Some time.zeroTime.
Proof.
  intros hits a0 a. split; [reflexivity|].
  split; [vm_compute; discriminate|].
  destruct (Reset a (2 * time.Second)) as [a1|e] eqn:Hr;
    [|vm_compute in Hr; discriminate].
  exists a1. split; [reflexivity|].
  vm_compute in Hr. injection Hr as <-. reflexivity.
Qed.

Lemma flushTimer_finalized {sorter : sort.Sorter} a x x' :
  Timer.Values x ≠ [] → finalizeTimer a x = Ok x' → flushTimer a x = x'.
Proof.
  intros Hne Hx'. unfold flushTimer.
  apply length_pos_nonempty in Hne. by rewrite Hne, Hx'.
Qed.

(** C10.  A flush that returns leaves in each of the four kind maps exactly
    the series that were there: none is created and none is removed.
    A fold removes none, [Reset] creates none, and the series [Reset]
    removes are the expired ones. *)
Theorem flush_keeps_every_series {sorter : sort.Sorter} :
  (∀ a m now wallClock k t,
     (is_Some (series (Counters a) k t) →
      is_Some (series (Counters (receiveMetric a m now wallClock)) k t))
     ∧ (is_Some (series (Timers a) k t) →
        is_Some (series (Timers (receiveMetric a m now wallClock)) k t))
     ∧ (is_Some (series (Gauges a) k t) →
        is_Some (series (Gauges (receiveMetric a m now wallClock)) k t))
     ∧ (is_Some (series (Sets a) k t) →
        is_Some (series (Sets (receiveMetric a m now wallClock)) k t)))
  ∧ (∀ a startTime endTime a' snap,
     flush a startTime endTime = Ok (a', snap) →
     sameSeries (Counters a) (Counters a')
     ∧ sameSeries (Timers a) (Timers a')
     ∧ sameSeries (Gauges a) (Gauges a')
     ∧ sameSeries (Sets a) (Sets a'))
  ∧ (∀ a now, ∃ a', Reset a now = Ok a'
       ∧ (∀ k t, is_Some (series (Counters a') k t) ↔
            ∃ c, series (Counters a) k t = Some c
                 ∧ isExpired a now (Counter.Timestamp c) = false)
       ∧ (∀ k t, is_Some (series (Timers a') k t) ↔
            ∃ x, series (Timers a) k t = Some x
                 ∧ isExpired a now (Timer.Timestamp x) = false)
       ∧ (∀ k t, is_Some (series (Gauges a') k t) ↔
            ∃ g, series (Gauges a) k t = Some g
                 ∧ isExpired a now (Gauge.Timestamp g) = false)
       ∧ (∀ k t, is_Some (series (Sets a') k t) ↔
            ∃ s, series (Sets a) k t = Some s
                 ∧ isExpired a now (Set_.Timestamp s) = false)).
Proof.
  split; [|split].
  - intros a m now wall k t.
    rewrite receive_Counters, receive_Timers, receive_Gauges, receive_Sets.
    repeat split; intros H; case_decide; eauto.
  - intros a startTime endTime a' snap Hf.
    apply flush_inv in Hf as (Hc & Ht & _ & Hg & Hs & _).
    unfold sameSeries. rewrite Hg, Hs. split; [|split; [|done]]; intros k t.
    + rewrite Hc. apply fmap_is_Some.
    + rewrite Ht. apply fmap_is_Some.
  - intros a now.
    destruct (Reset_spec a now) as (a' & Ha' & Hc & Ht & Hs & Hg & _).
    exists a'. split; [done|].
    split; [|split; [|split]]; intros k t.
    + rewrite Hc. unfold resetOf. destruct (series (Counters a) k t) as [c|]; simpl.
      * destruct (isExpired a now (Counter.Timestamp c)) eqn:He; simpl.
        -- split; [by intros [? ?]|]. intros (c0 & [= <-] & He'). congruence.
        -- split; eauto.
      * split; [by intros [? ?]|]. by intros (c0 & ? & _).
    + rewrite Ht. unfold resetOf. destruct (series (Timers a) k t) as [c|]; simpl.
      * destruct (isExpired a now (Timer.Timestamp c)) eqn:He; simpl.
        -- split; [by intros [? ?]|]. intros (c0 & [= <-] & He'). congruence.
        -- split; eauto.
      * split; [by intros [? ?]|]. by intros (c0 & ? & _).
    + rewrite Hg. unfold resetOf. destruct (series (Gauges a) k t) as [c|]; simpl.
      * destruct (isExpired a now (Gauge.Timestamp c)) eqn:He; simpl.
        -- split; [by intros [? ?]|]. intros (c0 & [= <-] & He'). congruence.
        -- split; eauto.
      * split; [by intros [? ?]|]. by intros (c0 & ? & _).
    + rewrite Hs. unfold resetOf. destruct (series (Sets a) k t) as [c|]; simpl.
      * destruct (isExpired a now (Set_.Timestamp c)) eqn:He; simpl.
        -- split; [by intros [? ?]|]. intros (c0 & [= <-] & He'). congruence.
        -- split; eauto.
      * split; [by intros [? ?]|]. by intros (c0 & ? & _).
Qed.

Lemma flush_keeps_every_series_witness :
  let hits := Metric.mk "hits" 1 "" [] COUNTER in
  let a := receiveAll (NewMetricAggregator [90%float] time.Second 0 1)
             [(hits, 0, 0); (Metric.mk "t" 2 "" [] TIMER, 0, 0)] in
  ∃ a' snap, flush a 1 2 = Ok (a', snap)
    ∧ sameSeries (Counters a) (Counters a')
    ∧ sameSeries (Timers a) (Timers a')
    ∧ sameSeries (Gauges a) (Gauges a')
    ∧ sameSeries (Sets a) (Sets a').
Proof.
  intros hits a.
  destruct (flush a 1 2) as [[a' snap]|e] eqn:Hf; [|vm_compute in Hf; discriminate].
  exists a', snap. split; [reflexivity|].
  exact (proj1 (proj2 flush_keeps_every_series) a 1 2 a' snap Hf).
Defined.

(** C6 (amended).  A flush that returns leaves every gauge, every set and
    every timer without samples as it was.  In a counter it writes
    [PerSecond] and nothing else.  In a timer with samples it writes the
    computed fields and sorts the values: they are left in increasing order
    (no value is [Less] than the one before it, whatever order the sort
    gives to values that compare equal), and the interval, the timestamp
    and the values as a multiset are kept. *)
Theorem flush_writes_computed_fields {sorter : sort.Sorter}
  (a : MetricAggregator.t) (startTime endTime : time.Time)
  (a' : MetricAggregator.t) (snap : MetricMap.t) :
  flush a startTime endTime = Ok (a', snap) →
  Gauges a' = Gauges a
  ∧ Sets a' = Sets a
  ∧ (∀ k t,
       series (Counters a') k t
       = (λ c, Counter.mk (Counter.Value c)
                 (float64.of_int (Counter.Value c)
                    / time.Seconds (FlushInterval a))%float
                 (Counter.Interval c) (Counter.Timestamp c))
         <$> series (Counters a) k t)
  ∧ (∀ k t,
       match series (Timers a) k t with
       | Some x =>
           ∃ x', series (Timers a') k t = Some x'
                 ∧ Timer.Values x' = sort.Float64s (Timer.Values x)
                 ∧ sort.Float64sAreSorted (Timer.Values x') = true
                 ∧ Timer.Values x' ≡ₚ Timer.Values x
                 ∧ Timer.Interval x' = Timer.Interval x
                 ∧ Timer.Timestamp x' = Timer.Timestamp x
                 ∧ (Timer.Values x = [] → x' = x)
       | None => series (Timers a') k t = None
       end).
Proof.
  intros Hf. apply flush_inv in Hf as (Hc & Ht & Hfin & Hg & Hs & _).
  split; [done|]. split; [done|]. split.
  - intros k t. rewrite Hc. done.
  - intros k t. rewrite Ht. destruct (series (Timers a) k t) as [x|] eqn:Hx;
      [|done].
    destruct (flushTimer_frame a x Hfin k t Hx) as (Hv & Hi & Hts & He).
    exists (flushTimer a x). rewrite Hv. repeat split; try done.
    + apply sort.Float64s_sorts.
    + apply Float64s_Permutation.
Qed.

Lemma flush_writes_computed_fields_witness :
  let a := receiveAll (NewMetricAggregator [90%float] time.Second 0 1)
             [(Metric.mk "hits" 1 "" [] COUNTER, 0, 0);
              (Metric.mk "t" 2 "" [] TIMER, 0, 0);
              (Metric.mk "t" 1 "" [] TIMER, 0, 0)] in
  ∃ a' snap, flush a 1 2 = Ok (a', snap)
    ∧ Gauges a' = Gauges a
    ∧ Sets a' = Sets a.
Proof.
  intros a.
  destruct (flush a 1 2) as [[a' snap]|e] eqn:Hf; [|vm_compute in Hf; discriminate].
  exists a', snap. split; [reflexivity|].
  pose proof (flush_writes_computed_fields a 1 2 a' snap Hf) as (Hg & Hs & _).
  by split.
Defined.

(** The samples 2 and 1 have one sorted order, so every sort returns it. *)
Lemma Float64s_two_one {sorter : sort.Sorter} :
  sort.Float64s [2; 1]%float = [1; 2]%float.
Proof.
  pose proof (sort.Float64s_sorts [2; 1]%float) as Hs.
  pose proof (Float64s_Permutation [2; 1]%float) as Hp.
  revert Hs Hp. generalize (sort.Float64s [2; 1]%float). intros l Hs Hp.
  symmetry in Hp. apply permutations_Permutation in Hp. vm_compute in Hp.
  repeat (apply elem_of_cons in Hp as [->|Hp];
          [first [reflexivity | vm_compute in Hs; discriminate]|]).
  by apply elem_of_nil in Hp.
Qed.

(** C6 (counterexample).  A timer that received the samples 2 and 1 is
    stored by the flush with its values in the order 1, 2 and with the
    count 2: the record in the live state is not the record of before the
    flush.  This is so whatever function sorts the values: under no sort
    does a flush that returns leave the values or the record as they
    were. *)
Lemma flush_changes_live_records :
  let a := receiveAll (NewMetricAggregator [90%float] time.Second 0 1)
             [(Metric.mk "t" 2 "" [] TIMER, 0, 0);
              (Metric.mk "t" 1 "" [] TIMER, 0, 0)] in
  (∃ a' snap, flush a 1 2 = Ok (a', snap)
     ∧ Timer.Values <$> series (Timers a) "t" "" = Some [2%float; 1%float]
     ∧ Timer.Values <$> series (Timers a') "t" "" = Some [1%float; 2%float]
     ∧ series (Timers a') "t" "" ≠ series (Timers a) "t" "")
  ∧ ¬ ∃ (sorter : sort.Sorter) a' snap,
        flush a 1 2 = Ok (a', snap)
        ∧ (Timer.Values <$> series (Timers a') "t" "" ≠ Some [1%float; 2%float]
           ∨ series (Timers a') "t" "" = series (Timers a) "t" "").
Proof.
  intros a. split.
  - eexists _, _. split; [vm_compute; reflexivity|].
    split; [reflexivity|]. split; [reflexivity|].
    intros H. apply (f_equal (fmap Timer.Count)) in H. vm_compute in H.
    discriminate.
  - intros (sorter & a' & snap & Hf & Hbad).
    apply flush_inv in Hf as (_ & Ht & Hfin & _).
    specialize (Ht "t" "").
    destruct (series (Timers a) "t" "") as [x|] eqn:Hx;
      [|vm_compute in Hx; discriminate].
    assert (Hv : Timer.Values x = [2; 1]%float).
    { vm_compute in Hx. injection Hx as <-. reflexivity. }
    assert (Hcount : Timer.Count x = 0).
    { vm_compute in Hx. injection Hx as <-. reflexivity. }
    assert (Hne : Timer.Values x ≠ []) by (rewrite Hv; discriminate).
    destruct (Hfin "t" "" x Hx Hne) as [x' Hx'].
    cbn [fmap option_fmap option_map] in Ht.
    rewrite (flushTimer_finalized a x x' Hne Hx') in Ht.
    apply finalizeTimer_frame in Hx' as (Hvals & _ & _ & Hc).
    rewrite Hv, Float64s_two_one in Hvals. rewrite Ht in Hbad.
    destruct Hbad as [Hbad|Hbad].
    + apply Hbad. cbn. by rewrite Hvals.
    + injection Hbad as ->. rewrite Hvals, Hcount in Hc. cbn in Hc. lia.
Qed.

(** ** Counters over a window *)

Lemma wrap64_small z : inInt64 z = true → wrap64 z = z.
Proof.
  unfold inInt64, wrap64, minInt64, maxInt64.
  intros [H1 H2]%andb_prop. apply Z.leb_le in H1, H2.
  rewrite Z.mod_small; lia.
Qed.

Lemma wrap64_add_l x y : wrap64 (wrap64 x + y) = wrap64 (x + y).
Proof.
  unfold wrap64.
  replace ((x + 2 ^ 63) mod 2 ^ 64 - 2 ^ 63 + y + 2 ^ 63)
    with ((x + 2 ^ 63) mod 2 ^ 64 + y) by lia.
  rewrite Zplus_mod_idemp_l. f_equal. f_equal. lia.
Qed.

Lemma to_int_inInt64 f : inInt64 (float64.to_int f) = true.
Proof.
  unfold float64.to_int. destruct (Prim2SF f) as [| | |s m e]; try reflexivity.
  cbv zeta.
  match goal with
  | |- inInt64 (if inInt64 ?z then _ else _) = true =>
      destruct (inInt64 z) eqn:H; [exact H|reflexivity]
  end.
Qed.

Lemma receiveAll_FlushInterval a folds :
  FlushInterval (receiveAll a folds) = FlushInterval a.
Proof.
  revert a. induction folds as [|[[m now] wall] folds IH]; intros a; [done|].
  simpl. unfold receiveAll in IH. rewrite IH.
  apply (proj1 (receive_config a m now wall)).
Qed.

Lemma receiveAll_counter_value a folds k t :
  Counter.Value <$> series (Counters (receiveAll a folds)) k t
  = match Counter.Value <$> series (Counters a) k t, increments k t folds with
    | Some v, incs => Some (foldl (λ acc i, wrap64 (acc + i)) v incs)
    | None, [] => None
    | None, i :: incs => Some (foldl (λ acc i, wrap64 (acc + i)) i incs)
    end.
Proof.
  revert a. induction folds as [|[[m now] wall] folds IH]; intros a.
  - simpl. by destruct (series (Counters a) k t).
  - simpl. unfold receiveAll in IH. rewrite IH. rewrite receive_Counters.
    case_decide; [|done].
    destruct (series (Counters a) k t) as [c|]; reflexivity.
Qed.

Lemma foldl_wrap64 v incs :
  wrap64 (foldl (λ acc i, wrap64 (acc + i)) v incs) = wrap64 (v + sumZ incs).
Proof.
  revert v. induction incs as [|i incs IH]; intros v; simpl.
  - f_equal. lia.
  - rewrite IH. rewrite wrap64_add_l. f_equal. lia.
Qed.

Lemma foldl_wrap64_nonempty v i incs :
  foldl (λ acc i, wrap64 (acc + i)) v (i :: incs) = wrap64 (v + sumZ (i :: incs)).
Proof.
  revert v i. induction incs as [|j incs IH]; intros v i.
  - simpl. f_equal. lia.
  - change (foldl (λ acc i, wrap64 (acc + i)) (wrap64 (v + i)) (j :: incs)
            = wrap64 (v + sumZ (i :: j :: incs))).
    rewrite IH. rewrite wrap64_add_l. f_equal. simpl. lia.
Qed.

Lemma increments_inInt64 k t folds :
  Forall (λ i, inInt64 i = true) (increments k t folds).
Proof.
  induction folds as [|[[m now] wall] folds IH]; simpl; [constructor|].
  case_decide; [|done]. constructor; [apply to_int_inInt64|done].
Qed.

Lemma window_value a folds k t :
  (series (Counters a) k t = None
   ∨ ∃ c, series (Counters a) k t = Some c ∧ Counter.Value c = 0) →
  increments k t folds ≠ [] →
  Counter.Value <$> series (Counters (receiveAll a folds)) k t
  = Some (wrap64 (sumZ (increments k t folds))).
Proof.
  intros Hinit Hne. rewrite receiveAll_counter_value.
  pose proof (increments_inInt64 k t folds) as Hin.
  destruct (increments k t folds) as [|i incs]; [done|].
  destruct Hinit as [->|(c & -> & Hc)]; cbn [fmap option_fmap option_map].
  - destruct incs as [|j incs].
    + simpl. f_equal. rewrite Z.add_0_r. symmetry. apply wrap64_small.
      by inversion Hin.
    + rewrite foldl_wrap64_nonempty. done.
  - rewrite Hc. rewrite foldl_wrap64_nonempty. done.
Qed.

(** C9.  A counter series that is absent or zero at the start of a window
    and receives folds with the int64 increments [v1 .. vk] (k ≥ 1) holds
    their sum, wrapped to 64 bits, at the end of the window; provided every
    timer finalizes, the flush returns and the counter it hands out has that
    value and [PerSecond] equal to the value divided by the flush interval
    in seconds. *)
Theorem counter_window_sum_and_rate {sorter : sort.Sorter}
  (a : MetricAggregator.t) (folds : list Fold) (k t : string)
  (startTime endTime : time.Time) :
  (series (Counters a) k t = None
   ∨ ∃ c, series (Counters a) k t = Some c ∧ Counter.Value c = 0) →
  increments k t folds ≠ [] →
  timersFinalize (receiveAll a folds) →
  let total := sumZ (increments k t folds) in
  ∃ c0 a' snap c,
    series (Counters (receiveAll a folds)) k t = Some c0
    ∧ Counter.Value c0 = wrap64 total
    ∧ flush (receiveAll a folds) startTime endTime = Ok (a', snap)
    ∧ series (MetricMap.Counters snap) k t = Some c
    ∧ Counter.Value c = wrap64 total
    ∧ (inInt64 total = true → Counter.Value c = total)
    ∧ Counter.PerSecond c
      = (float64.of_int (Counter.Value c)
           / time.Seconds (FlushInterval a))%float.
Proof.
  intros Hinit Hne Hfin total.
  pose proof (window_value a folds k t Hinit Hne) as Hv.
  destruct (series (Counters (receiveAll a folds)) k t) as [c0|] eqn:Hc0;
    [|discriminate].
  injection Hv as Hv.
  destruct (flush_total _ startTime endTime Hfin) as (a' & snap & Hf).
  pose proof (flush_inv _ _ _ _ _ Hf) as (Hc & _ & _ & _ & _ & Hsnap & _).
  exists c0, a', snap, (flushCounter (receiveAll a folds) c0).
  split; [done|]. split; [done|]. split; [done|].
  split; [by rewrite Hsnap, Hc, Hc0|].
  cbn. split; [done|]. split.
  - intros Hr. rewrite Hv. by apply wrap64_small.
  - by rewrite receiveAll_FlushInterval.
Qed.

Lemma counter_window_sum_and_rate_witness :
  let hits := Metric.mk "hits" 1 "" [] COUNTER in
  let a := NewMetricAggregator [90%float] time.Second 0 1 in
  let folds := [(hits, 0, 0); (hits, 1, 1); (hits, 2, 2)] in
  series (Counters a) "hits" "" = None
  ∧ increments "hits" "" folds = [1; 1; 1]
  ∧ ∃ c0 a' snap c,
      series (Counters (receiveAll a folds)) "hits" "" = Some c0
      ∧ Counter.Value c0 = wrap64 3
      ∧ flush (receiveAll a folds) 3 4 = Ok (a', snap)
      ∧ series (MetricMap.Counters snap) "hits" "" = Some c
      ∧ Counter.Value c = wrap64 3
      ∧ (inInt64 3 = true → Counter.Value c = 3)
      ∧ Counter.PerSecond c
        = (float64.of_int (Counter.Value c) / time.Seconds time.Second)%float.
Proof.
  intros hits a folds. split; [reflexivity|]. split; [reflexivity|].
  refine (counter_window_sum_and_rate a folds "hits" "" 3 4 _ _ _).
  - left. reflexivity.
  - discriminate.
  - intros k t x Hx. exfalso. revert Hx.
    change (Timers (receiveAll a folds)) with (∅ : types.Timers).
    rewrite series_empty. discriminate.
Defined.

(** The counter round trip of the spec: three folds of 1 in a window of one
    second give value 3 and a rate of 3.0 per second. *)
Lemma counter_round_trip_example :
  let hits := Metric.mk "hits" 1 "" [] COUNTER in
  let a := receiveAll (NewMetricAggregator [90%float] time.Second 0 1)
             [(hits, 0, 0); (hits, 1, 1); (hits, 2, 2)] in
  ∃ a' snap, flush a 3 4 = Ok (a', snap)
    ∧ series (MetricMap.Counters snap) "hits" ""
      = Some (Counter.mk 3 3%float time.Second 0).
Proof. intros hits a. eexists _, _. split; vm_compute; reflexivity. Qed.

(** ** Percentile thresholds on concrete timers *)

(** The five samples have one sorted order, so every sort returns it. *)
Lemma Float64s_fiveSamples {sorter : sort.Sorter} vs :
  vs ≡ₚ fiveSamples → sort.Float64s vs = fiveSamples.
Proof.
  intros H. pose proof (sort.Float64s_sorts vs) as Hs.
  assert (Hp : fiveSamples ≡ₚ sort.Float64s vs).
  { by rewrite Float64s_Permutation. }
  revert Hs Hp. generalize (sort.Float64s vs). intros l Hs Hp.
  apply permutations_Permutation in Hp. vm_compute in Hp.
  repeat (apply elem_of_cons in Hp as [->|Hp];
          [first [reflexivity | vm_compute in Hs; discriminate]|]).
  by apply elem_of_nil in Hp.
Qed.

(** C3 (amended).  For a timer whose samples are 1, 2, 3, 4, 5 in any
    order, with the thresholds 90 and -10 and no percentile field set
    before, the threshold -10 selects n = 1 sample, the greatest one: the
    flush emits lower_-10 = 5, count_-10 = 1, sum_-10 = 5,
    sum_squares_-10 = 25 and mean_-10 = 5. *)
Theorem five_samples_threshold_minus_10 {sorter : sort.Sorter}
  (a : MetricAggregator.t) (x : Timer.t) :
  PercentThresholds a = [90; -10]%float →
  Timer.Values x ≡ₚ fiveSamples →
  Timer.Percentiles x = [] →
  numInThresholdOf (-10) (float64.of_int 5) = 1
  ∧ ∃ x', finalizeTimer a x = Ok x'
      ∧ Percentiles_Get (Timer.Percentiles x') "lower_-10" = Some 5%float
      ∧ Percentiles_Get (Timer.Percentiles x') "count_-10" = Some 1%float
      ∧ Percentiles_Get (Timer.Percentiles x') "sum_-10" = Some 5%float
      ∧ Percentiles_Get (Timer.Percentiles x') "sum_squares_-10"
        = Some 25%float
      ∧ Percentiles_Get (Timer.Percentiles x') "mean_-10" = Some 5%float
      ∧ Percentiles_Get (Timer.Percentiles x') "upper_-10" = None.
Proof.
  intros Hp Hv Hx. split; [reflexivity|].
  unfold finalizeTimer. rewrite (Float64s_fiveSamples _ Hv), Hp, Hx.
  eexists. split; [reflexivity|]. cbn [Timer.Percentiles].
  repeat split; reflexivity.
Qed.

Lemma five_samples_threshold_minus_10_witness :
  let a := NewMetricAggregator [90; -10]%float time.Second 0 1 in
  let x := NewTimer 0 time.Second [3; 1; 5; 2; 4]%float in
  Timer.Values x ≡ₚ fiveSamples
  ∧ ∃ x', finalizeTimer a x = Ok x'
      ∧ Percentiles_Get (Timer.Percentiles x') "lower_-10" = Some 5%float
      ∧ Percentiles_Get (Timer.Percentiles x') "count_-10" = Some 1%float
      ∧ Percentiles_Get (Timer.Percentiles x') "sum_-10" = Some 5%float
      ∧ Percentiles_Get (Timer.Percentiles x') "sum_squares_-10"
        = Some 25%float
      ∧ Percentiles_Get (Timer.Percentiles x') "mean_-10" = Some 5%float
      ∧ Percentiles_Get (Timer.Percentiles x') "upper_-10" = None.
Proof.
  intros a x.
  assert (Hv : Timer.Values x ≡ₚ fiveSamples).
  { apply permutations_Permutation. vm_compute. set_solver. }
  split; [exact Hv|].
  exact (proj2 (five_samples_threshold_minus_10 a x eq_refl Hv eq_refl)).
Defined.

(** C3 (counterexample).  For the samples 1, 2, 3, 4, 5 and the thresholds
    90 and -10, the finalized timer does not carry lower_-10 = 1, whatever
    function sorts the values: the field is 5. *)
Lemma five_samples_lower_is_not_1 :
  let a := NewMetricAggregator [90; -10]%float time.Second 0 1 in
  let x := NewTimer 0 time.Second fiveSamples in
  ¬ ∃ (sorter : sort.Sorter) x', finalizeTimer a x = Ok x'
      ∧ Percentiles_Get (Timer.Percentiles x') "lower_-10" = Some 1%float
      ∧ Percentiles_Get (Timer.Percentiles x') "count_-10" = Some 1%float
      ∧ Percentiles_Get (Timer.Percentiles x') "sum_-10" = Some 1%float
      ∧ Percentiles_Get (Timer.Percentiles x') "sum_squares_-10"
        = Some 1%float
      ∧ Percentiles_Get (Timer.Percentiles x') "mean_-10" = Some 1%float.
Proof.
  intros a x (sorter & x' & Hx' & Hlower & _).
  unfold finalizeTimer in Hx'.
  rewrite (Float64s_fiveSamples (Timer.Values x)) in Hx' by reflexivity.
  apply (f_equal (λ r, match r with
                       | Ok x' =>
                           Percentiles_Get (Timer.Percentiles x') "lower_-10"
                       | Panic _ => None
                       end)) in Hx'.
  cbv beta iota in Hx'. rewrite Hlower in Hx'.
  apply (f_equal (λ o, match o with
                       | Some f => PrimFloat.eqb f 1
                       | None => false
                       end)) in Hx'.
  vm_compute in Hx'. discriminate.
Qed.

(** The upper-tail branch with the threshold 100: a timer that received
    the samples 1 and 2 gets count_100 = 2, sum_100 = 3 and upper_100 = 2,
    the maximum. *)
Lemma flush_threshold_100_example :
  let a := NewMetricAggregator [100]%float time.Second 0 1 in
  let x := NewTimer 0 time.Second [2; 1]%float in
  ∃ x', finalizeTimer a x = Ok x'
    ∧ Timer.Percentiles x'
      = [("count_100", 2); ("mean_100", 1.5); ("sum_100", 3);
         ("sum_squares_100", 5); ("upper_100", 2)]%float.
Proof. intros a x. eexists. split; vm_compute; reflexivity. Qed.

(** The lower-tail branch with the threshold -100 on a single sample: the
    loop body is skipped and lower_-100 is the sample. *)
Lemma flush_threshold_minus_100_single_sample :
  let a := NewMetricAggregator [-100]%float time.Second 0 1 in
  let x := NewTimer 0 time.Second [42]%float in
  ∃ x', finalizeTimer a x = Ok x'
    ∧ Timer.Percentiles x'
      = [("count_-100", 1); ("mean_-100", 42); ("sum_-100", 42);
         ("sum_squares_-100", 1764); ("lower_-100", 42)]%float.
Proof. intros a x. eexists. split; vm_compute; reflexivity. Qed.

(** The same panic inside the range of thresholds the glossary gives:
    -90 on five samples rounds to n = 5 = Count. *)
Lemma flush_threshold_minus_90_five_samples_panics :
  finalizeTimer (NewMetricAggregator [-90]%float time.Second 0 1)
    (NewTimer 0 time.Second fiveSamples)
  = Panic (IndexOutOfRange (-1) 5).
Proof. vm_compute. reflexivity. Qed.

(** The failing input of C1.  With the single threshold -100, a timer that
    received the samples 1 and 2 makes the flush panic: the lower-tail sum
    reads [cumulativeValues[-1]]. *)
Lemma flush_threshold_minus_100_example :
  let a := receiveAll (NewMetricAggregator [-100]%float time.Second 0 1)
             [(Metric.mk "t" 1 "" [] TIMER, 0, 0);
              (Metric.mk "t" 2 "" [] TIMER, 0, 0)] in
  flush a 1 2 = Panic (IndexOutOfRange (-1) 2).
Proof. vm_compute. reflexivity. Qed.

(** ** The statistics of a timer *)

(** *** float64 arithmetic on the sample count

    The conversion of a count below 2 ^ 53 to float64 is exact, and so are
    its halving, [math.Floor], the conversion back and the parity test
    with [math.Mod]; the primitive operations are read through their
    specification on [spec_float]. *)

Lemma digits2_pos_iter_xO p k :
  digits2_pos (Pos.iter xO p k) = (digits2_pos p + k)%positive.
Proof.
  induction k using Pos.peano_ind.
  - simpl. lia.
  - rewrite Pos.iter_succ. simpl. rewrite IHk. lia.
Qed.

Lemma Zpos_iter_xO p k : Z.pos (Pos.iter xO p k) = Z.pos p * 2 ^ Z.pos k.
Proof.
  induction k using Pos.peano_ind.
  - simpl. lia.
  - rewrite Pos.iter_succ. rewrite Pos2Z.inj_xO, IHk.
    rewrite Pos2Z.inj_succ, Z.pow_succ_r by lia. lia.
Qed.

Lemma digits2_pos_bound p : 2 ^ (Z.pos (digits2_pos p) - 1) <= Z.pos p < 2 ^ Z.pos (digits2_pos p).
Proof.
  induction p; simpl digits2_pos.
  - rewrite Pos2Z.inj_succ, (Pos2Z.inj_xI p).
    replace (Z.succ (Z.pos (digits2_pos p)) - 1) with (Z.succ (Z.pos (digits2_pos p) - 1)) by lia.
    rewrite !Z.pow_succ_r by lia.
    generalize dependent (2 ^ (Z.pos (digits2_pos p) - 1)).
    generalize (2 ^ Z.pos (digits2_pos p)). intros; lia.
  - rewrite Pos2Z.inj_succ, (Pos2Z.inj_xO p).
    replace (Z.succ (Z.pos (digits2_pos p)) - 1) with (Z.succ (Z.pos (digits2_pos p) - 1)) by lia.
    rewrite !Z.pow_succ_r by lia.
    generalize dependent (2 ^ (Z.pos (digits2_pos p) - 1)).
    generalize (2 ^ Z.pos (digits2_pos p)). intros; lia.
  - simpl. lia.
Qed.

Lemma binary_round_aux_canonical s m e :
  digits2_pos m = 53%positive -> -1074 <= e <= 971 ->
  binary_round_aux prec emax s (Z.pos m) e loc_Exact = S754_finite s m e.
Proof.
  intros Hd He. unfold binary_round_aux, shr_fexp, Zdigits2, fexp, emin, prec, emax.
  rewrite Hd.
  replace (Z.max (53 + e - 53) (3 - 1024 - 53) - e) with 0 by lia.
  simpl. rewrite Hd.
  replace (Z.max (53 + e - 53) (3 - 1024 - 53) - e) with 0 by lia.
  simpl. change (1024 - 53) with 971.
  destruct (e <=? 971) eqn:H; [reflexivity|]. apply Z.leb_gt in H. lia.
Qed.

Lemma to_Z_of_Z z : 0 <= z < 2 ^ 63 -> Uint63.to_Z (Uint63.of_Z z) = z.
Proof.
  intros H. rewrite Uint63.of_Z_spec. apply Z.mod_small.
  change Uint63.wB with (2 ^ 63). lia.
Qed.

Lemma Prim2SF_of_pos p :
  Z.pos p < 2 ^ 53 ->
  Prim2SF (of_uint63 (Uint63.of_Z (Z.pos p)))
  = S754_finite false (normalized p) (Z.pos (digits2_pos p) - 53).
Proof.
  intros Hp. rewrite of_uint63_spec. rewrite to_Z_of_Z by lia.
  unfold binary_normalize, binary_round, normalized.
  pose proof (digits2_pos_bound p) as [Hlo Hhi].
  assert (Hd : Z.pos (digits2_pos p) <= 53).
  { destruct (Z.le_gt_cases (Z.pos (digits2_pos p)) 53) as [H|H]; [exact H|].
    assert (2 ^ 53 <= 2 ^ (Z.pos (digits2_pos p) - 1)) by (apply Z.pow_le_mono_r; lia).
    lia. }
  unfold shl_align, fexp, emin, prec, emax.
  replace (Z.max (Z.pos (digits2_pos p) + 0 - 53) (3 - 1024 - 53))
    with (Z.pos (digits2_pos p) - 53) by lia.
  rewrite Z.sub_0_r.
  destruct (53 - Z.pos (digits2_pos p)) as [|k|k] eqn:Hk.
  - replace (Z.pos (digits2_pos p) - 53) with 0 by lia.
    apply binary_round_aux_canonical; [|lia]. lia.
  - replace (Z.pos (digits2_pos p) - 53) with (Z.neg k) by lia.
    apply binary_round_aux_canonical; [|lia].
    rewrite digits2_pos_iter_xO. lia.
  - lia.
Qed.

Lemma Prim2SF_two : Prim2SF 2 = S754_finite false 4503599627370496 (-51).
Proof. reflexivity. Qed.

Lemma div_eucl_shift m :
  Z.div_eucl (Z.shiftl (Z.pos m) 53) 4503599627370496 = (Z.pos m~0, 0).
Proof.
  rewrite Z.shiftl_mul_pow2 by lia.
  assert (H : Z.pos m * 2 ^ 53 = Z.pos m~0 * 4503599627370496) by lia.
  rewrite H.
  pose proof (Z.div_eucl_eq (Z.pos m~0 * 4503599627370496) 4503599627370496) as Heq.
  pose proof (Z.mod_pos_bound (Z.pos m~0 * 4503599627370496) 4503599627370496) as Hb.
  unfold Z.modulo in Hb.
  destruct (Z.div_eucl (Z.pos m~0 * 4503599627370496) 4503599627370496) as [q r].
  specialize (Heq ltac:(lia)). specialize (Hb ltac:(lia)).
  assert (q = Z.pos m~0) by nia. assert (r = 0) by nia. congruence.
Qed.

Lemma SFdiv_two m e :
  digits2_pos m = 53%positive -> -1072 <= e <= 971 ->
  SFdiv prec emax (S754_finite false m e)
    (S754_finite false 4503599627370496 (-51))
  = S754_finite false m (e - 1).
Proof.
  intros Hd He. unfold SFdiv, SFdiv_core_binary, Zdigits2.
  rewrite Hd. change (digits2_pos 4503599627370496) with 53%positive.
  unfold fexp, emin, prec, emax.
  replace (Z.min (Z.max (53 + e - (53 + -51) - 53) (3 - 1024 - 53)) (e - -51))
    with (e - 2) by lia.
  replace (e - -51 - (e - 2)) with 53 by lia.
  change IntDef.Z.div_eucl with Z.div_eucl. change IntDef.Z.shiftl with Z.shiftl.
  rewrite div_eucl_shift.
  change (new_location 4503599627370496 0) with loc_Exact.
  change (xorb false false) with false.
  unfold binary_round_aux, shr_fexp, Zdigits2, fexp, emin.
  simpl digits2_pos. rewrite Hd.
  replace (Z.max (Z.pos (Pos.succ 53) + (e - 2) - 53) (3 - 1024 - 53) - (e - 2))
    with 1 by lia.
  simpl. rewrite Hd.
  replace (Z.max (53 + (e - 2 + 1) - 53) (3 - 1024 - 53) - (e - 2 + 1)) with 0 by lia.
  simpl. replace (e - 2 + 1) with (e - 1) by lia.
  change (1024 - 53) with 971.
  destruct (e - 1 <=? 971) eqn:H; [reflexivity|]. apply Z.leb_gt in H. lia.
Qed.

Lemma digits2_pos_le53 p : Z.pos p < 2 ^ 53 -> Z.pos (digits2_pos p) <= 53.
Proof.
  intros Hp. pose proof (digits2_pos_bound p) as [Hlo Hhi].
  destruct (Z.le_gt_cases (Z.pos (digits2_pos p)) 53) as [H|H]; [exact H|].
  assert (2 ^ 53 <= 2 ^ (Z.pos (digits2_pos p) - 1)) by (apply Z.pow_le_mono_r; lia).
  lia.
Qed.

Lemma digits_normalized p :
  Z.pos p < 2 ^ 53 -> digits2_pos (normalized p) = 53%positive.
Proof.
  intros Hp. pose proof (digits2_pos_le53 p Hp). unfold normalized.
  destruct (53 - Z.pos (digits2_pos p)) as [|k|k] eqn:Hk; [lia| |lia].
  rewrite digits2_pos_iter_xO. lia.
Qed.

Lemma Zpos_normalized p :
  Z.pos p < 2 ^ 53 ->
  Z.pos (normalized p) = Z.pos p * 2 ^ (53 - Z.pos (digits2_pos p)).
Proof.
  intros Hp. pose proof (digits2_pos_le53 p Hp). unfold normalized.
  destruct (53 - Z.pos (digits2_pos p)) as [|k|k] eqn:Hk; [simpl; lia| |lia].
  apply Zpos_iter_xO.
Qed.

Lemma of_int_pos p :
  Z.pos p < 2 ^ 53 -> float64.of_int (Z.pos p) = of_uint63 (Uint63.of_Z (Z.pos p)).
Proof.
  intros Hp. unfold float64.of_int, float64.of_spec_mag.
  destruct (Z.pos p =? minInt64) eqn:H; [apply Z.eqb_eq in H; unfold minInt64 in H; lia|].
  reflexivity.
Qed.

Lemma to_int_of_nonneg q :
  0 <= q < 2 ^ 53 -> float64.to_int (of_uint63 (Uint63.of_Z q)) = q.
Proof.
  intros Hq. destruct q as [|q|q]; [reflexivity| |lia].
  unfold float64.to_int. rewrite Prim2SF_of_pos by lia.
  pose proof (digits2_pos_le53 q ltac:(lia)) as Hd.
  rewrite Zpos_normalized by lia.
  assert (Hmag : (if 0 <=? Z.pos (digits2_pos q) - 53
                  then Z.shiftl (Z.pos q * 2 ^ (53 - Z.pos (digits2_pos q)))
                         (Z.pos (digits2_pos q) - 53)
                  else Z.shiftr (Z.pos q * 2 ^ (53 - Z.pos (digits2_pos q)))
                         (- (Z.pos (digits2_pos q) - 53))) = Z.pos q).
  { destruct (0 <=? Z.pos (digits2_pos q) - 53) eqn:H.
    - apply Z.leb_le in H. replace (Z.pos (digits2_pos q) - 53) with 0 by lia.
      replace (53 - Z.pos (digits2_pos q)) with 0 by lia.
      rewrite Z.shiftl_0_r. lia.
    - apply Z.leb_gt in H. rewrite Z.shiftr_div_pow2 by lia.
      replace (- (Z.pos (digits2_pos q) - 53)) with (53 - Z.pos (digits2_pos q)) by lia.
      apply Z.div_mul. apply Z.pow_nonzero; lia. }
  cbv zeta. rewrite Hmag.
  assert (Hin : inInt64 (Z.pos q) = true).
  { unfold inInt64, minInt64, maxInt64. apply andb_true_intro.
    split; apply Z.leb_le; lia. }
  rewrite Hin. reflexivity.
Qed.

Lemma Floor_half p :
  Z.pos p < 2 ^ 53 ->
  math.Floor (float64.of_int (Z.pos p) / 2)
  = of_uint63 (Uint63.of_Z (Z.pos p / 2)).
Proof.
  intros Hp. unfold math.Floor.
  rewrite FloatAxioms.div_spec, of_int_pos, Prim2SF_of_pos, Prim2SF_two by lia.
  pose proof (digits2_pos_le53 p Hp) as Hd.
  unfold SF64div. rewrite SFdiv_two; [|by apply digits_normalized|lia].
  destruct (0 <=? Z.pos (digits2_pos p) - 53 - 1) eqn:H;
    [apply Z.leb_le in H; lia|].
  rewrite Zpos_normalized by lia.
  rewrite Z.shiftr_div_pow2 by lia.
  replace (- (Z.pos (digits2_pos p) - 53 - 1))
    with (Z.succ (53 - Z.pos (digits2_pos p))) by lia.
  rewrite Z.pow_succ_r by lia.
  rewrite Z.div_mul_cancel_r by (try apply Z.pow_nonzero; lia).
  unfold float64.of_spec_mag. rewrite Z.abs_eq by (apply Z.div_pos; lia).
  reflexivity.
Qed.

Lemma Mod_two_parity p :
  Z.pos p < 2 ^ 53 ->
  (math.Mod (float64.of_int (Z.pos p)) 2 =? 0)%float = Z.even (Z.pos p).
Proof.
  intros Hp.
  destruct (Z.le_gt_cases (Z.pos p) 3) as [Hsmall|Hbig].
  { assert (Hc : p = 1%positive \/ p = 2%positive \/ p = 3%positive) by lia.
    destruct Hc as [->|[->| ->]]; reflexivity. }
  pose proof (digits2_pos_bound p) as [Hlo Hhi].
  pose proof (digits2_pos_le53 p Hp) as Hd.
  assert (Hd3 : 3 <= Z.pos (digits2_pos p)).
  { destruct (Z.le_gt_cases 3 (Z.pos (digits2_pos p))) as [H|H]; [exact H|].
    assert (2 ^ Z.pos (digits2_pos p) <= 2 ^ 2) by (apply Z.pow_le_mono_r; lia).
    change (2 ^ 2) with 4 in *. lia. }
  unfold math.Mod.
  rewrite of_int_pos, Prim2SF_of_pos, Prim2SF_two by lia.
  cbv zeta.
  replace (Z.min (Z.pos (digits2_pos p) - 53) (-51)) with (-51) by lia.
  change (Z.shiftl 4503599627370496 (-51 - -51)) with 4503599627370496.
  rewrite Z.shiftl_mul_pow2 by lia.
  rewrite Zpos_normalized by lia.
  rewrite <- Z.mul_assoc, <- Z.pow_add_r by lia.
  replace (53 - Z.pos (digits2_pos p) + (Z.pos (digits2_pos p) - 53 - -51))
    with 51 by lia.
  change 4503599627370496 with (2 * 2 ^ 51).
  rewrite Z.mul_mod_distr_r by lia.
  destruct p as [q|q|].
  - rewrite Pos2Z.inj_xI.
    replace ((2 * Z.pos q + 1) mod 2) with 1
      by (rewrite Z.add_comm, Z.mul_comm, Z.mod_add; [reflexivity|lia]).
    reflexivity.
  - rewrite (Pos2Z.inj_xO q).
    replace ((2 * Z.pos q) mod 2) with 0
      by (rewrite Z.mul_comm, Z.mod_mul; [reflexivity|lia]).
    reflexivity.
  - lia.
Qed.

Lemma halvingExact_all n : 1 <= n < 2 ^ 53 -> halvingExact n = true.
Proof.
  intros Hn. destruct n as [|p|p]; [lia| |lia].
  unfold halvingExact. cbv zeta.
  rewrite Floor_half, to_int_of_nonneg, Mod_two_parity; try lia.
  - rewrite Z.eqb_refl, Bool.eqb_reflx. reflexivity.
  - split; [apply Z.div_pos; lia|].
    apply Z.div_lt_upper_bound; lia.
Qed.

(** *** float64 arithmetic of a threshold of 100 percent

    For a count below 2 ^ 52 the product [1 * count], the sum with 0.5 and
    its floor are exact: [round (|P| / 100 * count)] is the count when
    [|P|] is 100. *)

Lemma Prim2SF_one : Prim2SF 1 = S754_finite false 4503599627370496 (-52).
Proof. reflexivity. Qed.

Lemma Prim2SF_half : Prim2SF 0.5 = S754_finite false 4503599627370496 (-53).
Proof. reflexivity. Qed.

Lemma iter_shr_1_exact k m :
  SpecFloat.iter_pos shr_1 k {| shr_m := Z.pos (Pos.iter xO m k); shr_r := false; shr_s := false |}
  = {| shr_m := Z.pos m; shr_r := false; shr_s := false |}.
Proof.
  revert m. induction k as [k IH|k IH|]; intros m.
  - cbn [SpecFloat.iter_pos Pos.iter shr_1 orb]. rewrite IH. apply IH.
  - cbn [SpecFloat.iter_pos Pos.iter]. rewrite IH. apply IH.
  - reflexivity.
Qed.

Lemma SFmul_one m e :
  digits2_pos m = 53%positive -> -1074 <= e <= 971 ->
  SFmul prec emax (S754_finite false 4503599627370496 (-52))
    (S754_finite false m e)
  = S754_finite false m e.
Proof.
  intros Hd He. unfold SFmul. change (xorb false false) with false.
  change (4503599627370496 * m)%positive with (Pos.iter xO m 52).
  unfold binary_round_aux, shr_fexp, Zdigits2, fexp, emin, prec, emax.
  rewrite digits2_pos_iter_xO, Hd.
  replace (Z.max (Z.pos (53 + 52) + (-52 + e) - 53) (3 - 1024 - 53) - (-52 + e))
    with 52 by lia.
  unfold shr, shr_record_of_loc. rewrite iter_shr_1_exact.
  cbn [shr_m loc_of_shr_record round_nearest_even Zdigits2]. rewrite Hd.
  replace (Z.max (53 + (-52 + e + 52) - 53) (3 - 1024 - 53) - (-52 + e + 52))
    with 0 by lia.
  cbn [shr_m]. replace (-52 + e + 52) with e by lia.
  change (1024 - 53) with 971.
  destruct (e <=? 971) eqn:H; [reflexivity|]. apply Z.leb_gt in H. lia.
Qed.

Lemma digits2_pos_le52 p : Z.pos p < 2 ^ 52 -> Z.pos (digits2_pos p) <= 52.
Proof.
  intros Hp. pose proof (digits2_pos_bound p) as [Hlo Hhi].
  destruct (Z.le_gt_cases (Z.pos (digits2_pos p)) 52) as [H|H]; [exact H|].
  assert (2 ^ 52 <= 2 ^ (Z.pos (digits2_pos p) - 1)) by (apply Z.pow_le_mono_r; lia).
  lia.
Qed.

Lemma pow2_split a b : 0 <= a -> 0 <= b -> 2 ^ a * 2 ^ b = 2 ^ (a + b).
Proof. intros. symmetry. by apply Z.pow_add_r. Qed.

Lemma SFadd_half p :
  Z.pos p < 2 ^ 52 ->
  SFadd prec emax
    (S754_finite false (normalized p) (Z.pos (digits2_pos p) - 53))
    (S754_finite false 4503599627370496 (-53))
  = S754_finite false (normalized p~1) (Z.pos (digits2_pos p) - 53).
Proof.
  intros Hp. pose proof (digits2_pos_le52 p Hp) as Hd.
  set (d := digits2_pos p) in *.
  assert (Hp1 : Z.pos p~1 < 2 ^ 53).
  { rewrite Pos2Z.inj_xI. change (2 ^ 53) with (2 * 2 ^ 52). lia. }
  assert (Hd1 : digits2_pos p~1 = Pos.succ d) by reflexivity.
  assert (HM : (Pos.iter xO (normalized p) d + 4503599627370496)%positive
               = Pos.iter xO (normalized p~1) d).
  { apply Pos2Z.inj. rewrite Pos2Z.inj_add, !Zpos_iter_xO.
    rewrite !Zpos_normalized by lia. rewrite Hd1. fold d.
    rewrite <- !Z.mul_assoc, !pow2_split by lia.
    replace (53 - Z.pos d + Z.pos d) with 53 by lia.
    replace (53 - Z.pos (Pos.succ d) + Z.pos d) with 52 by lia.
    rewrite Pos2Z.inj_xI. change (2 ^ 53) with (2 * 2 ^ 52).
    change (Z.pos 4503599627370496) with (2 ^ 52). lia. }
  unfold SFadd.
  replace (Z.min (Z.pos d - 53) (-53)) with (-53) by lia.
  unfold shl_align at 1.
  replace (-53 - (Z.pos d - 53)) with (Z.neg d) by lia.
  change (shl_align 4503599627370496 (-53) (-53)) with (4503599627370496%positive, -53).
  cbn [fst cond_Zopp].
  change (Z.pos (PosDef.Pos.iter xO (normalized p) d) + 4503599627370496)
    with (Z.pos (Pos.iter xO (normalized p) d + 4503599627370496)).
  rewrite HM.
  unfold binary_normalize, binary_round.
  rewrite digits2_pos_iter_xO, (digits_normalized _ Hp1).
  unfold fexp, emin, prec, emax.
  replace (Z.max (Z.pos (53 + d) + -53 - 53) (3 - 1024 - 53)) with (Z.pos d - 53) by lia.
  unfold shl_align.
  replace (Z.pos d - 53 - -53) with (Z.pos d) by lia.
  unfold binary_round_aux, shr_fexp, Zdigits2, fexp, emin.
  rewrite digits2_pos_iter_xO, (digits_normalized _ Hp1).
  replace (Z.max (Z.pos (53 + d) + -53 - 53) (3 - 1024 - 53) - -53) with (Z.pos d) by lia.
  unfold shr, shr_record_of_loc. rewrite iter_shr_1_exact.
  cbn [shr_m loc_of_shr_record round_nearest_even Zdigits2].
  rewrite (digits_normalized _ Hp1).
  replace (Z.max (53 + (-53 + Z.pos d) - 53) (3 - 1024 - 53) - (-53 + Z.pos d))
    with 0 by lia.
  cbn [shr_m]. replace (-53 + Z.pos d) with (Z.pos d - 53) by lia.
  change (1024 - 53) with 971.
  destruct (Z.pos d - 53 <=? 971) eqn:H; [reflexivity|]. apply Z.leb_gt in H. lia.
Qed.

Lemma round_of_int p :
  Z.pos p < 2 ^ 52 ->
  float64.to_int (round (1 * float64.of_int (Z.pos p))%float) = Z.pos p.
Proof.
  intros Hp. pose proof (digits2_pos_le52 p Hp) as Hd.
  assert (Hp1 : Z.pos p~1 < 2 ^ 53).
  { rewrite Pos2Z.inj_xI. change (2 ^ 53) with (2 * 2 ^ 52). lia. }
  assert (Hfloor : math.Floor (1 * float64.of_int (Z.pos p) + 0.5)%float
                   = of_uint63 (Uint63.of_Z (Z.pos p))).
  { unfold math.Floor.
    rewrite FloatAxioms.add_spec, FloatAxioms.mul_spec, Prim2SF_one, Prim2SF_half.
    rewrite of_int_pos, Prim2SF_of_pos by lia.
    unfold SF64add, SF64mul.
    rewrite SFmul_one; [|apply digits_normalized; lia|lia].
    rewrite SFadd_half by lia.
    destruct (0 <=? Z.pos (digits2_pos p) - 53) eqn:H;
      [apply Z.leb_le in H; lia|].
    rewrite Zpos_normalized by lia.
    change (digits2_pos p~1) with (Pos.succ (digits2_pos p)).
    rewrite Z.shiftr_div_pow2 by lia.
    replace (- (Z.pos (digits2_pos p) - 53))
      with (Z.succ (53 - Z.pos (Pos.succ (digits2_pos p)))) by lia.
    rewrite Z.pow_succ_r by lia.
    rewrite Z.div_mul_cancel_r by (try apply Z.pow_nonzero; lia).
    rewrite Pos2Z.inj_xI.
    replace ((2 * Z.pos p + 1) / 2) with (Z.pos p)
      by (apply Z.div_unique with 1; lia).
    reflexivity. }
  unfold round. rewrite Hfloor. apply to_int_of_nonneg. lia.
Qed.

Lemma numInThreshold_100 n :
  1 <= n < 2 ^ 52 -> numInThresholdOf 100 (float64.of_int n) = n.
Proof.
  intros Hn. destruct n as [|p|p]; [lia| |lia].
  unfold numInThresholdOf.
  change (math.Abs 100 / 100)%float with 1%float.
  apply round_of_int. lia.
Qed.

Lemma numInThreshold_minus_100 n :
  1 <= n < 2 ^ 52 -> numInThresholdOf (-100) (float64.of_int n) = n.
Proof.
  intros Hn. destruct n as [|p|p]; [lia| |lia].
  unfold numInThresholdOf.
  change (math.Abs (-100) / 100)%float with 1%float.
  apply round_of_int. lia.
Qed.

Lemma index_lookup (l : list float) (i : nat) x :
  l !! i = Some x → index l (Z.of_nat i) = Ok x.
Proof.
  intros H. unfold index. rewrite Nat2Z.id.
  destruct (0 <=? Z.of_nat i) eqn:Hi; [by rewrite H|].
  apply Z.leb_gt in Hi. lia.
Qed.

Lemma index_inrange (l : list float) (i : Z) :
  0 ≤ i < Z.of_nat (length l) →
  index l i = Ok (nth (Z.to_nat i) l 0%float).
Proof.
  intros Hi. rewrite <- (Z2Nat.id i) at 1 by lia.
  apply index_lookup.
  destruct (nth_lookup_or_length l (Z.to_nat i) 0%float) as [H|H]; [exact H|lia].
Qed.

Lemma even_of_nat n : Z.even (Z.of_nat n) = Nat.even n.
Proof.
  induction n as [|n IH]; [done|].
  rewrite Nat2Z.inj_succ, Z.even_succ, Nat.even_succ.
  rewrite <- Z.negb_even, <- Nat.negb_even. by rewrite IH.
Qed.

Lemma length_cumulate f prev vs : length (cumulate f prev vs) = length vs.
Proof.
  revert prev. induction vs as [|v vs IH]; intros prev; simpl; [done|].
  by rewrite IH.
Qed.

Lemma last_cumulate f prev vs :
  (prev :: cumulate f prev vs) !! length vs
  = Some (foldl (λ acc v, (f v + acc)%float) prev vs).
Proof.
  revert prev. induction vs as [|v vs IH]; intros prev; simpl; [done|].
  apply IH.
Qed.

Lemma wrap64_inrange z : minInt64 ≤ z ≤ maxInt64 → wrap64 z = z.
Proof.
  intros [H1 H2]. apply wrap64_small. unfold inInt64.
  apply andb_true_intro. split; by apply Z.leb_le.
Qed.

Lemma thresholdBody_Ok values cumulativeValues cumulSumSquaresValues pct st :
  let Count := Z.of_nat (length values) in
  length cumulativeValues = length values →
  length cumulSumSquaresValues = length values →
  Count ≤ maxInt64 →
  thresholdInRange Count pct = true →
  ∃ st', thresholdBody values cumulativeValues cumulSumSquaresValues Count
           (float64.of_int Count) pct st = Ok st'.
Proof.
  intros Count Hl1 Hl2 Hmax Hin. unfold thresholdBody, thresholdInRange in *.
  destruct (1 <? Count) eqn:H1; [|eauto].
  apply Z.ltb_lt in H1. cbv zeta in Hin.
  set (n := numInThresholdOf pct (float64.of_int Count)) in *.
  destruct (n =? 0) eqn:Hn0; [eauto|]. simpl in Hin.
  assert (Hmin : minInt64 ≤ 0) by (unfold minInt64; lia).
  destruct (0 <? pct)%float.
  - apply andb_prop in Hin as [Ha Hb]. apply Z.leb_le in Ha, Hb.
    rewrite (wrap64_inrange (n - 1)) by lia.
    rewrite !index_inrange by lia. rewrite !Ok_bind. eauto.
  - apply andb_prop in Hin as [Ha Hb]. apply Z.leb_le in Ha. apply Z.ltb_lt in Hb.
    rewrite (wrap64_inrange (Count - n)) by lia.
    rewrite (wrap64_inrange (Count - 1)) by lia.
    rewrite (wrap64_inrange (Count - n - 1)) by lia.
    rewrite !index_inrange by lia. rewrite !Ok_bind. eauto.
Qed.

Lemma thresholds_Ok values cumulativeValues cumulSumSquaresValues pcts :
  let Count := Z.of_nat (length values) in
  length cumulativeValues = length values →
  length cumulSumSquaresValues = length values →
  Count ≤ maxInt64 →
  forallb (thresholdInRange Count) pcts = true →
  ∀ st, ∃ st',
    foldM (thresholdBody values cumulativeValues cumulSumSquaresValues Count
             (float64.of_int Count)) pcts st = Ok st'.
Proof.
  intros Count Hl1 Hl2 Hmax. subst Count.
  induction pcts as [|pct pcts IH]; intros Hin st.
  - simpl. eauto.
  - simpl in Hin. apply andb_prop in Hin as [Hp Hin]. simpl.
    destruct (thresholdBody_Ok values cumulativeValues cumulSumSquaresValues
                pct st Hl1 Hl2 Hmax Hp) as [st1 ->].
    rewrite Ok_bind. by apply IH.
Qed.

(** The finalization of a timer, given that the percentile loop stays in
    range and that halving the count is exact. *)
Lemma finalizeTimer_statistics {sorter : sort.Sorter} a x :
  let vs := sort.Float64s (Timer.Values x) in
  let n := length vs in
  Timer.Values x ≠ [] →
  Z.of_nat n ≤ maxInt64 →
  forallb (thresholdInRange (Z.of_nat n)) (PercentThresholds a) = true →
  halvingExact (Z.of_nat n) = true →
  ∃ x', finalizeTimer a x = Ok x'
    ∧ Timer.Count x' = Z.of_nat n
    ∧ Timer.Sum x' = floatSum vs
    ∧ Timer.SumSquares x' = floatSum (square <$> vs)
    ∧ Timer.Mean x' = (Timer.Sum x' / float64.of_int (Z.of_nat n))%float
    ∧ Timer.StdDev x'
      = math.Sqrt (sumOfSquaredDiffs (Timer.Mean x') vs
                     / float64.of_int (Z.of_nat n))%float
    ∧ Timer.Median x'
      = (if Nat.even n
         then ((nth (n / 2 - 1) vs 0 + nth (n / 2) vs 0) / 2)%float
         else nth (n / 2)%nat vs 0%float).
Proof.
  intros vs n Hne Hmax Hin Hhalf.
  assert (Hn : (1 ≤ n)%nat).
  { unfold n, vs. rewrite (Permutation_length (Float64s_Permutation _)).
    destruct (Timer.Values x); [done|simpl; lia]. }
  unfold finalizeTimer. fold vs. cbv zeta.
  assert (Hlen : length vs = n) by reflexivity.
  clearbody n. clearbody vs.
  destruct vs as [|v0 rest]; simpl in Hlen; [lia|]. subst n.
  set (n := S (length rest)) in *.
  change (length (v0 :: rest)) with n. cbn [tail].
  rewrite (index_inrange (v0 :: rest) 0) by (simpl; lia).
  rewrite (index_inrange (v0 :: rest) (Z.of_nat n - 1)) by (simpl; lia).
  rewrite !Ok_bind.
  destruct (thresholds_Ok (v0 :: rest) (v0 :: cumulate id v0 rest)
              ((v0 * v0)%float :: cumulate (λ v, (v * v)%float) (v0 * v0)%float rest)
              (PercentThresholds a)) with
    (st := mkThresholdVars (v0 * v0)%float v0 v0
             (nth (Z.to_nat (Z.of_nat n - 1)) (v0 :: rest) 0%float)
             (Timer.Percentiles x)) as [st Hst].
  { simpl. by rewrite length_cumulate. }
  { simpl. by rewrite length_cumulate. }
  { exact Hmax. }
  { exact Hin. }
  change (nth (Z.to_nat 0) (v0 :: rest) 0%float) with v0.
  change (length (v0 :: rest)) with n in Hst.
  rewrite Hst. rewrite Ok_bind.
  replace (Z.of_nat n - 1) with (Z.of_nat (length rest)) by lia.
  rewrite (index_lookup _ _ _ (last_cumulate id v0 rest)).
  rewrite (index_lookup _ _ _
             (last_cumulate (λ v, (v * v)%float) (v0 * v0)%float rest)).
  rewrite !Ok_bind.
  unfold halvingExact in Hhalf. apply andb_prop in Hhalf as [Hmid Hpar].
  apply Z.eqb_eq in Hmid. apply Bool.eqb_prop in Hpar.
  rewrite Hmid, Hpar.
  assert (Hdiv : Z.to_nat (Z.of_nat n / 2) = (n / 2)%nat).
  { rewrite <- (Nat2Z.id (n / 2)). f_equal. by rewrite Nat2Z.inj_div. }
  assert (Hhalf_lt : 0 ≤ Z.of_nat n / 2 < Z.of_nat n).
  { split; [apply Z.div_pos; lia|]. apply Z.div_lt; lia. }
  rewrite even_of_nat.
  assert (Hsq : foldl (λ acc v, (v * v + acc)%float) (v0 * v0)%float rest
                = floatSum (square <$> v0 :: rest)).
  { simpl. clear. induction rest as [|r rest IH] using rev_ind; [done|].
    rewrite fmap_app, !foldl_app. simpl. by rewrite IH. }
  destruct (Nat.even n) eqn:Heven.
  - assert (Hn2 : (2 ≤ n)%nat).
    { unfold n in *. destruct (length rest); [discriminate|lia]. }
    assert (1 ≤ Z.of_nat n / 2).
    { apply Z.div_le_lower_bound; lia. }
    rewrite (wrap64_inrange (Z.of_nat n / 2 - 1))
      by (unfold minInt64, maxInt64 in *; lia).
    rewrite !index_inrange by (change (length (v0 :: rest)) with n; lia).
    rewrite !Ok_bind.
    replace (Z.to_nat (Z.of_nat n / 2 - 1)) with (n / 2 - 1)%nat by lia.
    rewrite Hdiv.
    eexists. split; [reflexivity|]. cbn [Timer.Count Timer.Sum Timer.SumSquares
      Timer.Mean Timer.StdDev Timer.Median].
    repeat split; try reflexivity. exact Hsq.
  - rewrite !index_inrange by (change (length (v0 :: rest)) with n; lia).
    rewrite !Ok_bind. rewrite Hdiv.
    eexists. split; [reflexivity|]. cbn [Timer.Count Timer.Sum Timer.SumSquares
      Timer.Mean Timer.StdDev Timer.Median].
    repeat split; try reflexivity. exact Hsq.
Qed.

(** Every timer finalizes when, for each timer with samples, the count is
    below 2 ^ 53 and the thresholds are in range for it. *)
Lemma timersFinalize_inRange {sorter : sort.Sorter} a :
  (∀ k t x, series (Timers a) k t = Some x →
     Z.of_nat (length (Timer.Values x)) < 2 ^ 53
     ∧ forallb (thresholdInRange (Z.of_nat (length (Timer.Values x))))
         (PercentThresholds a) = true) →
  timersFinalize a.
Proof.
  intros H k t x Hx Hne. destruct (H k t x Hx) as [Hn Hin].
  pose proof (Permutation_length (Float64s_Permutation (Timer.Values x))) as Hl.
  destruct (finalizeTimer_statistics a x Hne) as (x' & Hx' & _).
  - rewrite Hl. unfold maxInt64. lia.
  - by rewrite Hl.
  - apply halvingExact_all. rewrite Hl.
    destruct (Timer.Values x); [done|]. cbn [length] in *. lia.
  - eauto.
Qed.

(** C8.  For a timer with samples [v1 .. vn], [1 ≤ n < 2 ^ 53], and
    thresholds in range for [n], the flush finalization returns, and with
    [vs] the samples as the sort leaves them (a permutation of the samples
    in increasing order, whatever order the sort gives to samples that
    compare equal) it computes: sum, the float64 sum of [vs]; sum of
    squares, the float64 sum of their squares; mean, sum / n; standard
    deviation, the square root of the sum of the squared distances to the
    mean divided by n (population form); median,
    [(vs[n/2 - 1] + vs[n/2]) / 2] when [n] is even and [vs[n/2]] when it is
    odd.  A flush that returns stores that record, with the values [vs],
    and hands it out. *)
Theorem timer_statistics {sorter : sort.Sorter}
  (a : MetricAggregator.t) (x : Timer.t) :
  let vs := sort.Float64s (Timer.Values x) in
  let n := length vs in
  Timer.Values x ≠ [] →
  Z.of_nat n < 2 ^ 53 →
  forallb (thresholdInRange (Z.of_nat n)) (PercentThresholds a) = true →
  ∃ x', finalizeTimer a x = Ok x'
    ∧ Timer.Count x' = Z.of_nat n
    ∧ Timer.Sum x' = floatSum vs
    ∧ Timer.SumSquares x' = floatSum (square <$> vs)
    ∧ Timer.Mean x' = (Timer.Sum x' / float64.of_int (Z.of_nat n))%float
    ∧ Timer.StdDev x'
      = math.Sqrt (sumOfSquaredDiffs (Timer.Mean x') vs
                     / float64.of_int (Z.of_nat n))%float
    ∧ Timer.Median x'
      = (if Nat.even n
         then ((nth (n / 2 - 1) vs 0 + nth (n / 2) vs 0) / 2)%float
         else nth (n / 2)%nat vs 0%float)
    ∧ Timer.Values x' = vs
    ∧ vs ≡ₚ Timer.Values x
    ∧ sort.Float64sAreSorted vs = true
    ∧ ∀ k t startTime endTime a' snap,
        series (Timers a) k t = Some x →
        flush a startTime endTime = Ok (a', snap) →
        series (Timers a') k t = Some x'
        ∧ series (MetricMap.Timers snap) k t = Some x'.
Proof.
  intros vs n Hne Hn Hin.
  assert (Hn1 : (1 ≤ n)%nat).
  { unfold n, vs. rewrite (Permutation_length (Float64s_Permutation _)).
    destruct (Timer.Values x); [done|simpl; lia]. }
  destruct (finalizeTimer_statistics a x Hne) as (x' & Hx' & Hstats).
  { fold vs. fold n. unfold maxInt64. lia. }
  { exact Hin. }
  { apply halvingExact_all. fold vs. fold n. lia. }
  exists x'. split; [done|].
  destruct Hstats as (H1 & H2 & H3 & H4 & H5 & H6).
  repeat (split; [assumption|]).
  split; [exact (proj1 (finalizeTimer_frame a x x' Hx'))|].
  split; [apply Float64s_Permutation|].
  split; [apply sort.Float64s_sorts|].
  intros k t startTime endTime a' snap Hx Hf.
  apply flush_inv in Hf as (_ & Ht & _ & _ & _ & _ & Hsnap & _).
  rewrite Hsnap, Ht, Hx. cbn. rewrite (flushTimer_finalized a x x' Hne Hx').
  done.
Qed.

Lemma timer_statistics_witness :
  let a := NewMetricAggregator [90; -10]%float time.Second 0 1 in
  let x := NewTimer 0 time.Second [4; 1; 3; 2]%float in
  (Timer.Values x ≠ []
   ∧ Z.of_nat (length (sort.Float64s (Timer.Values x))) < 2 ^ 53)
  ∧ ∃ x', finalizeTimer a x = Ok x'
      ∧ Timer.Sum x' = floatSum [1; 2; 3; 4]%float
      ∧ Timer.SumSquares x' = floatSum (square <$> [1; 2; 3; 4]%float)
      ∧ Timer.Mean x' = (Timer.Sum x' / 4)%float
      ∧ Timer.StdDev x'
        = math.Sqrt (sumOfSquaredDiffs (Timer.Mean x') [1; 2; 3; 4]%float / 4)%float
      ∧ Timer.Median x' = ((2 + 3) / 2)%float.
Proof.
  intros a x.
  assert (H1 : Timer.Values x ≠ []) by discriminate.
  assert (H2 : Z.of_nat (length (sort.Float64s (Timer.Values x)))
               < 2 ^ 53) by (vm_compute; reflexivity).
  split; [by split|].
  destruct (timer_statistics a x H1 H2 eq_refl)
    as (x' & Hx' & _ & Hsum & Hsq & Hmean & Hsd & Hmed & _).
  exists x'. by repeat split.
Defined.

(** ** A threshold of 100 percent, upper and lower *)

Lemma Percentiles_Get_Set_eq p k v :
  Percentiles_Get (Percentiles_Set p k v) k = Some v.
Proof.
  induction p as [|[k' w] p IH]; simpl.
  - by rewrite String.eqb_refl.
  - destruct (String.eqb k' k) eqn:H; simpl; rewrite H; [done|exact IH].
Qed.

Lemma Percentiles_Get_Set_ne p k k' v :
  k ≠ k' → Percentiles_Get (Percentiles_Set p k v) k' = Percentiles_Get p k'.
Proof.
  intros Hne. induction p as [|[k0 w] p IH]; simpl.
  - destruct (String.eqb k k') eqn:H; [|done].
    apply String.eqb_eq in H. done.
  - destruct (String.eqb k0 k) eqn:H; simpl.
    + apply String.eqb_eq in H. subst k0.
      destruct (String.eqb k k') eqn:H'; [|done].
      apply String.eqb_eq in H'. done.
    + destruct (String.eqb k0 k'); [done|exact IH].
Qed.

(** The upper-tail branch handles a threshold of 100: on a timer with
    [2 ≤ n < 2 ^ 52] samples it selects all [n] of them and emits the count,
    the total sum and the greatest sample. *)
Lemma thresholdBody_100 values cumulativeValues cumulSumSquaresValues st :
  let Count := Z.of_nat (length values) in
  length cumulativeValues = length values →
  length cumulSumSquaresValues = length values →
  2 ≤ Count < 2 ^ 52 →
  ∃ st', thresholdBody values cumulativeValues cumulSumSquaresValues Count
           (float64.of_int Count) 100 st = Ok st'
    ∧ Percentiles_Get (percentiles st') "count_100"
      = Some (float64.of_int Count)
    ∧ Percentiles_Get (percentiles st') "sum_100"
      = Some (nth (length values - 1) cumulativeValues 0%float)
    ∧ Percentiles_Get (percentiles st') "upper_100"
      = Some (nth (length values - 1) values 0%float).
Proof.
  intros Count Hl1 Hl2 Hn. unfold thresholdBody.
  assert (H1 : (1 <? Count) = true) by (apply Z.ltb_lt; lia).
  rewrite H1, numInThreshold_100 by lia.
  assert (H0 : (Count =? 0) = false) by (apply Z.eqb_neq; lia).
  rewrite H0.
  change (0 <? 100)%float with true. cbv iota.
  rewrite (wrap64_inrange (Count - 1)) by (unfold minInt64, maxInt64; lia).
  rewrite !index_inrange by lia. rewrite !Ok_bind.
  change (pretty (float64.to_int 100)) with "100"%string.
  replace (Z.to_nat (Count - 1)) with (length values - 1)%nat by lia.
  eexists. split; [reflexivity|]. cbn [percentiles sum mean sumSquares
    thresholdBoundary].
  split; [|split].
  - rewrite !Percentiles_Get_Set_ne by discriminate.
    apply Percentiles_Get_Set_eq.
  - rewrite !Percentiles_Get_Set_ne by discriminate.
    apply Percentiles_Get_Set_eq.
  - apply Percentiles_Get_Set_eq.
Qed.

(** The lower-tail branch does not: on the same timers a threshold of -100
    makes it read [cumulativeValues[-1]]. *)
Lemma thresholdBody_minus_100 values cumulativeValues cumulSumSquaresValues st :
  let Count := Z.of_nat (length values) in
  length cumulativeValues = length values →
  length cumulSumSquaresValues = length values →
  2 ≤ Count < 2 ^ 52 →
  thresholdBody values cumulativeValues cumulSumSquaresValues Count
    (float64.of_int Count) (-100) st
  = Panic (IndexOutOfRange (-1) Count).
Proof.
  intros Count Hl1 Hl2 Hn. unfold thresholdBody.
  assert (H1 : (1 <? Count) = true) by (apply Z.ltb_lt; lia).
  rewrite H1, numInThreshold_minus_100 by lia.
  assert (H0 : (Count =? 0) = false) by (apply Z.eqb_neq; lia).
  rewrite H0.
  change (0 <? -100)%float with false. cbv iota.
  rewrite Z.sub_diag. change (wrap64 0) with 0. change (wrap64 (0 - 1)) with (-1).
  rewrite (wrap64_inrange (Count - 1)) by (unfold minInt64, maxInt64; lia).
  rewrite (index_inrange values 0) by lia. rewrite Ok_bind.
  rewrite (index_inrange cumulativeValues (Count - 1)) by lia. rewrite Ok_bind.
  unfold index at 1. cbn. unfold Count. by rewrite Hl1.
Qed.

Lemma foldM_panics {A S : Type} (f : A → S → Result S) (x : A) (l : list A) :
  (∀ s, ∃ e, f x s = Panic e) → x ∈ l → ∀ s, ∃ e, foldM f l s = Panic e.
Proof.
  intros Hx. induction l as [|y l IH]; intros Hin s.
  - by apply elem_of_nil in Hin.
  - simpl. apply elem_of_cons in Hin as [<-|Hin].
    + destruct (Hx s) as [e ->]. eauto.
    + destruct (f y s) as [s'|e]; [|eauto]. rewrite Ok_bind. by apply IH.
Qed.

Lemma finalizeTimer_minus_100 {sorter : sort.Sorter} a x :
  (-100)%float ∈ PercentThresholds a →
  2 ≤ Z.of_nat (length (Timer.Values x)) < 2 ^ 52 →
  ∃ e, finalizeTimer a x = Panic e.
Proof.
  intros Hin Hn. unfold finalizeTimer.
  pose proof (Permutation_length (Float64s_Permutation (Timer.Values x))) as Hl.
  set (vs := sort.Float64s (Timer.Values x)) in *. rewrite <- Hl in Hn.
  clearbody vs.
  rewrite (index_inrange vs 0) by lia. rewrite Ok_bind.
  rewrite (index_inrange vs (Z.of_nat (length vs) - 1)) by lia.
  rewrite Ok_bind.
  destruct vs as [|v0 rest]; [simpl in Hn; lia|]. cbn [tail].
  edestruct (foldM_panics
               (thresholdBody (v0 :: rest)
                  (nth (Z.to_nat 0) (v0 :: rest) 0%float
                     :: cumulate id (nth (Z.to_nat 0) (v0 :: rest) 0%float) rest)
                  ((nth (Z.to_nat 0) (v0 :: rest) 0
                      * nth (Z.to_nat 0) (v0 :: rest) 0)%float
                     :: cumulate (λ v, (v * v)%float)
                          (nth (Z.to_nat 0) (v0 :: rest) 0
                             * nth (Z.to_nat 0) (v0 :: rest) 0)%float rest)
                  (Z.of_nat (length (v0 :: rest)))
                  (float64.of_int (Z.of_nat (length (v0 :: rest)))))
               (-100)%float (PercentThresholds a)) as [e He]; [|exact Hin|].
  - intros st. eexists. apply thresholdBody_minus_100; [| |exact Hn].
    + simpl. by rewrite length_cumulate.
    + simpl. by rewrite length_cumulate.
  - rewrite He. eauto.
Qed.

(** C1.  Whenever -100 is among the configured thresholds, the flush of an
    aggregator that holds a timer with [n] samples, [2 ≤ n < 2 ^ 52],
    panics: no percentile field is emitted for that threshold. *)
Theorem flush_threshold_minus_100_panics {sorter : sort.Sorter}
  (a : MetricAggregator.t) (k t : string) (x : Timer.t)
  (startTime endTime : time.Time) :
  (-100)%float ∈ PercentThresholds a →
  series (Timers a) k t = Some x →
  2 ≤ Z.of_nat (length (Timer.Values x)) < 2 ^ 52 →
  ∃ e, flush a startTime endTime = Panic e.
Proof.
  intros Hin Hx Hn.
  destruct (flush a startTime endTime) as [[a' snap]|e] eqn:Hf; [|eauto].
  apply flush_inv in Hf as (_ & _ & Hfin & _).
  destruct (Hfin k t x Hx) as [x' Hx'].
  - destruct (Timer.Values x); [simpl in Hn; lia|done].
  - destruct (finalizeTimer_minus_100 a x Hin Hn) as [e He]. congruence.
Qed.

Lemma flush_threshold_minus_100_panics_witness :
  let a := receiveAll (NewMetricAggregator [-100]%float time.Second 0 1)
             [(Metric.mk "t" 1 "" [] TIMER, 0, 0);
              (Metric.mk "t" 2 "" [] TIMER, 0, 0)] in
  (-100)%float ∈ PercentThresholds a
  ∧ series (Timers a) "t" "" = Some (NewTimer 0 time.Second [1; 2]%float)
  ∧ ∃ e, flush a 1 2 = Panic e.
Proof.
  intros a.
  assert (H1 : (-100)%float ∈ PercentThresholds a) by apply list_elem_of_here.
  assert (H2 : series (Timers a) "t" ""
               = Some (NewTimer 0 time.Second [1; 2]%float)) by reflexivity.
  split; [exact H1|]. split; [exact H2|].
  apply (flush_threshold_minus_100_panics a "t" "" _ 1 2 H1 H2).
  change (2 ≤ 2 < 2 ^ 52). lia.
Defined.

(** * Further properties of the aggregator *)

(** ** Expiry *)

Lemma Sub_monotone now now' ts :
  now ≤ now' → time.Sub now ts ≤ time.Sub now' ts.
Proof.
  intros H. unfold time.Sub, minInt64, maxInt64.
  repeat case_match;
    repeat match goal with
           | H : (_ <? _) = true |- _ => apply Z.ltb_lt in H
           | H : (_ <? _) = false |- _ => apply Z.ltb_ge in H
           end; lia.
Qed.

(** X1.  Expiry is monotone in time: a record that [isExpired] finds
    expired at one instant is expired at every later instant, also where
    the age saturates the int64 range of a duration. *)
Theorem isExpired_monotone
  (a : MetricAggregator.t) (now now' ts : time.Time) :
  now ≤ now' → isExpired a now ts = true → isExpired a now' ts = true.
Proof.
  intros Hle. unfold isExpired.
  intros [H0 Hlt]%andb_prop. apply andb_true_intro. split; [done|].
  apply Z.ltb_lt in Hlt. apply Z.ltb_lt.
  pose proof (Sub_monotone now now' ts Hle). lia.
Qed.

Lemma isExpired_monotone_witness :
  let a := NewMetricAggregator [90%float] time.Second (2 * time.Second) 1 in
  (3 * time.Second ≤ 4 * time.Second
   ∧ isExpired a (3 * time.Second) 0 = true)
  ∧ isExpired a (4 * time.Second) 0 = true.
Proof.
  intros a.
  assert (H1 : 3 * time.Second ≤ 4 * time.Second) by (vm_compute; discriminate).
  assert (H2 : isExpired a (3 * time.Second) 0 = true) by reflexivity.
  split; [by split|].
  exact (isExpired_monotone a _ _ 0 H1 H2).
Defined.

(** X2.  For an expiry interval that is a duration below the largest one,
    the saturation of [Sub] does not change the verdict: a record is
    expired exactly when the interval is not zero and the age
    [now - timestamp], in unbounded arithmetic, exceeds it. *)
Theorem isExpired_exact
  (a : MetricAggregator.t) (now ts : time.Time) :
  minInt64 ≤ ExpiryInterval a < maxInt64 →
  isExpired a now ts = true ↔
  ExpiryInterval a ≠ 0 ∧ ExpiryInterval a < now - ts.
Proof.
  intros Hr. unfold isExpired, time.Sub. unfold minInt64, maxInt64 in *.
  rewrite andb_true_iff, negb_true_iff, Z.eqb_neq, Z.ltb_lt.
  repeat case_match;
    repeat match goal with
           | H : (_ <? _) = true |- _ => apply Z.ltb_lt in H
           | H : (_ <? _) = false |- _ => apply Z.ltb_ge in H
           end; unfold minInt64, maxInt64 in *; lia.
Qed.

Lemma isExpired_exact_witness :
  let a := NewMetricAggregator [90%float] time.Second (2 * time.Second) 1 in
  minInt64 ≤ ExpiryInterval a < maxInt64
  ∧ (isExpired a (3 * time.Second) 0 = true ↔
     ExpiryInterval a ≠ 0 ∧ ExpiryInterval a < 3 * time.Second - 0).
Proof.
  intros a.
  assert (H : minInt64 ≤ ExpiryInterval a < maxInt64).
  { split; [vm_compute; discriminate|reflexivity]. }
  split; [exact H|]. exact (isExpired_exact a (3 * time.Second) 0 H).
Defined.

(** ** Reset, and the reset after a flush *)

Lemma isExpired_disabled a now ts :
  ExpiryInterval a = 0 → isExpired a now ts = false.
Proof. unfold isExpired. by intros ->. Qed.

Lemma resetOf_disabled {V : Type} a now (timestamp : V → time.Time) fresh v :
  ExpiryInterval a = 0 →
  resetOf a now timestamp fresh v = Some (default v (fresh v)).
Proof. intros H. unfold resetOf. by rewrite isExpired_disabled. Qed.

Lemma foldM_invariant {A S : Type} (I : S → Prop) (f : A → S → Result S) l :
  (∀ x s s', x ∈ l → I s → f x s = Ok s' → I s') →
  ∀ s s', I s → foldM f l s = Ok s' → I s'.
Proof.
  induction l as [|x l IH]; intros Hf s s' Hs H; simpl in H.
  - by injection H as <-.
  - apply bind_Ok in H as (s1 & H1 & H).
    apply (IH (λ y s s' Hy, Hf y s s' (list_elem_of_further _ _ _ Hy)) s1 s');
      [|done].
    exact (Hf x s s1 (list_elem_of_here _ _) Hs H1).
Qed.

Lemma flush_agreeForReset {sorter : sort.Sorter} a startTime endTime a' snap :
  flush a startTime endTime = Ok (a', snap) → agreeForReset a a'.
Proof.
  intros Hf. apply flush_inv in Hf
    as (Hc & Ht & Hfin & Hg & Hs & _ & _ & _ & _ & _ & Hfi & He & _).
  split; [done|]. split; [done|]. intros k t.
  rewrite Hc, Ht, Hg, Hs. repeat split.
  - by destruct (series (Counters a) k t).
  - destruct (series (Timers a) k t) as [x|] eqn:Hx; [|done]. cbn.
    destruct (flushTimer_frame a x Hfin k t Hx) as (_ & Hi & Hts & _).
    by rewrite Hi, Hts.
Qed.

Lemma receive_agreeForReset a b m now wall :
  agreeForReset a b →
  agreeForReset (receiveMetric a m now wall) (receiveMetric b m now wall).
Proof.
  intros (He & Hfi & H).
  pose proof (receive_config a m now wall) as (Ha1 & Ha2 & _).
  pose proof (receive_config b m now wall) as (Hb1 & Hb2 & _).
  split; [congruence|]. split; [congruence|]. intros k t.
  destruct (H k t) as (Hc & Ht & Hg & Hs).
  rewrite !receive_Counters, !receive_Timers, !receive_Gauges, !receive_Sets.
  rewrite (foldCounter_config b a), (foldTimer_config b a),
    (foldGauge_config b a), (foldSet_config b a) by done.
  rewrite Hg, Hs. repeat split; try done.
  - case_decide; [|done].
    destruct (series (Counters a) k t), (series (Counters b) k t);
      cbn in *; congruence.
  - case_decide; [|done].
    destruct (series (Timers a) k t), (series (Timers b) k t);
      cbn in *; congruence.
Qed.

Lemma receiveAll_agreeForReset a b folds :
  agreeForReset a b → agreeForReset (receiveAll a folds) (receiveAll b folds).
Proof.
  revert a b. induction folds as [|[[m now] wall] folds IH]; intros a b H;
    [done|].
  rewrite !receiveAll_cons. apply IH. by apply receive_agreeForReset.
Qed.

Lemma Reset_agreeForReset a b now a1 b1 :
  agreeForReset a b → Reset a now = Ok a1 → Reset b now = Ok b1 →
  sameRecords a1 b1.
Proof.
  intros (He & _ & H) Ha Hb.
  destruct (Reset_spec a now) as (a1' & Hr & Hc & Ht & Hs & Hg & _).
  rewrite Ha in Hr. injection Hr as <-.
  destruct (Reset_spec b now) as (b1' & Hr & Hc' & Ht' & Hs' & Hg' & _).
  rewrite Hb in Hr. injection Hr as <-.
  intros k t. destruct (H k t) as (Hck & Htk & Hgk & Hsk).
  rewrite Hc, Ht, Hs, Hg, Hc', Ht', Hs', Hg', Hgk, Hsk.
  unfold resetOf. repeat split.
  - destruct (series (Counters a) k t) as [c|],
      (series (Counters b) k t) as [c'|]; try done.
    injection Hck as Hi Hts. cbn.
    by rewrite (isExpired_ExpiryInterval b a), Hi, Hts.
  - destruct (series (Timers a) k t) as [c|],
      (series (Timers b) k t) as [c'|]; try done.
    injection Htk as Hi Hts. cbn.
    by rewrite (isExpired_ExpiryInterval b a), Hi, Hts.
  - destruct (series (Gauges a) k t) as [c|]; [|done]. cbn.
    by rewrite (isExpired_ExpiryInterval b a).
  - destruct (series (Sets a) k t) as [c|]; [|done]. cbn.
    by rewrite (isExpired_ExpiryInterval b a).
Qed.

(** X3.  In a tick, what the flush wrote into the live counters and timers
    does not outlive the reset: whatever folds the workers get in between
    the flush and the reset, when both return the aggregator holds in every
    series of the four kinds the record that the same folds and the reset
    leave without the flush. *)
Theorem tick_leaves_what_Reset_leaves {sorter : sort.Sorter}
  (a : MetricAggregator.t) (startTime endTime : time.Time) (gap : list Fold)
  (now : time.Time) (a' : MetricAggregator.t) (flushed : MetricMap.t) :
  tick a startTime endTime gap now = Ok (a', flushed) →
  ∃ a0, Reset (receiveAll a gap) now = Ok a0 ∧ sameRecords a0 a'.
Proof.
  unfold tick. intros H.
  apply bind_Ok in H as ([a1 snap] & Hf & H).
  apply bind_Ok in H as (a2 & Hr & H). injection H as <- <-.
  destruct (Reset_spec (receiveAll a gap) now) as (a0 & Hr0 & _).
  exists a0. split; [done|].
  apply (Reset_agreeForReset (receiveAll a gap) (receiveAll a1 gap) now);
    [|done|done].
  apply receiveAll_agreeForReset. by eapply flush_agreeForReset.
Qed.

Lemma tick_leaves_what_Reset_leaves_witness :
  let a := receiveAll (NewMetricAggregator [90%float] time.Second 0 1)
             [(Metric.mk "hits" 1 "" [] COUNTER, 0, 0);
              (Metric.mk "t" 2 "" [] TIMER, 0, 0)] in
  let gap := [(Metric.mk "late" 1 "" [] COUNTER, 2, 2);
              (Metric.mk "t" 1 "" [] TIMER, 2, 2)] in
  ∃ a' flushed, tick a 1 2 gap 3 = Ok (a', flushed)
    ∧ ∃ a0, Reset (receiveAll a gap) 3 = Ok a0 ∧ sameRecords a0 a'.
Proof.
  intros a gap.
  destruct (tick a 1 2 gap 3) as [[a' flushed]|e] eqn:Ht;
    [|vm_compute in Ht; discriminate].
  exists a', flushed. split; [reflexivity|].
  exact (tick_leaves_what_Reset_leaves a 1 2 gap 3 a' flushed Ht).
Defined.

(** X4.  With expiry disabled (an expiry interval of 0), a reset of an
    aggregator that was just reset changes no record: the second reset
    returns the records of the first in every series of the four kinds. *)
Theorem Reset_twice_without_expiry
  (a a1 a2 : MetricAggregator.t) (now now' : time.Time) :
  ExpiryInterval a = 0 →
  Reset a now = Ok a1 → Reset a1 now' = Ok a2 → sameRecords a1 a2.
Proof.
  intros He H1 H2.
  destruct (Reset_spec a now)
    as (a1' & Hr1 & Hc1 & Ht1 & Hs1 & Hg1 & He1 & _).
  rewrite H1 in Hr1. injection Hr1 as <-.
  destruct (Reset_spec a1 now') as (a2' & Hr2 & Hc2 & Ht2 & Hs2 & Hg2 & _).
  rewrite H2 in Hr2. injection Hr2 as <-.
  assert (He' : ExpiryInterval a1 = 0) by congruence.
  intros k t. rewrite Hc2, Ht2, Hs2, Hg2, Hc1, Ht1, Hs1, Hg1.
  repeat split.
  - destruct (series (Counters a) k t) as [c|]; [|done]. cbn.
    rewrite !resetOf_disabled by done. cbn. by rewrite resetOf_disabled.
  - destruct (series (Timers a) k t) as [c|]; [|done]. cbn.
    rewrite !resetOf_disabled by done. cbn. by rewrite resetOf_disabled.
  - destruct (series (Gauges a) k t) as [c|]; [|done]. cbn.
    rewrite !resetOf_disabled by done. cbn. by rewrite resetOf_disabled.
  - destruct (series (Sets a) k t) as [c|]; [|done]. cbn.
    rewrite !resetOf_disabled by done. cbn. by rewrite resetOf_disabled.
Qed.

Lemma Reset_twice_without_expiry_witness :
  let a := receiveAll (NewMetricAggregator [90%float] time.Second 0 1)
             [(Metric.mk "hits" 1 "" [] COUNTER, 0, 0);
              (Metric.mk "load" 2 "" [] GAUGE, 0, 0)] in
  ExpiryInterval a = 0
  ∧ ∃ a1 a2, Reset a 5 = Ok a1 ∧ Reset a1 9 = Ok a2 ∧ sameRecords a1 a2.
Proof.
  intros a. split; [reflexivity|].
  destruct (Reset a 5) as [a1|e] eqn:H1; [|vm_compute in H1; discriminate].
  destruct (Reset a1 9) as [a2|e] eqn:H2.
  - exists a1, a2. split; [reflexivity|]. split; [exact H2|].
    exact (Reset_twice_without_expiry a a1 a2 5 9 eq_refl H1 H2).
  - destruct (Reset_spec a1 9) as (a2 & Hr & _). congruence.
Defined.

(** ** Invariants of the aggregator over every run *)

Lemma seriesKept_refl a : seriesKept a a.
Proof. intros k t. tauto. Qed.

Lemma seriesKept_trans a b c : seriesKept a b → seriesKept b c → seriesKept a c.
Proof.
  intros H1 H2 k t. specialize (H1 k t). specialize (H2 k t). tauto.
Qed.

Lemma perform_seriesKept {sorter : sort.Sorter} op a a' :
  ExpiryInterval a = 0 → perform op a = Ok a' →
  ExpiryInterval a' = 0 ∧ seriesKept a a'.
Proof.
  intros He Hop.
  destruct op as [m now wall|startTime endTime|now|failed now]; cbn in Hop;
    [| | |injection Hop as <-; split; [done|intros k t; cbn; tauto]].
  - injection Hop as <-. split.
    + by rewrite (proj1 (proj2 (receive_config a m now wall))).
    + intros k t.
      rewrite receive_Counters, receive_Timers, receive_Gauges, receive_Sets.
      repeat split; intros H; case_decide; eauto.
  - apply bind_Ok in Hop as ([a1 snap] & Hf & Hop). injection Hop as <-.
    apply flush_inv in Hf
      as (Hc & Ht & _ & Hg & Hs & _ & _ & _ & _ & _ & _ & He1 & _).
    split; [congruence|]. intros k t. rewrite Hc, Ht, Hg, Hs.
    repeat split; try done; intros H; by apply fmap_is_Some.
  - destruct (Reset_spec a now)
      as (a1 & Hr & Hc & Ht & Hs & Hg & He1 & _).
    rewrite Hop in Hr. injection Hr as <-.
    split; [congruence|]. intros k t. rewrite Hc, Ht, Hs, Hg.
    repeat split; intros [v ->]; cbn; rewrite resetOf_disabled by done; eauto.
Qed.

(** X5.  With expiry disabled (an expiry interval of 0) no series is ever
    lost: after any sequence of folds, flushes and resets that returns,
    every series that was present in one of the four kind maps is still
    present. *)
Theorem no_series_lost_without_expiry {sorter : sort.Sorter}
  (ops : list Operation) (a a' : MetricAggregator.t) :
  ExpiryInterval a = 0 → performAll ops a = Ok a' → seriesKept a a'.
Proof.
  unfold performAll. revert a.
  induction ops as [|op ops IH]; intros a He H; simpl in H.
  - injection H as <-. apply seriesKept_refl.
  - apply bind_Ok in H as (a1 & H1 & H).
    destruct (perform_seriesKept op a a1 He H1) as [He1 Hk].
    exact (seriesKept_trans a a1 a' Hk (IH a1 He1 H)).
Qed.

Lemma no_series_lost_without_expiry_witness :
  let a := receiveAll (NewMetricAggregator [90%float] time.Second 0 1)
             [(Metric.mk "hits" 1 "" [] COUNTER, 0, 0)] in
  let ops := [OpFlush 1 2; OpReset 3;
              OpReceive (Metric.mk "load" 2 "" [] GAUGE) 4 4; OpReset 9] in
  ExpiryInterval a = 0
  ∧ ∃ a', performAll ops a = Ok a' ∧ seriesKept a a'.
Proof.
  intros a ops. split; [reflexivity|].
  destruct (performAll ops a) as [a'|e] eqn:H; [|vm_compute in H; discriminate].
  exists a'. split; [reflexivity|].
  exact (no_series_lost_without_expiry ops a a' eq_refl H).
Defined.

Lemma insert2_noEmpty {V : Type} (m : gmap string (gmap string V))
  key tags v inner :
  noEmptyName m → noEmptyName (<[key := <[tags := v]> inner]> m).
Proof.
  intros Hm k i. destruct (decide (k = key)) as [->|Hk].
  - rewrite lookup_insert_eq. intros [= <-]. apply insert_non_empty.
  - rewrite lookup_insert_ne by done. apply Hm.
Qed.

Lemma assign_noEmpty {V : Type} (m m' : gmap string (gmap string V))
  key tags v :
  noEmptyName m → assign m key tags v = Ok m' → noEmptyName m'.
Proof.
  unfold assign. intros Hm. destruct (m !! key) as [inner|]; [|done].
  intros [= <-]. by apply insert2_noEmpty.
Qed.

Lemma remove_noEmpty {V : Type} (m : gmap string (gmap string V)) key tags :
  noEmptyName m → noEmptyName (remove m key tags).
Proof.
  intros Hm. unfold remove. destruct (m !! key) as [inner|] eqn:Hk.
  - rewrite lookup_insert_eq. cbn. case_decide as Hsz.
    + intros k i. destruct (decide (k = key)) as [->|Hne].
      * by rewrite lookup_delete_eq.
      * rewrite lookup_delete_ne, lookup_insert_ne by done. apply Hm.
    + intros k i. destruct (decide (k = key)) as [->|Hne].
      * rewrite lookup_insert_eq. intros [= <-] He. apply Hsz.
        rewrite He. apply map_size_empty.
      * rewrite lookup_insert_ne by done. apply Hm.
  - rewrite Hk. cbn. rewrite decide_True by apply map_size_empty.
    intros k i. destruct (decide (k = key)) as [->|Hne].
    + by rewrite lookup_delete_eq.
    + rewrite lookup_delete_ne by done. apply Hm.
Qed.

Lemma Each_reset_noEmpty {V : Type} a now (timestamp : V → time.Time) fresh
  (m0 m m' : gmap string (gmap string V)) :
  noEmptyName m →
  Each m0 (resetEntry a now timestamp fresh) m = Ok m' → noEmptyName m'.
Proof.
  unfold Each. apply foldM_invariant. intros [[k t] v] s s' _ Hs.
  unfold resetEntry. destruct (isExpired a now (timestamp v)).
  - intros [= <-]. by apply remove_noEmpty.
  - destruct (fresh v); [by apply assign_noEmpty|]. by intros [= <-].
Qed.

Lemma Reset_noEmpty a now a' :
  noNameWithoutSeries a → Reset a now = Ok a' → noNameWithoutSeries a'.
Proof.
  intros (Hc & Ht & Hg & Hs). unfold Reset, EachCounter, EachTimer, EachSet,
    EachGauge. intros H.
  apply bind_Ok in H as (cs & Hcs & H).
  apply bind_Ok in H as (ts & Hts & H).
  apply bind_Ok in H as (ss & Hss & H).
  apply bind_Ok in H as (gs & Hgs & H). injection H as <-.
  apply Each_reset_noEmpty in Hcs, Hts, Hss, Hgs; try done.
Qed.

Lemma flush_noEmpty {sorter : sort.Sorter} a startTime endTime a' snap :
  noNameWithoutSeries a → flush a startTime endTime = Ok (a', snap) →
  noNameWithoutSeries a'.
Proof.
  intros (Hc & Ht & Hg & Hs). unfold flush, EachCounter, EachTimer, Each.
  intros H.
  apply bind_Ok in H as ([cs n1] & Hcs & H).
  apply bind_Ok in H as ([ts n2] & Hts & H). injection H as <- <-.
  apply (foldM_invariant (λ s, noEmptyName (fst s))) in Hcs; [| |done].
  2:{ intros [[k t] c] [m n] [m' n'] _ Hm Hcb. cbn in *.
      apply bind_Ok in Hcb as (m1 & Hm1 & Hcb). injection Hcb as <- <-.
      by eapply assign_noEmpty. }
  apply (foldM_invariant (λ s, noEmptyName (fst s))) in Hts; [| |done].
  2:{ intros [[k t] x] [m n] [m' n'] _ Hm Hcb. cbn in *.
      destruct (0 <? Z.of_nat (length (Timer.Values x))).
      - apply bind_Ok in Hcb as (x' & _ & Hcb).
        apply bind_Ok in Hcb as (m1 & Hm1 & Hcb). injection Hcb as <- <-.
        by eapply assign_noEmpty.
      - by injection Hcb as <- <-. }
  done.
Qed.

Lemma receive_noEmpty a m now wall :
  noNameWithoutSeries a → noNameWithoutSeries (receiveMetric a m now wall).
Proof.
  intros (Hc & Ht & Hg & Hs). unfold receiveMetric, noNameWithoutSeries.
  destruct (Metric.Type_ m); cbn;
    repeat match goal with
           | |- context [match ?o with Some _ => _ | None => _ end] =>
               destruct o; cbn
           end;
    repeat split; try assumption; by apply insert2_noEmpty.
Qed.

(** X6.  In every state the aggregator reaches from a new one by folds,
    flushes and resets, no name of a kind map is left without series: the
    inner map of a name that is present is never empty. *)
Theorem names_always_have_series {sorter : sort.Sorter}
  (percentThresholds : list float) (flushInterval expiryInterval : time.Duration)
  (maxWorkers : Z) (ops : list Operation) (a : MetricAggregator.t) :
  performAll ops
    (NewMetricAggregator percentThresholds flushInterval expiryInterval
       maxWorkers) = Ok a →
  noNameWithoutSeries a.
Proof.
  unfold performAll. apply (foldM_invariant noNameWithoutSeries).
  - intros op s s' _ Hs Hop.
    destruct op as [m now wall|startTime endTime|now|failed now]; cbn in Hop;
      [| | |by injection Hop as <-].
    + injection Hop as <-. by apply receive_noEmpty.
    + apply bind_Ok in Hop as ([a1 snap] & Hf & Hop). injection Hop as <-.
      by eapply flush_noEmpty.
    + by eapply Reset_noEmpty.
  - repeat split; intros k i; cbn; by rewrite lookup_empty.
Qed.

Lemma names_always_have_series_witness :
  let ops := [OpReceive (Metric.mk "hits" 1 "" [] COUNTER) 0 0;
              OpReceive (Metric.mk "load" 2 "" [] GAUGE) 1 1;
              OpFlush 2 3; OpReset (10 * time.Second);
              OpFlushResult false (11 * time.Second)] in
  ∃ a, performAll ops (NewMetricAggregator [90%float] time.Second time.Second 1)
       = Ok a
       ∧ noNameWithoutSeries a.
Proof.
  intros ops.
  destruct (performAll ops
              (NewMetricAggregator [90%float] time.Second time.Second 1))
    as [a|e] eqn:H; [|vm_compute in H; discriminate].
  exists a. split; [reflexivity|].
  exact (names_always_have_series _ _ _ _ ops a H).
Defined.

Lemma perform_intervals {sorter : sort.Sorter} op a a' :
  intervalsAreFlushInterval a → perform op a = Ok a' →
  intervalsAreFlushInterval a' ∧ FlushInterval a' = FlushInterval a.
Proof.
  intros (Ic & It & Ig & Is) Hop.
  destruct op as [m now wall|startTime endTime|now|failed now]; cbn in Hop;
    [| | |by injection Hop as <-].
  - injection Hop as <-.
    pose proof (proj1 (receive_config a m now wall)) as Hfi.
    split; [|done]. unfold intervalsAreFlushInterval. rewrite Hfi.
    repeat split; intros k t v.
    + rewrite receive_Counters. case_decide; [|apply Ic].
      intros [= <-]. destruct (series (Counters a) k t) as [c|] eqn:Hc; cbn;
        [by eapply Ic|done].
    + rewrite receive_Timers. case_decide; [|apply It].
      intros [= <-]. destruct (series (Timers a) k t) as [c|] eqn:Hc; cbn;
        [by eapply It|done].
    + rewrite receive_Gauges. case_decide; [|apply Ig].
      intros [= <-]. destruct (series (Gauges a) k t) as [c|] eqn:Hc; cbn;
        [by eapply Ig|done].
    + rewrite receive_Sets. case_decide; [|apply Is].
      intros [= <-]. destruct (series (Sets a) k t) as [c|] eqn:Hc; cbn;
        [by eapply Is|done].
  - apply bind_Ok in Hop as ([a1 snap] & Hf & Hop). injection Hop as <-.
    apply flush_inv in Hf
      as (Hc & Ht & Hfin & Hg & Hs & _ & _ & _ & _ & _ & Hfi & _).
    split; [|done]. unfold intervalsAreFlushInterval.
    rewrite Hfi, Hg, Hs. repeat split; try done; intros k t v.
    + rewrite Hc. destruct (series (Counters a) k t) as [c|] eqn:Hv; [|done].
      intros [= <-]. cbn. by eapply Ic.
    + rewrite Ht. destruct (series (Timers a) k t) as [x|] eqn:Hv; [|done].
      intros [= <-].
      destruct (flushTimer_frame a x Hfin k t Hv) as (_ & -> & _).
      by eapply It.
  - destruct (Reset_spec a now)
      as (a1 & Hr & Hc & Ht & Hs & Hg & _ & Hfi & _).
    rewrite Hop in Hr. injection Hr as <-.
    split; [|done]. unfold intervalsAreFlushInterval, resetOf in *.
    rewrite Hfi. repeat split; intros k t v.
    + rewrite Hc. destruct (series (Counters a) k t) as [c|] eqn:Hv; [|done].
      cbn. case_match; [done|]. intros [= <-]. cbn. by eapply Ic.
    + rewrite Ht. destruct (series (Timers a) k t) as [c|] eqn:Hv; [|done].
      cbn. case_match; [done|]. intros [= <-]. cbn. by eapply It.
    + rewrite Hg. destruct (series (Gauges a) k t) as [c|] eqn:Hv; [|done].
      cbn. case_match; [done|]. intros [= <-]. cbn. by eapply Ig.
    + rewrite Hs. destruct (series (Sets a) k t) as [c|] eqn:Hv; [|done].
      cbn. case_match; [done|]. intros [= <-]. cbn. by eapply Is.
Qed.

(** X7.  In every state the aggregator reaches from a new one by folds,
    flushes and resets, each record of the four kinds carries as its
    interval the flush interval the aggregator was built with, and the
    flush interval of the aggregator is the one it was built with. *)
Theorem records_carry_the_flush_interval {sorter : sort.Sorter}
  (percentThresholds : list float) (flushInterval expiryInterval : time.Duration)
  (maxWorkers : Z) (ops : list Operation) (a : MetricAggregator.t) :
  performAll ops
    (NewMetricAggregator percentThresholds flushInterval expiryInterval
       maxWorkers) = Ok a →
  intervalsAreFlushInterval a ∧ FlushInterval a = flushInterval.
Proof.
  unfold performAll.
  apply (foldM_invariant
           (λ a, intervalsAreFlushInterval a ∧ FlushInterval a = flushInterval)).
  - intros op s s' _ [Hs Hfi] Hop.
    destruct (perform_intervals op s s' Hs Hop) as [H1 H2].
    split; [done|congruence].
  - split; [|done]. repeat split; intros k t v; cbn; by rewrite series_empty.
Qed.

Lemma records_carry_the_flush_interval_witness :
  let ops := [OpReceive (Metric.mk "hits" 1 "" [] COUNTER) 0 0;
              OpReceive (Metric.mk "t" 2 "" [] TIMER) 1 1;
              OpFlush 2 3; OpReset 4;
              OpReceive (Metric.mk "t" 5 "" [] TIMER) 5 5] in
  ∃ a, performAll ops (NewMetricAggregator [90%float] time.Second 0 1) = Ok a
       ∧ intervalsAreFlushInterval a ∧ FlushInterval a = time.Second.
Proof.
  intros ops.
  destruct (performAll ops (NewMetricAggregator [90%float] time.Second 0 1))
    as [a|e] eqn:H; [|vm_compute in H; discriminate].
  exists a. split; [reflexivity|].
  exact (records_carry_the_flush_interval _ _ _ _ ops a H).
Defined.

(** ** Folds into gauges, timers and sets *)

(** X8.  A gauge holds the value of the last fold into its series: after
    any sequence of folds the value is that of the last gauge fold with its
    name and tag key, whatever the gauge held before, and it is the old
    value when no fold went to the series. *)
Theorem gauge_holds_last_value
  (a : MetricAggregator.t) (folds : list Fold) (k t : string) :
  Gauge.Value <$> series (Gauges (receiveAll a folds)) k t
  = match lastGauge k t folds with
    | Some v => Some v
    | None => Gauge.Value <$> series (Gauges a) k t
    end.
Proof.
  revert a. induction folds as [|[[m now] wall] folds IH]; intros a; [done|].
  rewrite receiveAll_cons, IH. cbn [lastGauge].
  destruct (lastGauge k t folds); [done|].
  rewrite receive_Gauges. case_decide; [|done].
  by destruct (series (Gauges a) k t).
Qed.

(** X9.  A timer collects its samples in the order of arrival: after any
    sequence of folds its values are the values it held followed by the
    values of the timer folds with its name and tag key, in the order of
    the folds; a series no fold went to stays absent. *)
Theorem timer_collects_samples_in_order
  (a : MetricAggregator.t) (folds : list Fold) (k t : string) :
  Timer.Values <$> series (Timers (receiveAll a folds)) k t
  = match series (Timers a) k t, samples k t folds with
    | None, [] => None
    | None, vs => Some vs
    | Some x, vs => Some (Timer.Values x ++ vs)
    end.
Proof.
  revert a. induction folds as [|[[m now] wall] folds IH]; intros a.
  - cbn. destruct (series (Timers a) k t); cbn; [|done].
    by rewrite app_nil_r.
  - rewrite receiveAll_cons, IH. cbn [samples]. rewrite receive_Timers.
    case_decide.
    + destruct (series (Timers a) k t) as [x|]; cbn; [|done].
      by rewrite <- app_assoc.
    + done.
Qed.

Lemma receive_setValues a m now wall k t s :
  setValues (receiveMetric a m now wall) k t !! s
  = if decide (foldsInto m SET k t ∧ Metric.StringValue m = s)
    then countOneMore (setValues a k t !! s)
    else setValues a k t !! s.
Proof.
  unfold setValues. rewrite receive_Sets.
  destruct (decide (foldsInto m SET k t)) as [Hf|Hf].
  - cbn. destruct (series (Sets a) k t) as [x|]; cbn.
    + destruct (decide (Metric.StringValue m = s)) as [<-|Hs].
      * rewrite decide_True by done. unfold countOneMore.
        destruct (Set_.Values x !! Metric.StringValue m);
          by rewrite lookup_insert_eq.
      * rewrite decide_False by tauto.
        destruct (Set_.Values x !! Metric.StringValue m);
          by rewrite lookup_insert_ne.
    + destruct (decide (Metric.StringValue m = s)) as [<-|Hs].
      * rewrite decide_True by done. by rewrite lookup_insert_eq.
      * rewrite decide_False by tauto. by rewrite lookup_insert_ne.
  - rewrite decide_False by tauto. done.
Qed.

Lemma receiveAll_setValues a folds k t s :
  setValues (receiveAll a folds) k t !! s
  = Nat.iter (occurrences k t s folds) countOneMore (setValues a k t !! s).
Proof.
  revert a. induction folds as [|[[m now] wall] folds IH]; intros a; [done|].
  rewrite receiveAll_cons, IH, receive_setValues. cbn [occurrences].
  case_decide; [|done]. by rewrite Nat.iter_succ_r.
Qed.

Lemma iter_countOneMore n :
  Nat.iter (S n) countOneMore None = Some (wrap64 (Z.of_nat (S n))).
Proof.
  induction n as [|n IH]; [done|].
  rewrite Nat.iter_succ, IH. unfold countOneMore. f_equal.
  rewrite wrap64_add_l. f_equal. lia.
Qed.

(** X10.  A set counts the occurrences of each string: for a string the
    set does not hold yet (or a series that does not exist yet), the count
    after any sequence of folds is the number of set folds of that string
    with the name and tag key of the series, in int64, and the string stays
    absent when there is none. *)
Theorem set_counts_occurrences
  (a : MetricAggregator.t) (folds : list Fold) (k t s : string) :
  setValues a k t !! s = None →
  setValues (receiveAll a folds) k t !! s
  = match occurrences k t s folds with
    | O => None
    | S n => Some (wrap64 (Z.of_nat (S n)))
    end.
Proof.
  intros H. rewrite receiveAll_setValues, H.
  destruct (occurrences k t s folds) as [|n]; [done|].
  apply iter_countOneMore.
Qed.

Lemma set_counts_occurrences_witness :
  let a := NewMetricAggregator [90%float] time.Second 0 1 in
  let user s := Metric.mk "users" 0 s [] SET in
  let folds := [(user "a", 0, 0); (user "a", 1, 1); (user "b", 2, 2)] in
  setValues a "users" "" !! "a" = None
  ∧ setValues (receiveAll a folds) "users" "" !! "a" = Some 2.
Proof.
  intros a user folds. split; [reflexivity|].
  exact (set_counts_occurrences a folds "users" "" "a" eq_refl).
Defined.

(** X11.  A fold writes one series at most, that of its own kind, name
    and tag key: every other series of the four kinds holds the record it
    held, and the configuration of the aggregator is unchanged.  The same
    name may so live in several kinds without interference. *)
Theorem fold_writes_one_series
  (a : MetricAggregator.t) (m : Metric.t) (now wallClock : time.Time) :
  let a' := receiveMetric a m now wallClock in
  (∀ k t, ¬ foldsInto m COUNTER k t →
     series (Counters a') k t = series (Counters a) k t)
  ∧ (∀ k t, ¬ foldsInto m TIMER k t →
       series (Timers a') k t = series (Timers a) k t)
  ∧ (∀ k t, ¬ foldsInto m GAUGE k t →
       series (Gauges a') k t = series (Gauges a) k t)
  ∧ (∀ k t, ¬ foldsInto m SET k t →
       series (Sets a') k t = series (Sets a) k t)
  ∧ FlushInterval a' = FlushInterval a
  ∧ ExpiryInterval a' = ExpiryInterval a
  ∧ PercentThresholds a' = PercentThresholds a.
Proof.
  intros a'. unfold a'.
  split; [|split; [|split; [|split; [|apply receive_config]]]]; intros k t H.
  - rewrite receive_Counters. by rewrite decide_False.
  - rewrite receive_Timers. by rewrite decide_False.
  - rewrite receive_Gauges. by rewrite decide_False.
  - rewrite receive_Sets. by rewrite decide_False.
Qed.

Lemma fold_writes_one_series_witness :
  let a := receiveAll (NewMetricAggregator [90%float] time.Second 0 1)
             [(Metric.mk "x" 1 "" [] COUNTER, 0, 0)] in
  let m := Metric.mk "x" 7 "" [] GAUGE in
  ¬ foldsInto m COUNTER "x" ""
  ∧ series (Counters (receiveMetric a m 1 1)) "x" "" = series (Counters a) "x" "".
Proof.
  intros a m.
  assert (H : ¬ foldsInto m COUNTER "x" "") by (by intros [? _]).
  split; [exact H|].
  exact (proj1 (fold_writes_one_series a m 1 1) "x" "" H).
Defined.

(** ** The bookkeeping of a flush *)

Lemma wrap64_idem z : wrap64 (wrap64 z) = wrap64 z.
Proof.
  pose proof (wrap64_add_l z 0) as H. by rewrite !Z.add_0_r in H.
Qed.

Lemma wrap64_add_r x y : wrap64 (x + wrap64 y) = wrap64 (x + y).
Proof. rewrite Z.add_comm, wrap64_add_l. f_equal. lia. Qed.

Lemma addLens_seriesCount {V : Type} (m : gmap string (gmap string V)) n :
  wrap64 n = n → addLens m n = wrap64 (n + seriesCount m).
Proof.
  unfold addLens, seriesCount, entries.
  generalize (map_to_list m) as l. intros l. revert n.
  induction l as [|[key inner] l IH]; intros n Hn.
  - cbn. rewrite Z.add_0_r. done.
  - cbn [foldl]. rewrite IH by apply wrap64_idem.
    rewrite wrap64_add_l. f_equal.
    change ((key, inner) :: l) with ([(key, inner)] ++ l).
    rewrite bind_app, length_app. cbn [mbind list_bind]. rewrite app_nil_r.
    assert (Hlen : ∀ l' : list (string * V),
               length (l' ≫= (λ '(tagsKey, v), [(key, tagsKey, v)]))
               = length l').
    { induction l' as [|[t v] l' IHl]; [done|]. cbn. by rewrite IHl. }
    rewrite Hlen, length_map_to_list. lia.
Qed.

Lemma flushCounters_numStats a l s s' :
  wrap64 (snd s) = snd s →
  foldM (λ '(key, tagsKey, v), flushCounterEntry a key tagsKey v) l s = Ok s' →
  snd s' = wrap64 (snd s + 2 * Z.of_nat (length l)).
Proof.
  revert s. induction l as [|[[k t] c] l IH]; intros [m n] Hn H; cbn in *.
  - injection H as <-. cbn. by rewrite Z.add_0_r.
  - apply bind_Ok in H as ([m1 n1] & H1 & H).
    apply bind_Ok in H1 as (m2 & _ & H1). injection H1 as <- <-.
    rewrite (IH (m2, wrap64 (n + 2)) (wrap64_idem _) H). cbn.
    rewrite wrap64_add_l. f_equal. lia.
Qed.

Lemma flushTimers_numStats {sorter : sort.Sorter} a l s s' :
  wrap64 (snd s) = snd s →
  foldM (λ '(key, tagsKey, v), flushTimerEntry a key tagsKey v) l s = Ok s' →
  snd s' = wrap64 (snd s + sumZ (map (λ e, timerStats a e.2) l)).
Proof.
  revert s. induction l as [|[[k t] x] l IH]; intros [m n] Hn H.
  - cbn in *. injection H as <-. cbn. by rewrite Z.add_0_r.
  - cbn [foldM] in H. apply bind_Ok in H as ([m1 n1] & H1 & H).
    cbn [map sumZ foldr snd]. fold (sumZ (map (λ e, timerStats a e.2) l)).
    set (rest := sumZ (map (λ e, timerStats a e.2) l)) in *.
    unfold flushTimerEntry in H1. unfold timerStats at 1, flushTimer.
    cbn [snd] in *.
    destruct (0 <? Z.of_nat (length (Timer.Values x))).
    + apply bind_Ok in H1 as (x' & Hx' & H1).
      apply bind_Ok in H1 as (m2 & _ & H1). injection H1 as <- <-.
      rewrite (IH (m2, wrap64 _) (wrap64_idem _) H). cbn [snd]. rewrite Hx'.
      rewrite wrap64_add_l.
      match goal with
      | |- wrap64 (n + wrap64 ?T + rest) = _ =>
          replace (n + wrap64 T + rest) with ((n + rest) + wrap64 T) by lia
      end.
      rewrite wrap64_add_r. f_equal. lia.
    + injection H1 as <- <-. rewrite (IH (m, n) Hn H). cbn [snd]. f_equal.
Qed.

(** X12.  A flush that returns counts two statistics for each counter, one
    for each gauge and each set, and for each timer with samples nine and
    the number of percentile fields the timer holds after the flush; a
    timer without samples counts for nothing.  The count (in int64) is
    stored in the statistics of the aggregator and in the snapshot, with
    the time the flush took, the difference of the two clock readings. *)
Theorem flush_counts_statistics {sorter : sort.Sorter}
  (a : MetricAggregator.t) (startTime endTime : time.Time)
  (a' : MetricAggregator.t) (snap : MetricMap.t) :
  flush a startTime endTime = Ok (a', snap) →
  MetricMap.NumStats snap = wrap64 (flushedStats a)
  ∧ metricAggregatorStats.NumStats (Stats a') = wrap64 (flushedStats a)
  ∧ MetricMap.ProcessingTime snap = time.Sub endTime startTime
  ∧ metricAggregatorStats.ProcessingTime (Stats a')
    = time.Sub endTime startTime.
Proof.
  unfold flush, EachCounter, EachTimer, Each. intros Hf.
  apply bind_Ok in Hf as ([cs n1] & Hcs & Hf).
  apply bind_Ok in Hf as ([ts n2] & Hts & Hf).
  injection Hf as <- <-. cbn.
  apply flushCounters_numStats in Hcs; [|done]. cbn in Hcs.
  assert (Hn1 : wrap64 n1 = n1) by (rewrite Hcs; apply wrap64_idem).
  apply flushTimers_numStats in Hts; cbn in Hts.
  2:{ cbn. rewrite addLens_seriesCount by done. apply wrap64_idem. }
  assert (Hn2 : wrap64 n2 = n2) by (rewrite Hts; apply wrap64_idem).
  assert (H : addLens (Sets a) n2 = wrap64 (flushedStats a)).
  { rewrite addLens_seriesCount by done. rewrite Hts.
    rewrite addLens_seriesCount by done. rewrite Hcs.
    rewrite !wrap64_add_l. rewrite <- !Z.add_assoc, !wrap64_add_l.
    unfold flushedStats, seriesCount. f_equal. lia. }
  rewrite H. done.
Qed.

Lemma flush_counts_statistics_witness :
  let a := receiveAll (NewMetricAggregator [90%float] time.Second 0 1)
             [(Metric.mk "hits" 1 "" [] COUNTER, 0, 0);
              (Metric.mk "load" 2 "" [] GAUGE, 0, 0);
              (Metric.mk "t" 2 "" [] TIMER, 0, 0);
              (Metric.mk "t" 1 "" [] TIMER, 0, 0)] in
  ∃ a' snap, flush a 1 3 = Ok (a', snap)
    ∧ MetricMap.NumStats snap = 17
    ∧ MetricMap.ProcessingTime snap = 2.
Proof.
  intros a.
  destruct (flush a 1 3) as [[a' snap]|e] eqn:Hf;
    [|vm_compute in Hf; discriminate].
  exists a', snap. split; [reflexivity|].
  pose proof (flush_counts_statistics a 1 3 a' snap Hf) as (H1 & _ & H2 & _).
  split; [|exact H2]. rewrite H1. vm_compute. reflexivity.
Defined.

(** X13.  A flush that returns adds to [BadLines] the value of the counter
    named statsd.bad_lines_seen with the empty tag key (in int64), and
    leaves [BadLines] as it is when there is no such counter.  It writes
    no instant of the statistics: the instants of the last message, the
    last flush and the last flush error are those of before. *)
Theorem flush_accumulates_bad_lines {sorter : sort.Sorter}
  (a : MetricAggregator.t) (startTime endTime : time.Time)
  (a' : MetricAggregator.t) (snap : MetricMap.t) :
  flush a startTime endTime = Ok (a', snap) →
  metricAggregatorStats.BadLines (Stats a')
  = match series (Counters a) "statsd.bad_lines_seen" "" with
    | Some c =>
        wrap64 (metricAggregatorStats.BadLines (Stats a) + Counter.Value c)
    | None => metricAggregatorStats.BadLines (Stats a)
    end
  ∧ metricAggregatorStats.LastMessage (Stats a')
    = metricAggregatorStats.LastMessage (Stats a)
  ∧ metricAggregatorStats.LastFlush (Stats a')
    = metricAggregatorStats.LastFlush (Stats a)
  ∧ metricAggregatorStats.LastFlushError (Stats a')
    = metricAggregatorStats.LastFlushError (Stats a).
Proof.
  unfold flush, EachCounter, EachTimer. intros Hf.
  apply bind_Ok in Hf as ([cs n1] & Hcs & Hf).
  apply bind_Ok in Hf as ([ts n2] & Hts & Hf).
  injection Hf as <- <-. cbn. split; [|done].
  pose proof (Each_series fst _ _ _ _ _ (flushCounterEntry_pointwise a)
                (λ _ _, eq_refl) Hcs "statsd.bad_lines_seen" "") as H.
  cbn in H. unfold series in H at 1. rewrite H.
  by destruct (series (Counters a) "statsd.bad_lines_seen" "").
Qed.

Lemma flush_accumulates_bad_lines_witness :
  let a := receiveAll (NewMetricAggregator [90%float] time.Second 0 1)
             [(Metric.mk "statsd.bad_lines_seen" 3 "" [] COUNTER, 0, 0)] in
  ∃ a' snap, flush a 1 3 = Ok (a', snap)
    ∧ metricAggregatorStats.BadLines (Stats a') = 3.
Proof.
  intros a.
  destruct (flush a 1 3) as [[a' snap]|e] eqn:Hf;
    [|vm_compute in Hf; discriminate].
  exists a', snap. split; [reflexivity|].
  pose proof (flush_accumulates_bad_lines a 1 3 a' snap Hf) as (H1 & _).
  rewrite H1. vm_compute. reflexivity.
Defined.

(** ** The fields of a finalized timer *)

Lemma index_Ok (l : list float) (i : Z) v :
  index l i = Ok v →
  0 ≤ i < Z.of_nat (length l) ∧ nth (Z.to_nat i) l 0%float = v.
Proof.
  unfold index. destruct (0 <=? i) eqn:Hi; [|done].
  destruct (l !! Z.to_nat i) as [w|] eqn:Hl; [|done]. intros [= <-].
  apply Z.leb_le in Hi. pose proof (lookup_lt_Some _ _ _ Hl).
  split; [lia|]. by apply nth_lookup_Some.
Qed.

Lemma finalizeTimer_inv {sorter : sort.Sorter} a x x' :
  finalizeTimer a x = Ok x' →
  ∃ v0 rest st,
    let vs := v0 :: rest in
    let n := Z.of_nat (length vs) in
    sort.Float64s (Timer.Values x) = vs
    ∧ foldM (thresholdBody vs (v0 :: cumulate id v0 rest)
               ((v0 * v0)%float
                  :: cumulate (λ v, (v * v)%float) (v0 * v0)%float rest)
               n (float64.of_int n))
        (PercentThresholds a)
        (mkThresholdVars (v0 * v0)%float v0 v0
           (nth (length rest) vs 0%float) (Timer.Percentiles x)) = Ok st
    ∧ Timer.Percentiles x' = percentiles st
    ∧ Timer.Count x' = n
    ∧ Timer.PerSecond x'
      = (float64.of_int n / time.Seconds (FlushInterval a))%float
    ∧ Timer.Min x' = v0
    ∧ Timer.Max x' = nth (length rest) vs 0%float
    ∧ Timer.Sum x' = nth (length rest) (v0 :: cumulate id v0 rest) 0%float
    ∧ Timer.Values x' = vs.
Proof.
  unfold finalizeTimer.
  destruct (sort.Float64s (Timer.Values x)) as [|v0 rest]; [done|].
  intros H. exists v0, rest.
  apply bind_Ok in H as (tMin & HtMin & H).
  apply index_Ok in HtMin as [_ <-].
  apply bind_Ok in H as (tMax & HtMax & H).
  apply index_Ok in HtMax as [_ <-].
  apply bind_Ok in H as (st & Hst & H).
  apply bind_Ok in H as (sum & Hsum & H).
  apply index_Ok in Hsum as [_ <-].
  apply bind_Ok in H as (sumSquares & _ & H).
  apply bind_Ok in H as (median & _ & H).
  injection H as <-. exists st. cbn [Timer.Percentiles Timer.Count
    Timer.PerSecond Timer.Min Timer.Max Timer.Sum Timer.Values].
  replace (Z.to_nat (Z.of_nat (length (v0 :: rest)) - 1)) with (length rest)
    in * by (cbn [length]; lia).
  replace (Z.to_nat (Z.of_nat (S (length rest)) - 1)) with (length rest)
    by lia.
  repeat split; done.
Qed.

Lemma nth_last_cons (v0 : float) rest :
  (v0 :: rest) !! length rest = Some (nth (length rest) (v0 :: rest) 0%float)
  ∧ last (v0 :: rest) = Some (nth (length rest) (v0 :: rest) 0%float).
Proof.
  destruct (lookup_lt_is_Some_2 (v0 :: rest) (length rest)) as [w Hw];
    [cbn [length]; lia|].
  rewrite (nth_lookup_Some _ _ 0%float _ Hw). split; [done|].
  rewrite last_lookup. exact Hw.
Qed.

(** X14.  For a timer with samples, a flush that returns stores the number
    of samples as the count, that number divided by the seconds of the flush
    interval as the rate, and as minimum and maximum the first and the last
    of the values in the order the flush leaves them; both are samples of
    the timer. *)
Theorem flush_timer_count_rate_extremes {sorter : sort.Sorter}
  (a : MetricAggregator.t) (startTime endTime : time.Time)
  (a' : MetricAggregator.t) (snap : MetricMap.t) (k t : string) (x : Timer.t) :
  flush a startTime endTime = Ok (a', snap) →
  series (Timers a) k t = Some x →
  Timer.Values x ≠ [] →
  ∃ x', series (Timers a') k t = Some x'
    ∧ Timer.Count x' = Z.of_nat (length (Timer.Values x))
    ∧ Timer.PerSecond x'
      = (float64.of_int (Z.of_nat (length (Timer.Values x)))
         / time.Seconds (FlushInterval a))%float
    ∧ head (Timer.Values x') = Some (Timer.Min x')
    ∧ last (Timer.Values x') = Some (Timer.Max x')
    ∧ Timer.Min x' ∈ Timer.Values x
    ∧ Timer.Max x' ∈ Timer.Values x.
Proof.
  intros Hf Hx Hne.
  apply flush_inv in Hf as (_ & Ht & Hfin & _).
  destruct (Hfin k t x Hx Hne) as [x' Hx'].
  exists x'. split.
  { rewrite Ht, Hx. cbn. by rewrite (flushTimer_finalized a x x'). }
  apply finalizeTimer_inv in Hx'
    as (v0 & rest & st & Hvs & _ & _ & Hc & Hps & Hmin & Hmax & _ & Hv).
  cbv zeta in *.
  pose proof (Permutation_length (Float64s_Permutation (Timer.Values x)))
    as Hlen.
  rewrite Hvs in Hlen. rewrite <- Hlen.
  destruct (nth_last_cons v0 rest) as [Hl1 Hl2].
  rewrite Hv, Hmin, Hmax. repeat split; try done.
  - rewrite <- (Float64s_Permutation (Timer.Values x)), Hvs.
    apply list_elem_of_here.
  - rewrite <- (Float64s_Permutation (Timer.Values x)), Hvs.
    by eapply list_elem_of_lookup_2.
Qed.

Lemma flush_timer_count_rate_extremes_witness :
  let a := receiveAll (NewMetricAggregator [90%float] time.Second 0 1)
             [(Metric.mk "t" 2 "" [] TIMER, 0, 0);
              (Metric.mk "t" 1 "" [] TIMER, 0, 0);
              (Metric.mk "t" 3 "" [] TIMER, 0, 0)] in
  ∃ a' snap x, flush a 1 2 = Ok (a', snap)
    ∧ series (Timers a) "t" "" = Some x
    ∧ Timer.Values x ≠ []
    ∧ ∃ x', series (Timers a') "t" "" = Some x'
        ∧ Timer.Count x' = 3
        ∧ Timer.Min x' ∈ [2; 1; 3]%float.
Proof.
  intros a.
  destruct (flush a 1 2) as [[a' snap]|e] eqn:Hf;
    [|vm_compute in Hf; discriminate].
  destruct (series (Timers a) "t" "") as [x|] eqn:Hx;
    [|vm_compute in Hx; discriminate].
  assert (Hv : Timer.Values x = [2; 1; 3]%float).
  { vm_compute in Hx. injection Hx as <-. reflexivity. }
  assert (Hne : Timer.Values x ≠ []) by (rewrite Hv; discriminate).
  exists a', snap, x. split; [reflexivity|]. split; [reflexivity|].
  split; [exact Hne|].
  destruct (flush_timer_count_rate_extremes a 1 2 a' snap "t" "" x Hf Hx Hne)
    as (x' & H1 & H2 & _ & _ & _ & H3 & _).
  exists x'. rewrite Hv in H2, H3. by repeat split.
Defined.

Lemma thresholdInRange_one pcts : forallb (thresholdInRange 1) pcts = true.
Proof. induction pcts as [|p pcts IH]; [done|]. cbn. exact IH. Qed.

(** X15.  A timer with a single sample is finalized without panic under
    every list of thresholds, a lower threshold of 100 percent included:
    the count is 1 and the minimum, maximum, median and sum are the
    sample. *)
Theorem single_sample_timer {sorter : sort.Sorter}
  (a : MetricAggregator.t) (x : Timer.t) (v : float) :
  Timer.Values x = [v] →
  ∃ x', finalizeTimer a x = Ok x'
    ∧ Timer.Count x' = 1
    ∧ Timer.Min x' = v ∧ Timer.Max x' = v
    ∧ Timer.Median x' = v ∧ Timer.Sum x' = v
    ∧ Timer.Values x' = [v].
Proof.
  intros Hv.
  destruct (finalizeTimer_statistics a x) as (x' & Hx' & Hc & Hs & _ & _ & _ & Hm).
  - by rewrite Hv.
  - rewrite Hv, Float64s_singleton. cbn [length]. unfold maxInt64. lia.
  - rewrite Hv, Float64s_singleton. apply thresholdInRange_one.
  - rewrite Hv, Float64s_singleton. apply halvingExact_all. cbn [length]. lia.
  - exists x'. split; [done|]. rewrite Hv, Float64s_singleton in *.
    apply finalizeTimer_inv in Hx'
      as (v0 & rest & st & Hvs & _ & _ & _ & _ & Hmin & Hmax & _ & Hvals).
    cbv zeta in *. rewrite Hv, Float64s_singleton in Hvs.
    injection Hvs as <- <-.
    rewrite Hc, Hmin, Hmax, Hm, Hs, Hvals. done.
Qed.

Lemma single_sample_timer_witness :
  let a := NewMetricAggregator [90; -100; 250]%float time.Second 0 1 in
  let x := NewTimer 0 time.Second [7%float] in
  Timer.Values x = [7%float]
  ∧ ∃ x', finalizeTimer a x = Ok x' ∧ Timer.Median x' = 7%float.
Proof.
  intros a x. split; [reflexivity|].
  destruct (single_sample_timer a x 7%float eq_refl)
    as (x' & Hx' & _ & _ & _ & Hm & _).
  exists x'. by split.
Defined.

Lemma foldM_app {A S : Type} (f : A → S → Result S) l1 l2 s :
  foldM f (l1 ++ l2) s = foldM f l1 s ≫= foldM f l2.
Proof.
  revert s. induction l1 as [|x l1 IH]; intros s; [done|].
  cbn [app foldM]. destruct (f x s) as [s1|e]; [|done].
  rewrite !Ok_bind. apply IH.
Qed.

(** X16.  When the last configured threshold is 100, a finalization that
    returns on a timer of [n] samples, [2 ≤ n < 2 ^ 52], emits for it the
    whole timer: count_100 is [n], sum_100 is the sum of the timer and
    upper_100 is its maximum. *)
Theorem upper_threshold_100_covers_the_timer {sorter : sort.Sorter}
  (a : MetricAggregator.t) (x x' : Timer.t) (pcts : list float) :
  PercentThresholds a = pcts ++ [100%float] →
  2 ≤ Z.of_nat (length (Timer.Values x)) < 2 ^ 52 →
  finalizeTimer a x = Ok x' →
  Percentiles_Get (Timer.Percentiles x') "count_100"
  = Some (float64.of_int (Z.of_nat (length (Timer.Values x))))
  ∧ Percentiles_Get (Timer.Percentiles x') "sum_100" = Some (Timer.Sum x')
  ∧ Percentiles_Get (Timer.Percentiles x') "upper_100" = Some (Timer.Max x').
Proof.
  intros Hp Hn Hx'.
  apply finalizeTimer_inv in Hx'
    as (v0 & rest & st & Hvs & Hst & -> & _ & _ & _ & -> & -> & _).
  cbv zeta in *.
  pose proof (Permutation_length (Float64s_Permutation (Timer.Values x)))
    as Hlen.
  rewrite Hvs in Hlen. rewrite <- Hlen in *. clear Hlen Hvs.
  rewrite Hp, foldM_app in Hst. apply bind_Ok in Hst as (st1 & _ & Hst).
  cbn [foldM] in Hst. apply bind_Ok in Hst as (st2 & Hst & [= <-]).
  destruct (thresholdBody_100 (v0 :: rest) (v0 :: cumulate id v0 rest)
              ((v0 * v0)%float
                 :: cumulate (λ v, (v * v)%float) (v0 * v0)%float rest) st1)
    as (st' & Hst' & Hc & Hs & Hu).
  { cbn [length]. by rewrite length_cumulate. }
  { cbn [length]. by rewrite length_cumulate. }
  { exact Hn. }
  cbv zeta in Hst'. rewrite Hst in Hst'. injection Hst' as <-.
  replace (length (v0 :: rest) - 1)%nat with (length rest) in *
    by (cbn [length]; lia).
  done.
Qed.

Lemma upper_threshold_100_covers_the_timer_witness :
  let a := NewMetricAggregator [90; 100]%float time.Second 0 1 in
  let x := NewTimer 0 time.Second [4; 1; 3; 2]%float in
  PercentThresholds a = [90%float] ++ [100%float]
  ∧ 2 ≤ Z.of_nat (length (Timer.Values x)) < 2 ^ 52
  ∧ ∃ x', finalizeTimer a x = Ok x'
      ∧ Percentiles_Get (Timer.Percentiles x') "count_100" = Some 4%float
      ∧ Percentiles_Get (Timer.Percentiles x') "upper_100"
        = Some (Timer.Max x').
Proof.
  intros a x.
  assert (H2 : 2 ≤ Z.of_nat (length (Timer.Values x)) < 2 ^ 52).
  { split; [vm_compute; discriminate|reflexivity]. }
  split; [reflexivity|]. split; [exact H2|].
  destruct (finalizeTimer a x) as [x'|e] eqn:Hx';
    [|vm_compute in Hx'; discriminate].
  exists x'. split; [reflexivity|].
  destruct (upper_threshold_100_covers_the_timer a x x' [90%float] eq_refl H2
              Hx') as (H3 & _ & H4).
  split; [exact H3|exact H4].
Defined.

Lemma Percentiles_Set_length p k v :
  (length p ≤ length (Percentiles_Set p k v) ≤ S (length p))%nat.
Proof.
  induction p as [|[k' w] p IH]; cbn; [lia|].
  destruct (String.eqb k' k); cbn; lia.
Qed.

Lemma thresholdBody_length values cumulativeValues cumulSumSquaresValues
  Count count pct st st' :
  thresholdBody values cumulativeValues cumulSumSquaresValues Count count pct
    st = Ok st' →
  (length (percentiles st) ≤ length (percentiles st')
   ≤ length (percentiles st) + 5)%nat.
Proof.
  assert (Hemit : ∀ p s (b : bool) c m su sq u l,
    (length p
     ≤ length
         (if b
          then Percentiles_Set
                 (Percentiles_Set
                    (Percentiles_Set
                       (Percentiles_Set (Percentiles_Set p ("count_" +:+ s) c)
                          ("mean_" +:+ s) m) ("sum_" +:+ s) su)
                    ("sum_squares_" +:+ s) sq) ("upper_" +:+ s) u
          else Percentiles_Set
                 (Percentiles_Set
                    (Percentiles_Set
                       (Percentiles_Set (Percentiles_Set p ("count_" +:+ s) c)
                          ("mean_" +:+ s) m) ("sum_" +:+ s) su)
                    ("sum_squares_" +:+ s) sq) ("lower_" +:+ s) l)
     ≤ length p + 5)%nat).
  { intros p s b c m su sq u l.
    pose proof (Percentiles_Set_length p ("count_" +:+ s) c).
    pose proof (Percentiles_Set_length
                  (Percentiles_Set p ("count_" +:+ s) c) ("mean_" +:+ s) m).
    pose proof (Percentiles_Set_length
                  (Percentiles_Set (Percentiles_Set p ("count_" +:+ s) c)
                     ("mean_" +:+ s) m) ("sum_" +:+ s) su).
    pose proof (Percentiles_Set_length
                  (Percentiles_Set
                     (Percentiles_Set (Percentiles_Set p ("count_" +:+ s) c)
                        ("mean_" +:+ s) m) ("sum_" +:+ s) su)
                  ("sum_squares_" +:+ s) sq).
    destruct b;
      match goal with
      | |- context [Percentiles_Set ?q ?key ?w] =>
          lazymatch key with
          | ("upper_" +:+ _) => pose proof (Percentiles_Set_length q key w)
          | ("lower_" +:+ _) => pose proof (Percentiles_Set_length q key w)
          end
      end; lia. }
  unfold thresholdBody. destruct (1 <? Count).
  - destruct (numInThresholdOf pct count =? 0).
    + intros [= <-]. lia.
    + intros H. apply bind_Ok in H as ([[b s] q] & _ & H).
      injection H as <-. cbn [percentiles]. apply Hemit.
  - intros [= <-]. cbn [percentiles]. apply Hemit.
Qed.

Lemma thresholds_length values cumulativeValues cumulSumSquaresValues
  Count count pcts st st' :
  foldM (thresholdBody values cumulativeValues cumulSumSquaresValues Count
           count) pcts st = Ok st' →
  (length (percentiles st) ≤ length (percentiles st')
   ≤ length (percentiles st) + 5 * length pcts)%nat.
Proof.
  revert st. induction pcts as [|pct pcts IH]; intros st H; cbn [foldM] in H.
  - injection H as <-. lia.
  - apply bind_Ok in H as (st1 & H1 & H).
    apply thresholdBody_length in H1. apply IH in H. cbn [length]. lia.
Qed.

(** X17.  The finalization of a timer removes no percentile field and adds
    at most five for each configured threshold. *)
Theorem finalizeTimer_percentile_fields {sorter : sort.Sorter}
  (a : MetricAggregator.t) (x x' : Timer.t) :
  finalizeTimer a x = Ok x' →
  (length (Timer.Percentiles x) ≤ length (Timer.Percentiles x')
   ≤ length (Timer.Percentiles x) + 5 * length (PercentThresholds a))%nat.
Proof.
  intros Hx'.
  apply finalizeTimer_inv in Hx' as (v0 & rest & st & _ & Hst & -> & _).
  cbv zeta in Hst. apply thresholds_length in Hst. exact Hst.
Qed.

Lemma finalizeTimer_percentile_fields_witness :
  let a := NewMetricAggregator [90; 100]%float time.Second 0 1 in
  let x := NewTimer 0 time.Second [4; 1; 3; 2]%float in
  ∃ x', finalizeTimer a x = Ok x'
    ∧ (length (Timer.Percentiles x') ≤ 10)%nat.
Proof.
  intros a x.
  destruct (finalizeTimer a x) as [x'|e] eqn:Hx';
    [|vm_compute in Hx'; discriminate].
  exists x'. split; [reflexivity|].
  exact (proj2 (finalizeTimer_percentile_fields a x x' Hx')).
Defined.

(** ** A flush with nothing folded since the reset *)

(** X18.  A flush that comes directly after a reset, with no fold in
    between, never panics, whatever the thresholds: it hands out every
    counter with the value 0, every timer without values and with the
    count 0, and every set with no string. *)
Theorem flush_after_Reset_returns {sorter : sort.Sorter}
  (a : MetricAggregator.t) (now startTime endTime : time.Time) :
  ∃ a1 a2 snap,
    Reset a now = Ok a1
    ∧ flush a1 startTime endTime = Ok (a2, snap)
    ∧ (∀ k t c, series (MetricMap.Counters snap) k t = Some c →
         Counter.Value c = 0)
    ∧ (∀ k t x, series (MetricMap.Timers snap) k t = Some x →
         Timer.Values x = [] ∧ Timer.Count x = 0)
    ∧ (∀ k t x, series (MetricMap.Sets snap) k t = Some x →
         Set_.Values x = ∅).
Proof.
  destruct (Reset_spec a now) as (a1 & Hr & Hc & Ht & Hs & _).
  assert (Hempty : ∀ k t x, series (Timers a1) k t = Some x →
            x = Timer.ofInterval (Timer.Interval x)).
  { intros k t x. rewrite Ht. unfold resetOf.
    destruct (series (Timers a) k t) as [y|]; [|done]. cbn.
    case_match; [done|]. by intros [= <-]. }
  assert (Hfin : timersFinalize a1).
  { intros k t x Hx Hne. apply Hempty in Hx. rewrite Hx in Hne. done. }
  destruct (flush_total a1 startTime endTime Hfin) as (a2 & snap & Hf).
  exists a1, a2, snap. split; [done|]. split; [done|].
  apply flush_inv in Hf
    as (Hc2 & Ht2 & _ & _ & Hs2 & -> & -> & _ & -> & _).
  split; [|split].
  - intros k t c. rewrite Hc2, Hc. unfold resetOf.
    destruct (series (Counters a) k t) as [y|]; [|done]. cbn.
    case_match; [done|]. by intros [= <-].
  - intros k t x. rewrite Ht2.
    destruct (series (Timers a1) k t) as [y|] eqn:Hy; [|done].
    intros [= <-]. apply Hempty in Hy. rewrite Hy. done.
  - intros k t x. rewrite Hs2, Hs. unfold resetOf.
    destruct (series (Sets a) k t) as [y|]; [|done]. cbn.
    case_match; [done|]. by intros [= <-].
Qed.

(** ** The order in which folds arrive *)

Lemma foldsInto_sameTarget m1 m2 kind k t :
  foldsInto m1 kind k t → foldsInto m2 kind k t → sameTarget m1 m2.
Proof.
  intros (H1 & H2 & H3) (H4 & H5 & H6). unfold sameTarget.
  repeat split; congruence.
Qed.

(** X19.  Two folds that go to different series commute: whichever of
    the two the lock serves first, every series of the four kinds holds
    the same record afterwards. *)
Theorem folds_into_different_series_commute
  (a : MetricAggregator.t) (m1 m2 : Metric.t)
  (now1 wallClock1 now2 wallClock2 : time.Time) :
  ¬ sameTarget m1 m2 →
  sameRecords
    (receiveMetric (receiveMetric a m1 now1 wallClock1) m2 now2 wallClock2)
    (receiveMetric (receiveMetric a m2 now2 wallClock2) m1 now1 wallClock1).
Proof.
  intros Hne k t.
  pose proof (proj1 (receive_config a m1 now1 wallClock1)) as H1.
  pose proof (proj1 (receive_config a m2 now2 wallClock2)) as H2.
  rewrite !receive_Counters, !receive_Timers, !receive_Gauges, !receive_Sets.
  set (a1 := receiveMetric a m1 now1 wallClock1) in *.
  set (a2 := receiveMetric a m2 now2 wallClock2) in *.
  rewrite (foldCounter_config a2 a m1), (foldCounter_config a1 a m2),
    (foldTimer_config a2 a m1), (foldTimer_config a1 a m2),
    (foldGauge_config a2 a m1), (foldGauge_config a1 a m2),
    (foldSet_config a2 a m1), (foldSet_config a1 a m2) by done.
  repeat split;
    repeat case_decide; try done;
    exfalso; apply Hne; eauto using foldsInto_sameTarget.
Qed.

Lemma folds_into_different_series_commute_witness :
  let a := NewMetricAggregator [90%float] time.Second 0 1 in
  let m1 := Metric.mk "hits" 1 "" [] COUNTER in
  let m2 := Metric.mk "hits" 5 "" [] GAUGE in
  ¬ sameTarget m1 m2
  ∧ sameRecords (receiveMetric (receiveMetric a m1 0 0) m2 1 1)
      (receiveMetric (receiveMetric a m2 1 1) m1 0 0).
Proof.
  intros a m1 m2.
  assert (H : ¬ sameTarget m1 m2) by (by intros [? _]).
  split; [exact H|].
  exact (folds_into_different_series_commute a m1 m2 0 0 1 1 H).
Defined.

Lemma sumZ_Permutation l l' : l ≡ₚ l' → sumZ l = sumZ l'.
Proof.
  unfold sumZ. induction 1; cbn; lia.
Qed.

Lemma increments_Permutation k t folds folds' :
  folds ≡ₚ folds' → increments k t folds ≡ₚ increments k t folds'.
Proof.
  induction 1 as [|[[m now] wall] l l' _ IH
                  |[[m1 now1] wall1] [[m2 now2] wall2] l| l1 l2 l3 _ IH1 _ IH2];
    cbn [increments].
  - done.
  - case_decide; [by constructor|done].
  - repeat case_decide; try done. apply perm_swap.
  - by etransitivity.
Qed.

Lemma occurrences_Permutation k t s folds folds' :
  folds ≡ₚ folds' → occurrences k t s folds = occurrences k t s folds'.
Proof.
  induction 1 as [|[[m now] wall] l l' _ IH
                  |[[m1 now1] wall1] [[m2 now2] wall2] l| l1 l2 l3 _ IH1 _ IH2];
    cbn [occurrences].
  - done.
  - case_decide; by rewrite IH.
  - by repeat case_decide.
  - congruence.
Qed.

Lemma foldl_wrap64_from_increment i incs :
  inInt64 i = true →
  foldl (λ acc i, wrap64 (acc + i)) i incs = wrap64 (sumZ (i :: incs)).
Proof.
  intros Hi. destruct incs as [|j incs].
  - cbn. rewrite Z.add_0_r. symmetry. by apply wrap64_small.
  - exact (foldl_wrap64_nonempty i j incs).
Qed.

(** X20.  The value of a counter and the counts of a set do not depend on
    the order in which the folds arrive: two sequences with the same folds
    in a different order leave the same counter value and the same count
    for every string. *)
Theorem counter_and_set_are_order_independent
  (a : MetricAggregator.t) (folds folds' : list Fold) (k t s : string) :
  folds ≡ₚ folds' →
  Counter.Value <$> series (Counters (receiveAll a folds)) k t
  = Counter.Value <$> series (Counters (receiveAll a folds')) k t
  ∧ setValues (receiveAll a folds) k t !! s
    = setValues (receiveAll a folds') k t !! s.
Proof.
  intros Hp. split.
  - rewrite !receiveAll_counter_value.
    pose proof (increments_Permutation k t _ _ Hp) as Hi.
    pose proof (increments_inInt64 k t folds) as Hin.
    pose proof (increments_inInt64 k t folds') as Hin'.
    destruct (increments k t folds) as [|i incs];
      destruct (increments k t folds') as [|i' incs'].
    + done.
    + by apply Permutation_nil_cons in Hi.
    + symmetry in Hi. by apply Permutation_nil_cons in Hi.
    + destruct (Counter.Value <$> series (Counters a) k t) as [v|].
      * rewrite !foldl_wrap64_nonempty. by rewrite (sumZ_Permutation _ _ Hi).
      * rewrite !foldl_wrap64_from_increment
          by first [by inversion Hin | by inversion Hin'].
        by rewrite (sumZ_Permutation _ _ Hi).
  - rewrite !receiveAll_setValues.
    by rewrite (occurrences_Permutation k t s _ _ Hp).
Qed.

Lemma counter_and_set_are_order_independent_witness :
  let a := NewMetricAggregator [90%float] time.Second 0 1 in
  let f1 : Fold := (Metric.mk "hits" 1 "" [] COUNTER, 0, 0) in
  let f2 : Fold := (Metric.mk "hits" 5 "" [] COUNTER, 1, 1) in
  [f1; f2] ≡ₚ [f2; f1]
  ∧ Counter.Value <$> series (Counters (receiveAll a [f1; f2])) "hits" ""
    = Counter.Value <$> series (Counters (receiveAll a [f2; f1])) "hits" "".
Proof.
  intros a f1 f2.
  assert (H : [f1; f2] ≡ₚ [f2; f1]) by apply perm_swap.
  split; [exact H|].
  exact (proj1 (counter_and_set_are_order_independent a _ _ "hits" "" "" H)).
Defined.

(** ** round *)

(** X21.  [round] leaves the float64 of an integer [n], [1 ≤ n < 2 ^ 52],
    as it is: the half it adds is lost again by the floor, so a number of
    samples is never changed by the rounding. *)
Theorem round_fixes_integers (n : Z) :
  1 ≤ n < 2 ^ 52 → round (float64.of_int n) = float64.of_int n.
Proof.
  intros Hn. destruct n as [|p|p]; [lia| |lia].
  assert (Hp : Z.pos p < 2 ^ 52) by lia.
  pose proof (digits2_pos_le52 p Hp) as Hd.
  assert (Hp1 : Z.pos p~1 < 2 ^ 53).
  { rewrite Pos2Z.inj_xI. change (2 ^ 53) with (2 * 2 ^ 52). lia. }
  unfold round, math.Floor.
  rewrite FloatAxioms.add_spec, Prim2SF_half.
  rewrite of_int_pos, Prim2SF_of_pos by lia.
  unfold SF64add.
  rewrite SFadd_half by lia.
  destruct (0 <=? Z.pos (digits2_pos p) - 53) eqn:H;
    [apply Z.leb_le in H; lia|].
  rewrite Zpos_normalized by lia.
  change (digits2_pos p~1) with (Pos.succ (digits2_pos p)).
  rewrite Z.shiftr_div_pow2 by lia.
  replace (- (Z.pos (digits2_pos p) - 53))
    with (Z.succ (53 - Z.pos (Pos.succ (digits2_pos p)))) by lia.
  rewrite Z.pow_succ_r by lia.
  rewrite Z.div_mul_cancel_r by (try apply Z.pow_nonzero; lia).
  rewrite Pos2Z.inj_xI.
  replace ((2 * Z.pos p + 1) / 2) with (Z.pos p)
    by (apply Z.div_unique with 1; lia).
  reflexivity.
Qed.

Lemma round_fixes_integers_witness :
  1 ≤ 5 < 2 ^ 52 ∧ round (float64.of_int 5) = float64.of_int 5.
Proof.
  assert (H : 1 ≤ 5 < 2 ^ 52) by (split; [vm_compute; discriminate|reflexivity]).
  split; [exact H|]. exact (round_fixes_integers 5 H).
Defined.

(** ** When a flush returns *)

(** X22.  A flush returns exactly when the finalization of every timer
    with samples returns: counters, gauges, sets and timers without
    samples never make a flush panic. *)
Theorem flush_returns_iff_timers_finalize {sorter : sort.Sorter}
  (a : MetricAggregator.t) (startTime endTime : time.Time) :
  (∃ a' snap, flush a startTime endTime = Ok (a', snap)) ↔ timersFinalize a.
Proof.
  split.
  - intros (a' & snap & Hf). by apply flush_inv in Hf as (_ & _ & Hfin & _).
  - apply flush_total.
Qed.
